(** * ionos-smtp-relay: HTTP-to-SMTP relay with IMAP Sent-folder discovery

    A shallow embedding of
    - [mapSmtpError] and the [POST /send] handler (server.js),
    - [findOrCreateSentBox] (src/sentbox.js),
    - [appendToSent] and [buildRFC822Message] (src/imap.js),
    - the command-line check of the discovery (scripts/imap-check.js),
    together with the properties of the specification that concern them.

    Conventions.
    - A JavaScript string is a [string] holding its UTF-8 encoding, so the
      literals below read exactly as in the source.  [includes] and [===]
      on well-formed strings agree with their byte-wise versions.
    - [toLowerCase] is the lowercase conversion of the Unicode standard
      that JavaScript prescribes: the lowercase mappings of the character
      database (version 14.0) for every code point, U+0130 mapped to two
      code points, and the capital sigma by its context.
    - The [flags] of a listed mailbox are what the client library hands
      over: imapflow builds a [Set], on which the array methods
      [includes] and [join] that the code calls do not exist, so that
      calling them throws a [TypeError].  An array and [undefined] are
      modelled beside it, since the code tests for the latter and is
      written for the former.
    - The IMAP client (imapflow) and the SMTP transport (nodemailer) are
      outside the repository: the IMAP server is an arbitrary deterministic
      transition system, one operation per client method the code calls, and
      every call is recorded with its arguments and its outcome. *)

From Stdlib Require Import String Ascii List ZArith Bool.
Import ListNotations.
Open Scope string_scope.

Set Implicit Arguments.

(* ================================================================= *)
(** ** JavaScript strings *)

Module Js.

Definition CRLF : string := String "013" (String "010" "").

(** The double-quote character. *)
Definition DQUOTE : string := String "034" "".

(** [s.startsWith(p)] *)
Fixpoint startsWith (s p : string) {struct p} : bool :=
  match p, s with
  | "", _ => true
  | String a p', String b s' => Ascii.eqb a b && startsWith s' p'
  | String _ _, "" => false
  end.

(** [s.includes(needle)] *)
Fixpoint includes (s needle : string) : bool :=
  startsWith s needle ||
  match s with
  | "" => false
  | String _ s' => includes s' needle
  end.

(** Code points.  A string holds the UTF-8 encoding of a JavaScript
    string; [decode] reads it back as Unicode scalar values.  A byte that
    is part of no well-formed sequence stands for no JavaScript character
    and is kept as it is. *)
Inductive Token :=
| Scalar (cp : N)
| Stray (b : ascii).

Definition continuation (b : ascii) : option N :=
  let n := N_of_ascii b in
  if ((128 <=? n) && (n <? 192))%N then Some (n - 128)%N else None.

Definition scalar2 (a b : ascii) : option N :=
  let n := N_of_ascii a in
  match continuation b with
  | Some x =>
      if ((194 <=? n) && (n <? 224))%N then Some ((n - 192) * 64 + x)%N
      else None
  | None => None
  end.

Definition scalar3 (a b c : ascii) : option N :=
  let n := N_of_ascii a in
  match continuation b, continuation c with
  | Some x, Some y =>
      let cp := ((n - 224) * 4096 + x * 64 + y)%N in
      if ((224 <=? n) && (n <? 240) && (2048 <=? cp) &&
          negb ((55296 <=? cp) && (cp <? 57344)))%N
      then Some cp else None
  | _, _ => None
  end.

Definition scalar4 (a b c d : ascii) : option N :=
  let n := N_of_ascii a in
  match continuation b, continuation c, continuation d with
  | Some x, Some y, Some z =>
      let cp := ((n - 240) * 262144 + x * 4096 + y * 64 + z)%N in
      if ((240 <=? n) && (n <? 248) && (65536 <=? cp) && (cp <? 1114112))%N
      then Some cp else None
  | _, _, _ => None
  end.

Fixpoint decode (s : string) : list Token :=
  match s with
  | "" => []
  | String a s1 =>
      if (N_of_ascii a <? 128)%N then Scalar (N_of_ascii a) :: decode s1
      else
        match s1 with
        | "" => [Stray a]
        | String b s2 =>
            match scalar2 a b with
            | Some cp => Scalar cp :: decode s2
            | None =>
                match s2 with
                | "" => Stray a :: decode s1
                | String c s3 =>
                    match scalar3 a b c with
                    | Some cp => Scalar cp :: decode s3
                    | None =>
                        match s3 with
                        | "" => Stray a :: decode s1
                        | String d s4 =>
                            match scalar4 a b c d with
                            | Some cp => Scalar cp :: decode s4
                            | None => Stray a :: decode s1
                            end
                        end
                    end
                end
            end
        end
  end.

Definition encodeScalar (cp : N) : string :=
  let byte := ascii_of_N in
  let low n := byte (128 + n mod 64)%N in
  if (cp <? 128)%N then String (byte cp) ""
  else if (cp <? 2048)%N then
    String (byte (192 + cp / 64)%N) (String (low cp) "")
  else if (cp <? 65536)%N then
    String (byte (224 + cp / 4096)%N)
      (String (low (cp / 64)%N) (String (low cp) ""))
  else
    String (byte (240 + cp / 262144)%N)
      (String (low (cp / 4096)%N)
         (String (low (cp / 64)%N) (String (low cp) ""))).

Fixpoint encode (ts : list Token) : string :=
  match ts with
  | [] => ""
  | Scalar cp :: ts' => encodeScalar cp ++ encode ts'
  | Stray b :: ts' => String b (encode ts')
  end.

(** The simple lowercase mappings of the Unicode character database
    (version 14.0) above U+007F: [(first, last, step, image of first)]
    stands for the code points [first], [first + step], ... up to [last],
    each mapped at the same distance as [first]. *)
Definition lowercaseRanges : list (N * N * N * N) :=
  [
   (192, 214, 1, 224); (216, 222, 1, 248); (256, 302, 2, 257);
   (306, 310, 2, 307); (313, 327, 2, 314); (330, 374, 2, 331);
   (376, 376, 1, 255); (377, 381, 2, 378); (385, 385, 1, 595);
   (386, 388, 2, 387); (390, 390, 1, 596); (391, 391, 1, 392);
   (393, 394, 1, 598); (395, 395, 1, 396); (398, 398, 1, 477);
   (399, 399, 1, 601); (400, 400, 1, 603); (401, 401, 1, 402);
   (403, 403, 1, 608); (404, 404, 1, 611); (406, 406, 1, 617);
   (407, 407, 1, 616); (408, 408, 1, 409); (412, 412, 1, 623);
   (413, 413, 1, 626); (415, 415, 1, 629); (416, 420, 2, 417);
   (422, 422, 1, 640); (423, 423, 1, 424); (425, 425, 1, 643);
   (428, 428, 1, 429); (430, 430, 1, 648); (431, 431, 1, 432);
   (433, 434, 1, 650); (435, 437, 2, 436); (439, 439, 1, 658);
   (440, 440, 1, 441); (444, 444, 1, 445); (452, 452, 1, 454);
   (453, 453, 1, 454); (455, 455, 1, 457); (456, 456, 1, 457);
   (458, 458, 1, 460); (459, 475, 2, 460); (478, 494, 2, 479);
   (497, 497, 1, 499); (498, 500, 2, 499); (502, 502, 1, 405);
   (503, 503, 1, 447); (504, 542, 2, 505); (544, 544, 1, 414);
   (546, 562, 2, 547); (570, 570, 1, 11365); (571, 571, 1, 572);
   (573, 573, 1, 410); (574, 574, 1, 11366); (577, 577, 1, 578);
   (579, 579, 1, 384); (580, 580, 1, 649); (581, 581, 1, 652);
   (582, 590, 2, 583); (880, 882, 2, 881); (886, 886, 1, 887);
   (895, 895, 1, 1011); (902, 902, 1, 940); (904, 906, 1, 941);
   (908, 908, 1, 972); (910, 911, 1, 973); (913, 929, 1, 945);
   (931, 939, 1, 963); (975, 975, 1, 983); (984, 1006, 2, 985);
   (1012, 1012, 1, 952); (1015, 1015, 1, 1016); (1017, 1017, 1, 1010);
   (1018, 1018, 1, 1019); (1021, 1023, 1, 891); (1024, 1039, 1, 1104);
   (1040, 1071, 1, 1072); (1120, 1152, 2, 1121); (1162, 1214, 2, 1163);
   (1216, 1216, 1, 1231); (1217, 1229, 2, 1218); (1232, 1326, 2, 1233);
   (1329, 1366, 1, 1377); (4256, 4293, 1, 11520); (4295, 4295, 1, 11559);
   (4301, 4301, 1, 11565); (5024, 5103, 1, 43888); (5104, 5109, 1, 5112);
   (7312, 7354, 1, 4304); (7357, 7359, 1, 4349); (7680, 7828, 2, 7681);
   (7838, 7838, 1, 223); (7840, 7934, 2, 7841); (7944, 7951, 1, 7936);
   (7960, 7965, 1, 7952); (7976, 7983, 1, 7968); (7992, 7999, 1, 7984);
   (8008, 8013, 1, 8000); (8025, 8031, 2, 8017); (8040, 8047, 1, 8032);
   (8072, 8079, 1, 8064); (8088, 8095, 1, 8080); (8104, 8111, 1, 8096);
   (8120, 8121, 1, 8112); (8122, 8123, 1, 8048); (8124, 8124, 1, 8115);
   (8136, 8139, 1, 8050); (8140, 8140, 1, 8131); (8152, 8153, 1, 8144);
   (8154, 8155, 1, 8054); (8168, 8169, 1, 8160); (8170, 8171, 1, 8058);
   (8172, 8172, 1, 8165); (8184, 8185, 1, 8056); (8186, 8187, 1, 8060);
   (8188, 8188, 1, 8179); (8486, 8486, 1, 969); (8490, 8490, 1, 107);
   (8491, 8491, 1, 229); (8498, 8498, 1, 8526); (8544, 8559, 1, 8560);
   (8579, 8579, 1, 8580); (9398, 9423, 1, 9424); (11264, 11311, 1, 11312);
   (11360, 11360, 1, 11361); (11362, 11362, 1, 619); (11363, 11363, 1, 7549);
   (11364, 11364, 1, 637); (11367, 11371, 2, 11368); (11373, 11373, 1, 593);
   (11374, 11374, 1, 625); (11375, 11375, 1, 592); (11376, 11376, 1, 594);
   (11378, 11378, 1, 11379); (11381, 11381, 1, 11382); (11390, 11391, 1, 575);
   (11392, 11490, 2, 11393); (11499, 11501, 2, 11500); (11506, 11506, 1, 11507);
   (42560, 42604, 2, 42561); (42624, 42650, 2, 42625); (42786, 42798, 2, 42787);
   (42802, 42862, 2, 42803); (42873, 42875, 2, 42874); (42877, 42877, 1, 7545);
   (42878, 42886, 2, 42879); (42891, 42891, 1, 42892); (42893, 42893, 1, 613);
   (42896, 42898, 2, 42897); (42902, 42920, 2, 42903); (42922, 42922, 1, 614);
   (42923, 42923, 1, 604); (42924, 42924, 1, 609); (42925, 42925, 1, 620);
   (42926, 42926, 1, 618); (42928, 42928, 1, 670); (42929, 42929, 1, 647);
   (42930, 42930, 1, 669); (42931, 42931, 1, 43859); (42932, 42946, 2, 42933);
   (42948, 42948, 1, 42900); (42949, 42949, 1, 642); (42950, 42950, 1, 7566);
   (42951, 42953, 2, 42952); (42960, 42960, 1, 42961); (42966, 42968, 2, 42967);
   (42997, 42997, 1, 42998); (65313, 65338, 1, 65345); (66560, 66599, 1, 66600);
   (66736, 66771, 1, 66776); (66928, 66938, 1, 66967); (66940, 66954, 1, 66979);
   (66956, 66962, 1, 66995); (66964, 66965, 1, 67003); (68736, 68786, 1, 68800);
   (71840, 71871, 1, 71872); (93760, 93791, 1, 93792); (125184, 125217, 1, 125218)
  ]%N.

(** Case_Ignorable, as inclusive ranges. *)
Definition caseIgnorableRanges : list (N * N) :=
  [
   (39, 39); (46, 46); (58, 58); (94, 94); (96, 96);
   (168, 168); (173, 173); (175, 175); (180, 180); (183, 184);
   (688, 879); (884, 885); (890, 890); (900, 901); (903, 903);
   (1155, 1161); (1369, 1369); (1375, 1375); (1425, 1469); (1471, 1471);
   (1473, 1474); (1476, 1477); (1479, 1479); (1524, 1524); (1536, 1541);
   (1552, 1562); (1564, 1564); (1600, 1600); (1611, 1631); (1648, 1648);
   (1750, 1757); (1759, 1768); (1770, 1773); (1807, 1807); (1809, 1809);
   (1840, 1866); (1958, 1968); (2027, 2037); (2042, 2042); (2045, 2045);
   (2070, 2093); (2137, 2139); (2184, 2184); (2192, 2193); (2200, 2207);
   (2249, 2306); (2362, 2362); (2364, 2364); (2369, 2376); (2381, 2381);
   (2385, 2391); (2402, 2403); (2417, 2417); (2433, 2433); (2492, 2492);
   (2497, 2500); (2509, 2509); (2530, 2531); (2558, 2558); (2561, 2562);
   (2620, 2620); (2625, 2626); (2631, 2632); (2635, 2637); (2641, 2641);
   (2672, 2673); (2677, 2677); (2689, 2690); (2748, 2748); (2753, 2757);
   (2759, 2760); (2765, 2765); (2786, 2787); (2810, 2815); (2817, 2817);
   (2876, 2876); (2879, 2879); (2881, 2884); (2893, 2893); (2901, 2902);
   (2914, 2915); (2946, 2946); (3008, 3008); (3021, 3021); (3072, 3072);
   (3076, 3076); (3132, 3132); (3134, 3136); (3142, 3144); (3146, 3149);
   (3157, 3158); (3170, 3171); (3201, 3201); (3260, 3260); (3263, 3263);
   (3270, 3270); (3276, 3277); (3298, 3299); (3328, 3329); (3387, 3388);
   (3393, 3396); (3405, 3405); (3426, 3427); (3457, 3457); (3530, 3530);
   (3538, 3540); (3542, 3542); (3633, 3633); (3636, 3642); (3654, 3662);
   (3761, 3761); (3764, 3772); (3782, 3782); (3784, 3789); (3864, 3865);
   (3893, 3893); (3895, 3895); (3897, 3897); (3953, 3966); (3968, 3972);
   (3974, 3975); (3981, 3991); (3993, 4028); (4038, 4038); (4141, 4144);
   (4146, 4151); (4153, 4154); (4157, 4158); (4184, 4185); (4190, 4192);
   (4209, 4212); (4226, 4226); (4229, 4230); (4237, 4237); (4253, 4253);
   (4348, 4348); (4957, 4959); (5906, 5908); (5938, 5939); (5970, 5971);
   (6002, 6003); (6068, 6069); (6071, 6077); (6086, 6086); (6089, 6099);
   (6103, 6103); (6109, 6109); (6155, 6159); (6211, 6211); (6277, 6278);
   (6313, 6313); (6432, 6434); (6439, 6440); (6450, 6450); (6457, 6459);
   (6679, 6680); (6683, 6683); (6742, 6742); (6744, 6750); (6752, 6752);
   (6754, 6754); (6757, 6764); (6771, 6780); (6783, 6783); (6823, 6823);
   (6832, 6862); (6912, 6915); (6964, 6964); (6966, 6970); (6972, 6972);
   (6978, 6978); (7019, 7027); (7040, 7041); (7074, 7077); (7080, 7081);
   (7083, 7085); (7142, 7142); (7144, 7145); (7149, 7149); (7151, 7153);
   (7212, 7219); (7222, 7223); (7288, 7293); (7376, 7378); (7380, 7392);
   (7394, 7400); (7405, 7405); (7412, 7412); (7416, 7417); (7468, 7530);
   (7544, 7544); (7579, 7679); (8125, 8125); (8127, 8129); (8141, 8143);
   (8157, 8159); (8173, 8175); (8189, 8190); (8203, 8207); (8216, 8217);
   (8228, 8228); (8231, 8231); (8234, 8238); (8288, 8292); (8294, 8303);
   (8305, 8305); (8319, 8319); (8336, 8348); (8400, 8432); (11388, 11389);
   (11503, 11505); (11631, 11631); (11647, 11647); (11744, 11775); (11823, 11823);
   (12293, 12293); (12330, 12333); (12337, 12341); (12347, 12347); (12441, 12446);
   (12540, 12542); (40981, 40981); (42232, 42237); (42508, 42508); (42607, 42610);
   (42612, 42621); (42623, 42623); (42652, 42655); (42736, 42737); (42752, 42785);
   (42864, 42864); (42888, 42890); (42994, 42996); (43000, 43001); (43010, 43010);
   (43014, 43014); (43019, 43019); (43045, 43046); (43052, 43052); (43204, 43205);
   (43232, 43249); (43263, 43263); (43302, 43309); (43335, 43345); (43392, 43394);
   (43443, 43443); (43446, 43449); (43452, 43453); (43471, 43471); (43493, 43494);
   (43561, 43566); (43569, 43570); (43573, 43574); (43587, 43587); (43596, 43596);
   (43632, 43632); (43644, 43644); (43696, 43696); (43698, 43700); (43703, 43704);
   (43710, 43711); (43713, 43713); (43741, 43741); (43756, 43757); (43763, 43764);
   (43766, 43766); (43867, 43871); (43881, 43883); (44005, 44005); (44008, 44008);
   (44013, 44013); (64286, 64286); (64434, 64450); (65024, 65039); (65043, 65043);
   (65056, 65071); (65106, 65106); (65109, 65109); (65279, 65279); (65287, 65287);
   (65294, 65294); (65306, 65306); (65342, 65342); (65344, 65344); (65392, 65392);
   (65438, 65439); (65507, 65507); (65529, 65531); (66045, 66045); (66272, 66272);
   (66422, 66426); (67456, 67461); (67463, 67504); (67506, 67514); (68097, 68099);
   (68101, 68102); (68108, 68111); (68152, 68154); (68159, 68159); (68325, 68326);
   (68900, 68903); (69291, 69292); (69446, 69456); (69506, 69509); (69633, 69633);
   (69688, 69702); (69744, 69744); (69747, 69748); (69759, 69761); (69811, 69814);
   (69817, 69818); (69821, 69821); (69826, 69826); (69837, 69837); (69888, 69890);
   (69927, 69931); (69933, 69940); (70003, 70003); (70016, 70017); (70070, 70078);
   (70089, 70092); (70095, 70095); (70191, 70193); (70196, 70196); (70198, 70199);
   (70206, 70206); (70367, 70367); (70371, 70378); (70400, 70401); (70459, 70460);
   (70464, 70464); (70502, 70508); (70512, 70516); (70712, 70719); (70722, 70724);
   (70726, 70726); (70750, 70750); (70835, 70840); (70842, 70842); (70847, 70848);
   (70850, 70851); (71090, 71093); (71100, 71101); (71103, 71104); (71132, 71133);
   (71219, 71226); (71229, 71229); (71231, 71232); (71339, 71339); (71341, 71341);
   (71344, 71349); (71351, 71351); (71453, 71455); (71458, 71461); (71463, 71467);
   (71727, 71735); (71737, 71738); (71995, 71996); (71998, 71998); (72003, 72003);
   (72148, 72151); (72154, 72155); (72160, 72160); (72193, 72202); (72243, 72248);
   (72251, 72254); (72263, 72263); (72273, 72278); (72281, 72283); (72330, 72342);
   (72344, 72345); (72752, 72758); (72760, 72765); (72767, 72767); (72850, 72871);
   (72874, 72880); (72882, 72883); (72885, 72886); (73009, 73014); (73018, 73018);
   (73020, 73021); (73023, 73029); (73031, 73031); (73104, 73105); (73109, 73109);
   (73111, 73111); (73459, 73460); (78896, 78904); (92912, 92916); (92976, 92982);
   (92992, 92995); (94031, 94031); (94095, 94111); (94176, 94177); (94179, 94180);
   (110576, 110579); (110581, 110587); (110589, 110590); (113821, 113822); (113824, 113827);
   (118528, 118573); (118576, 118598); (119143, 119145); (119155, 119170); (119173, 119179);
   (119210, 119213); (119362, 119364); (121344, 121398); (121403, 121452); (121461, 121461);
   (121476, 121476); (121499, 121503); (121505, 121519); (122880, 122886); (122888, 122904);
   (122907, 122913); (122915, 122916); (122918, 122922); (123184, 123197); (123566, 123566);
   (123628, 123631); (125136, 125142); (125252, 125259); (127995, 127999); (917505, 917505);
   (917536, 917631); (917760, 917999)
  ]%N.

(** Cased and not Case_Ignorable, as inclusive ranges. *)
Definition casedRanges : list (N * N) :=
  [
   (65, 90); (97, 122); (170, 170); (181, 181); (186, 186);
   (192, 214); (216, 246); (248, 442); (444, 447); (452, 659);
   (661, 687); (880, 883); (886, 887); (891, 893); (895, 895);
   (902, 902); (904, 906); (908, 908); (910, 929); (931, 1013);
   (1015, 1153); (1162, 1327); (1329, 1366); (1376, 1416); (4256, 4293);
   (4295, 4295); (4301, 4301); (4304, 4346); (4349, 4351); (5024, 5109);
   (5112, 5117); (7296, 7304); (7312, 7354); (7357, 7359); (7424, 7467);
   (7531, 7543); (7545, 7578); (7680, 7957); (7960, 7965); (7968, 8005);
   (8008, 8013); (8016, 8023); (8025, 8025); (8027, 8027); (8029, 8029);
   (8031, 8061); (8064, 8116); (8118, 8124); (8126, 8126); (8130, 8132);
   (8134, 8140); (8144, 8147); (8150, 8155); (8160, 8172); (8178, 8180);
   (8182, 8188); (8450, 8450); (8455, 8455); (8458, 8467); (8469, 8469);
   (8473, 8477); (8484, 8484); (8486, 8486); (8488, 8488); (8490, 8493);
   (8495, 8500); (8505, 8505); (8508, 8511); (8517, 8521); (8526, 8526);
   (8544, 8575); (8579, 8580); (9398, 9449); (11264, 11387); (11390, 11492);
   (11499, 11502); (11506, 11507); (11520, 11557); (11559, 11559); (11565, 11565);
   (42560, 42605); (42624, 42651); (42786, 42863); (42865, 42887); (42891, 42894);
   (42896, 42954); (42960, 42961); (42963, 42963); (42965, 42969); (42997, 42998);
   (43002, 43002); (43824, 43866); (43872, 43880); (43888, 43967); (64256, 64262);
   (64275, 64279); (65313, 65338); (65345, 65370); (66560, 66639); (66736, 66771);
   (66776, 66811); (66928, 66938); (66940, 66954); (66956, 66962); (66964, 66965);
   (66967, 66977); (66979, 66993); (66995, 67001); (67003, 67004); (68736, 68786);
   (68800, 68850); (71840, 71903); (93760, 93823); (119808, 119892); (119894, 119964);
   (119966, 119967); (119970, 119970); (119973, 119974); (119977, 119980); (119982, 119993);
   (119995, 119995); (119997, 120003); (120005, 120069); (120071, 120074); (120077, 120084);
   (120086, 120092); (120094, 120121); (120123, 120126); (120128, 120132); (120134, 120134);
   (120138, 120144); (120146, 120485); (120488, 120512); (120514, 120538); (120540, 120570);
   (120572, 120596); (120598, 120628); (120630, 120654); (120656, 120686); (120688, 120712);
   (120714, 120744); (120746, 120770); (120772, 120779); (122624, 122633); (122635, 122654);
   (125184, 125251); (127280, 127305); (127312, 127337); (127344, 127369)
  ]%N.

Fixpoint lowercaseIn (ranges : list (N * N * N * N)) (cp : N) : option N :=
  match ranges with
  | [] => None
  | (first, last, step, image) :: ranges' =>
      if ((first <=? cp) && (cp <=? last) && ((cp - first) mod step =? 0))%N
      then Some (image + (cp - first))%N
      else lowercaseIn ranges' cp
  end.

Definition within (ranges : list (N * N)) (cp : N) : bool :=
  existsb (fun r => (fst r <=? cp) && (cp <=? snd r))%N ranges.

(** The lowercase mapping of one code point, out of context.  U+0130 is
    the one code point that maps to two. *)
Definition lowerScalar (cp : N) : list N :=
  if (cp <? 128)%N then
    if ((65 <=? cp) && (cp <=? 90))%N then [cp + 32]%N else [cp]
  else if (cp =? 304)%N then [105; 775]%N
  else
    match lowercaseIn lowercaseRanges cp with
    | Some l => [l]
    | None => [cp]
    end.

(** Whether the first character that is not case-ignorable is cased. *)
Fixpoint nextIsCased (ts : list Token) : bool :=
  match ts with
  | Scalar cp :: ts' =>
      if within caseIgnorableRanges cp then nextIsCased ts'
      else within casedRanges cp
  | _ => false
  end.

(** [before] holds the characters already read, the last one first.  A
    capital sigma (U+03A3) that ends a word becomes the final sigma
    U+03C2 (Final_Sigma of SpecialCasing). *)
Fixpoint lowerTokens (before ts : list Token) : list Token :=
  match ts with
  | [] => []
  | Stray b :: ts' => Stray b :: lowerTokens (Stray b :: before) ts'
  | Scalar cp :: ts' =>
      (if (cp =? 931)%N then
         [Scalar (if nextIsCased before && negb (nextIsCased ts')
                  then 962 else 963)%N]
       else map Scalar (lowerScalar cp))
      ++ lowerTokens (Scalar cp :: before) ts'
  end.

(** [s.toLowerCase()] *)
Definition toLowerCase (s : string) : string :=
  encode (lowerTokens [] (decode s)).

(** Truthiness of a string value that may be [undefined]. *)
Definition truthy (o : option string) : bool :=
  match o with
  | Some s => negb (s =? "")
  | None => false
  end.

(** [a || b] on values that are strings or [undefined]. *)
Definition orElse (a b : option string) : option string :=
  if truthy a then a else b.

(** [a === 'literal'] on a value that is a string or [undefined]. *)
Definition strictEq (a : option string) (lit : string) : bool :=
  match a with
  | Some s => s =? lit
  | None => false
  end.

(** [a || 'literal'] *)
Definition orDefault (a : option string) (d : string) : string :=
  match a with
  | Some s => if s =? "" then d else s
  | None => d
  end.

(** [xs.join(sep)] *)
Definition join (sep : string) (xs : list string) : string :=
  String.concat sep xs.

(** [xs.find(p)] *)
Definition find {A} (p : A -> bool) (xs : list A) : option A :=
  List.find p xs.

(** [xs.includes(x)] on an array of strings. *)
Definition arrayIncludes (xs : list string) (x : string) : bool :=
  existsb (String.eqb x) xs.

(** A value as [typeof] sees it. *)
Inductive value :=
| VUndefined
| VNull
| VBool (b : bool)
| VNumber (z : Z)
| VString (s : string)
| VBuffer (bytes : list ascii)
| VObject.

Definition typeof (v : value) : string :=
  match v with
  | VUndefined => "undefined"
  | VNull => "object"
  | VBool _ => "boolean"
  | VNumber _ => "number"
  | VString _ => "string"
  | VBuffer _ => "object"
  | VObject => "object"
  end.

(** [!!v] *)
Definition toBoolean (v : value) : bool :=
  match v with
  | VUndefined | VNull => false
  | VBool b => b
  | VNumber z => negb (z =? 0)%Z
  | VString s => negb (s =? "")
  | VBuffer _ | VObject => true
  end.

(** An [Error] object, as far as the code looks at it. *)
Record Error := mkError { message : string }.

(** [String(e?.message || e)] for an [Error] [e]. *)
Definition describe (e : Error) : string :=
  if message e =? "" then "Error" else message e.

End Js.

(* ================================================================= *)
(** ** server.js: the SMTP error taxonomy *)

Record MappedError := { status : Z; mapped_message : string }.

Definition mapSmtpError (error : Js.Error) : MappedError :=
  let message := Js.toLowerCase (Js.message error) in
  if Js.includes message "authentication" ||
     Js.includes message "auth" ||
     Js.includes message "invalid login" ||
     Js.includes message "535"
  then {| status := 401; mapped_message := "Error de autenticación SMTP" |}
  else
  if Js.includes message "connection" ||
     Js.includes message "connect" ||
     Js.includes message "timeout" ||
     Js.includes message "enotfound" ||
     Js.includes message "network" ||
     Js.includes message "dns"
  then {| status := 502;
          mapped_message := "Error de conexión con el servidor SMTP" |}
  else
  if Js.includes message "tls" ||
     Js.includes message "ssl" ||
     Js.includes message "certificate"
  then {| status := 502; mapped_message := "Error de seguridad TLS/SSL" |}
  else
  if Js.includes message "recipient" ||
     Js.includes message "invalid" ||
     Js.includes message "550" ||
     Js.includes message "553"
  then {| status := 422;
          mapped_message := "Dirección de email inválida o rechazada" |}
  else {| status := 500; mapped_message := "Error interno del servidor SMTP" |}.

(** The classes of the taxonomy, by the words that announce them in a
    lowercased SMTP error message. *)
Inductive SmtpErrorClass :=
| Authentication
| Connectivity
| TlsCertificate
| RecipientRejection
| Unclassified.

Definition classKeywords (c : SmtpErrorClass) : list string :=
  match c with
  | Authentication => ["authentication"; "auth"; "invalid login"; "535"]
  | Connectivity =>
      ["connection"; "connect"; "timeout"; "enotfound"; "network"; "dns"]
  | TlsCertificate => ["tls"; "ssl"; "certificate"]
  | RecipientRejection => ["recipient"; "invalid"; "550"; "553"]
  | Unclassified => []
  end.

Definition mentions (c : SmtpErrorClass) (error : Js.Error) : bool :=
  existsb (Js.includes (Js.toLowerCase (Js.message error))) (classKeywords c).

(** The class of an error: the first class, in the order of the taxonomy,
    one of whose words the message carries. *)
Definition classOf (error : Js.Error) : SmtpErrorClass :=
  match List.find (fun c => mentions c error)
          [Authentication; Connectivity; TlsCertificate; RecipientRejection]
  with
  | Some c => c
  | None => Unclassified
  end.

Definition classStatus (c : SmtpErrorClass) : Z :=
  match c with
  | Authentication => 401
  | Connectivity => 502
  | TlsCertificate => 502
  | RecipientRejection => 422
  | Unclassified => 500
  end.

(* ================================================================= *)
(** ** src/imap.js: the message composer *)

(** [process.env], the variables the code reads. *)
Record Env := {
  SAVE_SENT_COPY : option string;
  IMAP_HOST : option string;
  IMAP_PORT : option string;
  IMAP_SECURE : option string;
  IMAP_USER : option string;
  IMAP_PASS : option string;
  SMTP_USER : option string;
  SMTP_PASS : option string;
  IMAP_MAILBOX : option string;
  FROM_EMAIL : option string;
  NODE_ENV : option string
}.

(** A recipient field: one address or an array of them. *)
Inductive Recipients :=
| One (address : string)
| Many (addresses : list string).

(** [Array.isArray(r) ? r.join(', ') : r] *)
Definition joinRecipients (r : Recipients) : string :=
  match r with
  | One a => a
  | Many l => Js.join ", " l
  end.

(** Truthiness of a recipient field: an array is always truthy. *)
Definition recipientsTruthy (r : option Recipients) : bool :=
  match r with
  | Some (One a) => negb (a =? "")
  | Some (Many _) => true
  | None => false
  end.

Record MailOptions := {
  from : option string;
  to : option Recipients;
  cc : option Recipients;
  bcc : option Recipients;
  subject : option string;
  text : option string;
  html : option string;
  messageId : option string
}.

(** What the clock and the random generator give during one call, already
    rendered: [Date.now()] and [Math.random().toString(36)] for the message
    id, [new Date().toUTCString()], and the same two for the boundary. *)
Record Entropy := {
  idNow : string;
  idRandom : string;
  utcString : string;
  boundaryNow : string;
  boundaryRandom : string
}.

(** A template literal's rendering of a value that may be [undefined]. *)
Definition render (o : option string) : string :=
  match o with
  | Some s => s
  | None => "undefined"
  end.

Definition buildRFC822Message (mailOptions : MailOptions)
    (fromEmail : option string) (rnd : Entropy) : string :=
  let from := Js.orDefault (Js.orElse fromEmail (from mailOptions))
                "noreply@piensaajedrez.com" in
  let to := render (option_map joinRecipients (to mailOptions)) in
  let subject := Js.orDefault (subject mailOptions) "" in
  let text := Js.orDefault (text mailOptions) "" in
  let html := html mailOptions in
  let messageId :=
    Js.orDefault (messageId mailOptions)
      ("<" ++ idNow rnd ++ "." ++ idRandom rnd ++ "@piensaajedrez.com>") in
  let raw := "" in
  let raw := raw ++ "Message-ID: " ++ messageId ++ Js.CRLF in
  let raw := raw ++ "Date: " ++ utcString rnd ++ Js.CRLF in
  let raw := raw ++ "From: " ++ from ++ Js.CRLF in
  let raw := raw ++ "To: " ++ to ++ Js.CRLF in
  let raw := raw ++ "Subject: " ++ subject ++ Js.CRLF in
  let raw := raw ++ "MIME-Version: 1.0" ++ Js.CRLF in
  let raw :=
    if recipientsTruthy (cc mailOptions) then
      raw ++ "Cc: " ++ render (option_map joinRecipients (cc mailOptions))
          ++ Js.CRLF
    else raw in
  let raw :=
    if recipientsTruthy (bcc mailOptions) then
      raw ++ "Bcc: " ++ render (option_map joinRecipients (bcc mailOptions))
          ++ Js.CRLF
    else raw in
  if Js.truthy html && negb (text =? "") then
    let boundary := "boundary_" ++ boundaryNow rnd ++ "_" ++ boundaryRandom rnd in
    let raw := raw ++ "Content-Type: multipart/alternative; boundary="
                   ++ Js.DQUOTE ++ boundary ++ Js.DQUOTE
                   ++ Js.CRLF ++ Js.CRLF in
    let raw := raw ++ "--" ++ boundary ++ Js.CRLF in
    let raw := raw ++ "Content-Type: text/plain; charset=utf-8" ++ Js.CRLF in
    let raw := raw ++ "Content-Transfer-Encoding: 8bit" ++ Js.CRLF ++ Js.CRLF in
    let raw := raw ++ text ++ Js.CRLF ++ Js.CRLF in
    let raw := raw ++ "--" ++ boundary ++ Js.CRLF in
    let raw := raw ++ "Content-Type: text/html; charset=utf-8" ++ Js.CRLF in
    let raw := raw ++ "Content-Transfer-Encoding: 8bit" ++ Js.CRLF ++ Js.CRLF in
    let raw := raw ++ render html ++ Js.CRLF ++ Js.CRLF in
    raw ++ "--" ++ boundary ++ "--" ++ Js.CRLF
  else if Js.truthy html then
    let raw := raw ++ "Content-Type: text/html; charset=utf-8" ++ Js.CRLF in
    let raw := raw ++ "Content-Transfer-Encoding: 8bit" ++ Js.CRLF ++ Js.CRLF in
    raw ++ render html ++ Js.CRLF
  else
    let raw := raw ++ "Content-Type: text/plain; charset=utf-8" ++ Js.CRLF in
    let raw := raw ++ "Content-Transfer-Encoding: 8bit" ++ Js.CRLF ++ Js.CRLF in
    raw ++ text ++ Js.CRLF.

(** The header lines of the message: the value of [raw] in
    [buildRFC822Message] when the body is chosen. *)
Definition headerLines (mailOptions : MailOptions)
    (fromEmail : option string) (rnd : Entropy) : string :=
  let from := Js.orDefault (Js.orElse fromEmail (from mailOptions))
                "noreply@piensaajedrez.com" in
  let to := render (option_map joinRecipients (to mailOptions)) in
  let subject := Js.orDefault (subject mailOptions) "" in
  let messageId :=
    Js.orDefault (messageId mailOptions)
      ("<" ++ idNow rnd ++ "." ++ idRandom rnd ++ "@piensaajedrez.com>") in
  let raw := "" in
  let raw := raw ++ "Message-ID: " ++ messageId ++ Js.CRLF in
  let raw := raw ++ "Date: " ++ utcString rnd ++ Js.CRLF in
  let raw := raw ++ "From: " ++ from ++ Js.CRLF in
  let raw := raw ++ "To: " ++ to ++ Js.CRLF in
  let raw := raw ++ "Subject: " ++ subject ++ Js.CRLF in
  let raw := raw ++ "MIME-Version: 1.0" ++ Js.CRLF in
  let raw :=
    if recipientsTruthy (cc mailOptions) then
      raw ++ "Cc: " ++ render (option_map joinRecipients (cc mailOptions))
          ++ Js.CRLF
    else raw in
  if recipientsTruthy (bcc mailOptions) then
    raw ++ "Bcc: " ++ render (option_map joinRecipients (bcc mailOptions))
        ++ Js.CRLF
  else raw.

(* ================================================================= *)
(** ** The IMAP client and the effects of the code *)

(** What an awaited call gives: a value, or a thrown [Error]. *)
Inductive result (A : Type) :=
| Ok (a : A)
| Throw (e : Js.Error).
Arguments Ok {A} a.
Arguments Throw {A} e.

(** [xs.find(p)] for a predicate that may throw: the entries are tried in
    order, and what the predicate throws on one of them ends the search. *)
Fixpoint findWith {A} (p : A -> result bool) (xs : list A)
  : result (option A) :=
  match xs with
  | [] => Ok None
  | x :: rest =>
      match p x with
      | Ok true => Ok (Some x)
      | Ok false => findWith p rest
      | Throw e => Throw e
      end
  end.

(** [xs.forEach(f)] for a callback that may throw, as far as its throwing
    goes: the results of the calls made, or what the first failing call
    throws. *)
Fixpoint forEach {A B} (f : A -> result B) (xs : list A) : result (list B) :=
  match xs with
  | [] => Ok []
  | x :: rest =>
      match f x with
      | Ok b =>
          match forEach f rest with
          | Ok bs => Ok (b :: bs)
          | Throw e => Throw e
          end
      | Throw e => Throw e
      end
  end.

(** The [flags] of a listing entry.  imapflow reports a [Set] of strings;
    the code calls [includes] and [join] on the value, which an array has
    and a [Set] has not; the field may also be missing. *)
Inductive Flags :=
| FlagsUndefined
| FlagsArray (names : list string)
| FlagsSet (names : list string).

(** An entry of a folder listing; of the fields imapflow reports, the ones
    the code reads. *)
Record Mailbox := {
  path : string;
  flags : Flags;
  specialUse : option string
}.

(** A mailbox lock: [lock.path] and [lock.release()]. *)
Record Lock := { lock_path : string }.

(** The options given to [new ImapFlow]; [port] is the text the code
    hands to [Number]. *)
Record Config := {
  host : string;
  port : string;
  secure : bool;
  user : string;
  pass : string
}.

(** The outcome of a discovery run. *)
Record ResolutionResult := {
  sentPath : string;
  delimiter : string;
  created : bool
}.

(** The client methods the code calls, each as a transition of the server
    (with the session) from one state to the next.  [listSpecialUse] is
    [client.list({specialUse: true})] and [listAll] is [client.list('*')];
    [mailboxCreate] takes the path and the special use asked for, [append]
    the path, the message and the flags (the date [appendToSent] adds is
    left out), [search] the subject looked for. *)
Record Client (S : Type) := {
  connect : Config -> S -> result unit * S;
  getMailboxLock : string -> S -> result Lock * S;
  release : Lock -> S -> result unit * S;
  listSpecialUse : S -> result (list Mailbox) * S;
  listAll : S -> result (list Mailbox) * S;
  mailboxCreate : string -> string -> S -> result unit * S;
  append : string -> string -> list string -> S -> result unit * S;
  search : string -> S -> result (list N) * S;
  messageFlagsAdd : list N -> list string -> S -> result unit * S;
  expunge : S -> result unit * S;
  logout : S -> result unit * S
}.

(** A call made to the client, with its arguments and its outcome. *)
Inductive Event :=
| EvConnect (cfg : Config) (r : result unit)
| EvGetMailboxLock (path : string) (r : result Lock)
| EvRelease (l : Lock) (r : result unit)
| EvListSpecialUse (r : result (list Mailbox))
| EvList (r : result (list Mailbox))
| EvMailboxCreate (path specialUse : string) (r : result unit)
| EvAppend (path content : string) (flags : list string) (r : result unit)
| EvSearch (subject : string) (r : result (list N))
| EvMessageFlagsAdd (uids : list N) (flags : list string) (r : result unit)
| EvExpunge (r : result unit)
| EvLogout (r : result unit).

(** Console and logger output, where the code reports a failure it caught
    or a step it skipped (progress messages are left out). *)
Inductive LogLine :=
| LInboxLockFailed (message : string)
| LSpecialUseFailed (message : string)
| LCreateFailed (path message : string)
| LCleanupFailed (message : string)
| LProbeAppendFailed (message : string)
| LFatal (message : string)
| LDisabled
| LNoCredentials
| LInvalidRaw
| LMailboxFailed (mailbox message : string)
| LFallbackFailed (fallback message : string)
| LAppendError (message : string)
| LLogoutError (message : string)
| LBackgroundAppendFailed (message : string).

Section Effects.

Variable S : Type.
Variable client : Client S.

(** The variables of [findOrCreateSentBox] that are assigned in one block
    and read in another: [lock], [sent] and [created]. *)
Record Locals := {
  lockVar : option Lock;
  sentVar : option Mailbox;
  createdVar : bool
}.

(** The state a run threads: the server and the variables. *)
Record St := { server : S; locals : Locals }.

(** What a run leaves: its outcome, the state, the calls it made and the
    lines it logged, both in order. *)
Record Out (A : Type) := mkOut {
  res : result A;
  state : St;
  trace : list Event;
  log : list LogLine
}.

Definition M (A : Type) : Type := St -> Out A.

Definition ret {A} (a : A) : M A := fun s => mkOut (Ok a) s [] [].

Definition throw {A} (e : Js.Error) : M A := fun s => mkOut (Throw e) s [] [].

Definition bind {A B} (m : M A) (k : A -> M B) : M B := fun s =>
  match m s with
  | mkOut (Ok a) s1 tr lg =>
      match k a s1 with
      | mkOut r s2 tr' lg' => mkOut r s2 (tr ++ tr') (lg ++ lg')
      end
  | mkOut (Throw e) s1 tr lg => mkOut (Throw e) s1 tr lg
  end.

(** [try { m } catch (e) { h e }] *)
Definition tryCatch {A} (m : M A) (h : Js.Error -> M A) : M A := fun s =>
  match m s with
  | mkOut (Ok a) s1 tr lg => mkOut (Ok a) s1 tr lg
  | mkOut (Throw e) s1 tr lg =>
      match h e s1 with
      | mkOut r s2 tr' lg' => mkOut r s2 (tr ++ tr') (lg ++ lg')
      end
  end.

(** [try { m } finally { f }]: [f] always runs, and what it throws
    replaces the outcome of [m]. *)
Definition tryFinally {A} (m : M A) (f : M unit) : M A := fun s =>
  match m s with
  | mkOut r s1 tr lg =>
      match f s1 with
      | mkOut (Ok _) s2 tr' lg' => mkOut r s2 (tr ++ tr') (lg ++ lg')
      | mkOut (Throw e) s2 tr' lg' =>
          mkOut (Throw e) s2 (tr ++ tr') (lg ++ lg')
      end
  end.

(** A computation that makes no call: its value, or what it throws. *)
Definition lift {A} (r : result A) : M A := fun s => mkOut r s [] [].

Definition say (l : LogLine) : M unit := fun s => mkOut (Ok tt) s [] [l].

Definition getLock : M (option Lock) := fun s =>
  mkOut (Ok (lockVar (locals s))) s [] [].

Definition setLock (l : option Lock) : M unit := fun s =>
  mkOut (Ok tt)
    {| server := server s;
       locals := {| lockVar := l;
                    sentVar := sentVar (locals s);
                    createdVar := createdVar (locals s) |} |} [] [].

Definition getSent : M (option Mailbox) := fun s =>
  mkOut (Ok (sentVar (locals s))) s [] [].

Definition setSent (mb : option Mailbox) : M unit := fun s =>
  mkOut (Ok tt)
    {| server := server s;
       locals := {| lockVar := lockVar (locals s);
                    sentVar := mb;
                    createdVar := createdVar (locals s) |} |} [] [].

Definition getCreated : M bool := fun s =>
  mkOut (Ok (createdVar (locals s))) s [] [].

Definition setCreated (b : bool) : M unit := fun s =>
  mkOut (Ok tt)
    {| server := server s;
       locals := {| lockVar := lockVar (locals s);
                    sentVar := sentVar (locals s);
                    createdVar := b |} |} [] [].

(** A call to the client: the server moves, and the call is recorded. *)
Definition call {A} (op : S -> result A * S) (ev : result A -> Event) : M A :=
  fun s =>
    let r := op (server s) in
    mkOut (fst r) {| server := snd r; locals := locals s |} [ev (fst r)] [].

End Effects.

Arguments ret {S A} a.
Arguments throw {S A} e.
Arguments lift {S A} r.
Arguments say {S} l.
Arguments getLock {S}.
Arguments setLock {S} l.
Arguments getSent {S}.
Arguments setSent {S} mb.
Arguments getCreated {S}.
Arguments setCreated {S} b.

Declare Scope imap_scope.
Delimit Scope imap_scope with imap.
Notation "x <- m ;; k" := (bind m (fun x => k))
  (at level 61, m at next level, right associativity) : imap_scope.
Notation "m ;; k" := (bind m (fun _ => k))
  (at level 61, right associativity) : imap_scope.
Open Scope imap_scope.

(* ================================================================= *)
(** ** src/sentbox.js: discovery of the Sent folder *)

(** The predicate of [special.find]: the [\Sent] flag or the [\Sent]
    special-use attribute,
    [(mb.flags && mb.flags.includes('\\Sent')) ||
     (mb.specialUse && mb.specialUse === '\\Sent')].
    Flags that are a [Set] are truthy and have no [includes]: the call
    throws a TypeError. *)
Definition isSent (mb : Mailbox) : result bool :=
  let bySpecialUse :=
    match specialUse mb with
    | Some su => negb (su =? "") && (su =? "\Sent")
    | None => false
    end in
  match flags mb with
  | FlagsUndefined => Ok bySpecialUse
  | FlagsArray fl => Ok (Js.arrayIncludes fl "\Sent" || bySpecialUse)
  | FlagsSet _ => Throw (Js.mkError "mb.flags.includes is not a function")
  end.

(** The text of the flags in the line logged for each listed folder,
    [mb.flags ? mb.flags.join(', ') : 'none'].  A [Set] has no [join]:
    the call throws a TypeError. *)
Definition flagsText (mb : Mailbox) : result string :=
  match flags mb with
  | FlagsUndefined => Ok "none"
  | FlagsArray fl => Ok (Js.join ", " fl)
  | FlagsSet _ => Throw (Js.mkError "mb.flags.join is not a function")
  end.

(** The loop over [all] that looks for the first path with a separator. *)
Fixpoint detectDelimiter (all : list Mailbox) : string :=
  match all with
  | [] => "/"
  | mb :: rest =>
      if Js.includes (path mb) "/" then "/"
      else if Js.includes (path mb) "." then "."
      else detectDelimiter rest
  end.

Definition candidates (delimiter : string) : list string :=
  [ "Sent"; "Sent Items"; "Sent Messages";
    "INBOX" ++ delimiter ++ "Sent"; "INBOX" ++ delimiter ++ "Sent Items";
    "Enviados"; "Elementos enviados";
    "Gesendet"; "Gesendete Elemente";
    "Envoyés"; "Éléments envoyés" ].

(** [new Map(all.map(mb => [mb.path.toLowerCase(), mb]))] as an association
    list in insertion order; [mapGet] gives the entry set last for a key,
    as [Map.prototype.get] does when a key was set more than once. *)
Definition byPathOf (all : list Mailbox) : list (string * Mailbox) :=
  map (fun mb => (Js.toLowerCase (path mb), mb)) all.

Definition mapGet (m : list (string * Mailbox)) (k : string) : option Mailbox :=
  option_map snd (List.find (fun kv => fst kv =? k) (rev m)).

Definition mapHas (m : list (string * Mailbox)) (k : string) : bool :=
  existsb (fun kv => fst kv =? k) m.

(** The search by exact names among the folders the server listed. *)
Definition matchByName (all : list Mailbox) (delimiter : string)
  : option Mailbox :=
  let byPath := byPathOf all in
  match Js.find (fun c => mapHas byPath (Js.toLowerCase c))
          (candidates delimiter) with
  | Some hit => mapGet byPath (Js.toLowerCase hit)
  | None => None
  end.

Definition tryPaths (delimiter : string) : list string :=
  [ "INBOX" ++ delimiter ++ "Sent";
    "INBOX" ++ delimiter ++ "Sent Items";
    "Sent" ].

Definition probeFlags : list string := ["\Seen"; "\Deleted"].

(** [/TRYCREATE/i.test(msg)].  Without the [u] flag a character outside
    ASCII matches no ASCII letter of a pattern, and the two characters
    outside ASCII that [toLowerCase] takes into ASCII (U+0130 to i,
    U+212A to k) give no letter of this pattern; so the test is a
    substring test on the lowercased message. *)
Definition testTryCreate (msg : string) : bool :=
  Js.includes (Js.toLowerCase msg) "trycreate".

Definition testMessage (user utc : string) : string :=
  "From: test@piensaajedrez.com" ++ Js.CRLF ++
  "To: " ++ user ++ Js.CRLF ++
  "Subject: IMAP Discovery Probe - Safe to Delete" ++ Js.CRLF ++
  "Date: " ++ utc ++ Js.CRLF ++
  Js.CRLF ++
  "This is a test message for IMAP discovery. Safe to delete." ++ Js.CRLF.

Section SentBox.

Variable S : Type.
Variable client : Client S.

Local Abbreviation M := (M S).

Definition doConnect (cfg : Config) : M unit :=
  call (connect client cfg) (EvConnect cfg).
Definition doGetMailboxLock (p : string) : M Lock :=
  call (getMailboxLock client p) (EvGetMailboxLock p).
Definition doRelease (l : Lock) : M unit :=
  call (release client l) (EvRelease l).
Definition doListSpecialUse : M (list Mailbox) :=
  call (listSpecialUse client) EvListSpecialUse.
Definition doList : M (list Mailbox) :=
  call (listAll client) EvList.
Definition doMailboxCreate (p su : string) : M unit :=
  call (mailboxCreate client p su) (EvMailboxCreate p su).
Definition doAppend (p content : string) (fl : list string) : M unit :=
  call (append client p content fl) (EvAppend p content fl).
Definition doSearch (subject : string) : M (list N) :=
  call (search client subject) (EvSearch subject).
Definition doMessageFlagsAdd (uids : list N) (fl : list string) : M unit :=
  call (messageFlagsAdd client uids fl) (EvMessageFlagsAdd uids fl).
Definition doExpunge : M unit :=
  call (expunge client) EvExpunge.
Definition doLogout : M unit :=
  call (logout client) EvLogout.

(** Step 1: lock INBOX and release it at once; a failed lock is logged. *)
Definition lockInbox : M unit :=
  tryCatch (l <- doGetMailboxLock "INBOX" ;; setLock (Some l))
           (fun e => say (LInboxLockFailed (Js.message e))) ;;
  lock <- getLock ;;
  match lock with
  | Some l => doRelease l ;; setLock None
  | None => ret tt
  end.

(** Step 2: the folders with a special use; a failed listing is logged and
    leaves [special] empty. *)
Definition listSpecial : M (list Mailbox) :=
  tryCatch doListSpecialUse
           (fun e => say (LSpecialUseFailed (Js.message e)) ;; ret []).

(** Step 4, the loop over [tryPaths]; [break] leaves it once [sent] is
    set. *)
Fixpoint createLoop (paths : list string) : M unit :=
  match paths with
  | [] => ret tt
  | p :: rest =>
      tryCatch
        (doMailboxCreate p "\Sent" ;;
         setCreated true ;;
         refreshed <- doList ;;
         setSent (Js.find (fun mb => path mb =? p) refreshed))
        (fun e => say (LCreateFailed p (Js.message e))) ;;
      sent <- getSent ;;
      match sent with
      | Some _ => ret tt
      | None => createLoop rest
      end
  end.

(** Step 5: the probe append, its cleanup, and the TRYCREATE recovery. *)
Definition probe (user utc sentPath : string) : M unit :=
  let testMessage := testMessage user utc in
  tryCatch
    (doAppend sentPath testMessage probeFlags ;;
     tryCatch
       (cleanLock <- doGetMailboxLock sentPath ;;
        tryFinally
          (messages <- doSearch "IMAP Discovery Probe" ;;
           if (0 <? length messages)%nat then
             doMessageFlagsAdd messages ["\Deleted"] ;;
             doExpunge
           else ret tt)
          (doRelease cleanLock))
       (fun cleanupError => say (LCleanupFailed (Js.message cleanupError))))
    (fun e =>
       let msg := Js.describe e in
       say (LProbeAppendFailed msg) ;;
       if testTryCreate msg then
         tryCatch
           (doMailboxCreate sentPath "\Sent" ;;
            doAppend sentPath testMessage probeFlags)
           (fun e2 =>
              doLogout ;;
              throw (Js.mkError
                ("APPEND falló incluso tras TRYCREATE: " ++ Js.message e2)))
       else
         doLogout ;;
         throw (Js.mkError ("APPEND falló: " ++ msg))).

(** [sent.path], which throws when [sent] is undefined. *)
Definition pathOf (sent : option Mailbox) : M string :=
  match sent with
  | Some mb => ret (path mb)
  | None =>
      throw (Js.mkError
        "Cannot read properties of undefined (reading 'path')")
  end.

(** The body of the outer [try], after the connection is made. *)
Definition discover (user utc : string) : M ResolutionResult :=
  lockInbox ;;
  special <- listSpecial ;;
  found <- lift (findWith isSent special) ;;
  setSent found ;;
  all <- doList ;;
  lift (forEach flagsText all) ;;
  let delimiter := detectDelimiter all in
  sent <- getSent ;;
  match sent with
  | None => setSent (matchByName all delimiter)
  | Some _ => ret tt
  end ;;
  setCreated false ;;
  sent <- getSent ;;
  match sent with
  | None =>
      createLoop (tryPaths delimiter) ;;
      sent <- getSent ;;
      match sent with
      | None =>
          throw (Js.mkError
            "No pude crear ni encontrar carpeta de enviados después de todos los intentos")
      | Some _ => ret tt
      end
  | Some _ => ret tt
  end ;;
  sent <- getSent ;;
  sentPath <- pathOf sent ;;
  probe user utc sentPath ;;
  doLogout ;;
  created <- getCreated ;;
  ret {| sentPath := sentPath; delimiter := delimiter; created := created |}.

(** The outer [catch]: release a lock still held, log out, rethrow; the
    failures of both are swallowed. *)
Definition cleanup {A} (error : Js.Error) : M A :=
  lock <- getLock ;;
  match lock with
  | Some l => tryCatch (doRelease l) (fun _ => ret tt)
  | None => ret tt
  end ;;
  tryCatch doLogout (fun _ => ret tt) ;;
  say (LFatal (Js.message error)) ;;
  throw error.

Definition imapConfig (env : Env) (user pass : string) : Config :=
  {| host := Js.orDefault (IMAP_HOST env) "imap.ionos.com";
     port := Js.orDefault (IMAP_PORT env) "993";
     secure := Js.orDefault (IMAP_SECURE env) "true" =? "true";
     user := user;
     pass := pass |}.

(** [utc] is what [new Date().toUTCString()] gives for the probe. *)
Definition findOrCreateSentBox (env : Env) (utc : string)
  : M ResolutionResult :=
  let user := Js.orElse (IMAP_USER env) (SMTP_USER env) in
  let pass := Js.orElse (IMAP_PASS env) (SMTP_PASS env) in
  if negb (Js.truthy user) || negb (Js.truthy pass) then
    throw (Js.mkError
      "IMAP credentials missing (IMAP_USER/IMAP_PASS or SMTP_USER/SMTP_PASS)")
  else
    let user := render user in
    let pass := render pass in
    doConnect (imapConfig env user pass) ;;
    setLock None ;;
    tryCatch (discover user utc) cleanup.

End SentBox.

(* ================================================================= *)
(** ** src/imap.js: the Sent-copy appender *)

Definition fallbackMailboxes : list string :=
  ["Enviados"; "Sent"; "Sent Items"; "INBOX.Sent"].

Section Appender.

Variable S : Type.
Variable client : Client S.

Local Abbreviation M := (M S).

(** The loop over [fallbackMailboxes]: the first name that locks. *)
Fixpoint fallbackLoop (names : list string) : M (option Lock) :=
  match names with
  | [] => ret None
  | fallback :: rest =>
      r <- tryCatch
             (l <- doGetMailboxLock client fallback ;; ret (Some l))
             (fun fallbackError =>
                say (LFallbackFailed fallback (Js.message fallbackError)) ;;
                ret None) ;;
      match r with
      | Some l => ret (Some l)
      | None => fallbackLoop rest
      end
  end.

(** The lock on the configured mailbox, or on the first fallback. *)
Definition openMailbox (mailbox : string) : M Lock :=
  tryCatch
    (doGetMailboxLock client mailbox)
    (fun mailboxError =>
       say (LMailboxFailed mailbox (Js.message mailboxError)) ;;
       lock <- fallbackLoop fallbackMailboxes ;;
       match lock with
       | Some l => ret l
       | None =>
           throw (Js.mkError
             ("No se pudo acceder a ningún buzón de enviados (" ++ mailbox
              ++ ", " ++ Js.join ", " fallbackMailboxes ++ ")"))
       end).

Definition appendToSent (env : Env) (raw : Js.value) : M unit :=
  if negb (Js.strictEq (SAVE_SENT_COPY env) "true") then say LDisabled
  else
    let user := Js.orElse (IMAP_USER env) (SMTP_USER env) in
    let pass := Js.orElse (IMAP_PASS env) (SMTP_PASS env) in
    let mailbox := Js.orDefault (IMAP_MAILBOX env) "Sent" in
    if negb (Js.truthy user) || negb (Js.truthy pass) then say LNoCredentials
    else
      if negb (Js.toBoolean raw) || negb (Js.typeof raw =? "string")
      then say LInvalidRaw
      else
        let content := match raw with Js.VString s => s | _ => "" end in
        tryFinally
          (tryCatch
             (doConnect client (imapConfig env (render user) (render pass)) ;;
              lock <- openMailbox mailbox ;;
              tryFinally
                (doAppend client (lock_path lock) content ["\Seen"])
                (doRelease client lock))
             (fun error => say (LAppendError (Js.message error))))
          (tryCatch
             (doLogout client)
             (fun logoutError => say (LLogoutError (Js.message logoutError)))).

End Appender.

(* ================================================================= *)
(** ** server.js: the handler of POST /send *)

(** What [transporter.sendMail] resolves to, as far as the handler reads
    it. *)
Record SendInfo := {
  info_messageId : string;
  accepted : list string;
  rejected : list string
}.

(** The JSON body of a response. *)
Inductive ResponseBody (Details : Type) :=
| BodySent (messageId : string) (accepted rejected : list string)
| BodyInvalid (error : string) (details : Details)
| BodyFailed (error : string) (details : option string).

Arguments BodySent {Details} messageId accepted rejected.
Arguments BodyInvalid {Details} error details.
Arguments BodyFailed {Details} error details.

Record Response (Details : Type) := {
  code : Z;
  body : ResponseBody Details
}.

Section SendHandler.

(** The parts of the handler that live outside the files at hand: the
    request body and [validateSendEmail] (src/validate), and the SMTP
    transport of nodemailer. *)
Variable RequestBody Details Attachment : Type.

(** The fields of [validation.data]. *)
Record SendData := {
  data_to : option Recipients;
  data_subject : option string;
  data_text : option string;
  data_html : option string;
  data_attachments : option (list Attachment)
}.

(** [validation.success] with [validation.data] or [validation.error]. *)
Inductive Validation :=
| Valid (data : SendData)
| Invalid (error : Details).

Variable validateSendEmail : RequestBody -> Validation.
Variable sendMail : MailOptions -> option (list Attachment) -> result SendInfo.

Variable S : Type.
Variable client : Client S.

(** The [mailOptions] object the handler builds from [validation.data]. *)
Definition mailOptionsOf (env : Env) (data : SendData) : MailOptions :=
  {| from := FROM_EMAIL env;
     to := data_to data;
     cc := None;
     bcc := None;
     subject := data_subject data;
     text := data_text data;
     html := data_html data;
     messageId := None |}.

(** The handler gives the response and, when the append was launched, the
    run of the append that goes on in the background: [appendToSent] is
    called without [await], and its outcome reaches only the [catch]
    callback, which logs. *)
Definition postSend (env : Env) (rnd : Entropy) (reqBody : RequestBody)
    (s : St S) : Response Details * option (Out S unit) :=
  match validateSendEmail reqBody with
  | Invalid error =>
      ({| code := 422;
          body := BodyInvalid "Datos de entrada inválidos" error |}, None)
  | Valid data =>
      let mailOptions := mailOptionsOf env data in
      match sendMail mailOptions (data_attachments data) with
      | Ok info =>
          let background :=
            if Js.strictEq (SAVE_SENT_COPY env) "true" then
              let raw := buildRFC822Message mailOptions (FROM_EMAIL env) rnd in
              Some (tryCatch (appendToSent client env (Js.VString raw))
                      (fun err =>
                         say (LBackgroundAppendFailed (Js.message err))) s)
            else None in
          ({| code := 200;
              body := BodySent (info_messageId info)
                        (accepted info) (rejected info) |}, background)
      | Throw error =>
          let mappedError := mapSmtpError error in
          ({| code := status mappedError;
              body := BodyFailed (mapped_message mappedError)
                        (if Js.strictEq (NODE_ENV env) "development"
                         then Some (Js.message error) else None) |}, None)
      end
  end.

End SendHandler.

Arguments Valid {Details Attachment} data.
Arguments Invalid {Details Attachment} error.

(* ================================================================= *)
(** ** Reading a trace *)

(** The paths of the [mailboxCreate] calls, in order. *)
Definition creations (tr : list Event) : list string :=
  flat_map (fun e => match e with
                     | EvMailboxCreate p _ _ => [p]
                     | _ => []
                     end) tr.

(** The outcomes of the [mailboxCreate] calls, in order. *)
Definition creationOutcomes (tr : list Event) : list (result unit) :=
  flat_map (fun e => match e with
                     | EvMailboxCreate _ _ r => [r]
                     | _ => []
                     end) tr.

(** The outcomes of the [logout] calls, in order. *)
Definition logouts (tr : list Event) : list (result unit) :=
  flat_map (fun e => match e with
                     | EvLogout r => [r]
                     | _ => []
                     end) tr.

(** The outcomes of the [append] calls, in order. *)
Definition appends (tr : list Event) : list (result unit) :=
  flat_map (fun e => match e with
                     | EvAppend _ _ _ r => [r]
                     | _ => []
                     end) tr.

(** The answer to the first [list({specialUse: true})] of a run. *)
Fixpoint specialListing (tr : list Event) : option (result (list Mailbox)) :=
  match tr with
  | [] => None
  | EvListSpecialUse r :: _ => Some r
  | _ :: rest => specialListing rest
  end.

(** The answer to the first [list('*')] of a run, and the calls after it. *)
Fixpoint firstList (tr : list Event) : option (result (list Mailbox)) :=
  match tr with
  | [] => None
  | EvList r :: _ => Some r
  | _ :: rest => firstList rest
  end.

Fixpoint afterFirstList (tr : list Event) : list Event :=
  match tr with
  | [] => []
  | EvList _ :: rest => rest
  | _ :: rest => afterFirstList rest
  end.

(** The Sent folder a special-use listing designates, if any, or what the
    search for it throws; a listing that failed leaves nothing to search. *)
Definition designated (r : result (list Mailbox))
  : result (option Mailbox) :=
  match r with
  | Ok special => findWith isSent special
  | Throw _ => Ok None
  end.

(** The shape of the calls of the creation loop over [paths], and the
    entry it captures: each path is tried in order; a creation that fails
    moves on; after a creation that succeeds the folders are listed again,
    and the loop stops as soon as the listing has the path just created. *)
Inductive LoopShape : list string -> list Event -> option Mailbox -> Prop :=
| LoopDone : LoopShape [] [] None
| LoopCreateFailed p rest e tr out :
    LoopShape rest tr out ->
    LoopShape (p :: rest) (EvMailboxCreate p "\Sent" (Throw e) :: tr) out
| LoopRelistFailed p rest e tr out :
    LoopShape rest tr out ->
    LoopShape (p :: rest)
      (EvMailboxCreate p "\Sent" (Ok tt) :: EvList (Throw e) :: tr) out
| LoopNotListed p rest refreshed tr out :
    Js.find (fun mb => path mb =? p) refreshed = None ->
    LoopShape rest tr out ->
    LoopShape (p :: rest)
      (EvMailboxCreate p "\Sent" (Ok tt) :: EvList (Ok refreshed) :: tr) out
| LoopCaptured p rest refreshed mb :
    Js.find (fun mb => path mb =? p) refreshed = Some mb ->
    LoopShape (p :: rest)
      [EvMailboxCreate p "\Sent" (Ok tt); EvList (Ok refreshed)] (Some mb).

(** A call that threw. *)
Definition failed (e : Event) : bool :=
  match e with
  | EvConnect _ (Throw _) | EvGetMailboxLock _ (Throw _)
  | EvRelease _ (Throw _) | EvListSpecialUse (Throw _) | EvList (Throw _)
  | EvMailboxCreate _ _ (Throw _) | EvAppend _ _ _ (Throw _)
  | EvSearch _ (Throw _) | EvMessageFlagsAdd _ _ (Throw _)
  | EvExpunge (Throw _) | EvLogout (Throw _) => true
  | _ => false
  end.

Definition succeeded {A} (r : result A) : bool :=
  match r with
  | Ok _ => true
  | Throw _ => false
  end.

(** The calls of the probe's cleanup: lock, search, flag, expunge,
    release. *)
Definition isCleanupCall (e : Event) : bool :=
  match e with
  | EvGetMailboxLock _ _ | EvSearch _ _ | EvMessageFlagsAdd _ _ _
  | EvExpunge _ | EvRelease _ _ => true
  | _ => false
  end.

(** What is thrown after a [logout] that was awaited on the way to a
    [throw]: the error meant, or the one of the logout. *)
Definition thrownAfter (logoutOutcome : result unit) (meant : Js.Error)
  : Js.Error :=
  match logoutOutcome with
  | Ok _ => meant
  | Throw e => e
  end.

(** The runs of the probe on [p] with the message [msg]: their calls and
    their outcome. *)
Inductive ProbeRun (p msg : string) : list Event -> result unit -> Prop :=
| ProbeAccepted cleanupCalls :
    forallb isCleanupCall cleanupCalls = true ->
    ProbeRun p msg (EvAppend p msg probeFlags (Ok tt) :: cleanupCalls) (Ok tt)
| ProbeRefused e r :
    testTryCreate (Js.describe e) = false ->
    ProbeRun p msg
      [EvAppend p msg probeFlags (Throw e); EvLogout r]
      (Throw (thrownAfter r (Js.mkError ("APPEND falló: " ++ Js.describe e))))
| ProbeRecovered e :
    testTryCreate (Js.describe e) = true ->
    ProbeRun p msg
      [EvAppend p msg probeFlags (Throw e);
       EvMailboxCreate p "\Sent" (Ok tt);
       EvAppend p msg probeFlags (Ok tt)]
      (Ok tt)
| ProbeCreateFailed e e2 r :
    testTryCreate (Js.describe e) = true ->
    ProbeRun p msg
      [EvAppend p msg probeFlags (Throw e);
       EvMailboxCreate p "\Sent" (Throw e2);
       EvLogout r]
      (Throw (thrownAfter r (Js.mkError
         ("APPEND falló incluso tras TRYCREATE: " ++ Js.message e2))))
| ProbeRetryFailed e e2 r :
    testTryCreate (Js.describe e) = true ->
    ProbeRun p msg
      [EvAppend p msg probeFlags (Throw e);
       EvMailboxCreate p "\Sent" (Ok tt);
       EvAppend p msg probeFlags (Throw e2);
       EvLogout r]
      (Throw (thrownAfter r (Js.mkError
         ("APPEND falló incluso tras TRYCREATE: " ++ Js.message e2)))).

(** The runs from the probe to the end, for the folder [mb] selected with
    the delimiter [d] and the flag [created]: the probe, then the logout
    of the success path or the one of the outer [catch]. *)
Inductive ValidateRun (mb : Mailbox) (d : string) (created : bool)
    (msg : string) : list Event -> result ResolutionResult -> Prop :=
| ValidateReturned tr :
    ProbeRun (path mb) msg tr (Ok tt) ->
    ValidateRun mb d created msg (tr ++ [EvLogout (Ok tt)])
      (Ok {| sentPath := path mb; delimiter := d; created := created |})
| ValidateLogoutFailed tr e r :
    ProbeRun (path mb) msg tr (Ok tt) ->
    ValidateRun mb d created msg (tr ++ [EvLogout (Throw e); EvLogout r])
      (Throw e)
| ValidateProbeFailed tr e r :
    ProbeRun (path mb) msg tr (Throw e) ->
    ValidateRun mb d created msg (tr ++ [EvLogout r]) (Throw e).

Definition noSentFolderError : Js.Error :=
  Js.mkError
    "No pude crear ni encontrar carpeta de enviados después de todos los intentos".

(** The runs from the special-use listing to the end.  Reading the flags
    of a listed folder can throw, in the search of the special-use listing
    and in the lines logged for the full listing; the run then ends in the
    outer [catch], with the logout as its only other call. *)
Inductive SelectRun (msg : string)
  : list Event -> result ResolutionResult -> Prop :=
| SelectSearchThrows rs e r :
    designated rs = Throw e ->
    SelectRun msg [EvListSpecialUse rs; EvLogout r] (Throw e)
| SelectListFailed rs found e r :
    designated rs = Ok found ->
    SelectRun msg [EvListSpecialUse rs; EvList (Throw e); EvLogout r] (Throw e)
| SelectLogThrows rs found all e r :
    designated rs = Ok found ->
    forEach flagsText all = Throw e ->
    SelectRun msg [EvListSpecialUse rs; EvList (Ok all); EvLogout r] (Throw e)
| SelectSpecialUse rs all texts mb tr out :
    designated rs = Ok (Some mb) ->
    forEach flagsText all = Ok texts ->
    ValidateRun mb (detectDelimiter all) false msg tr out ->
    SelectRun msg (EvListSpecialUse rs :: EvList (Ok all) :: tr) out
| SelectByName rs all texts mb tr out :
    designated rs = Ok None ->
    forEach flagsText all = Ok texts ->
    matchByName all (detectDelimiter all) = Some mb ->
    ValidateRun mb (detectDelimiter all) false msg tr out ->
    SelectRun msg (EvListSpecialUse rs :: EvList (Ok all) :: tr) out
| SelectNotCreated rs all texts loopCalls r :
    designated rs = Ok None ->
    forEach flagsText all = Ok texts ->
    matchByName all (detectDelimiter all) = None ->
    LoopShape (tryPaths (detectDelimiter all)) loopCalls None ->
    SelectRun msg
      (EvListSpecialUse rs :: EvList (Ok all) :: loopCalls ++ [EvLogout r])
      (Throw noSentFolderError)
| SelectCreated rs all texts loopCalls mb tr out :
    designated rs = Ok None ->
    forEach flagsText all = Ok texts ->
    matchByName all (detectDelimiter all) = None ->
    LoopShape (tryPaths (detectDelimiter all)) loopCalls (Some mb) ->
    ValidateRun mb (detectDelimiter all) true msg tr out ->
    SelectRun msg
      (EvListSpecialUse rs :: EvList (Ok all) :: loopCalls ++ tr) out.

(** Step 1 when it lets the run go on: the INBOX lock fails, or it is
    taken and released. *)
Inductive InboxCalls : list Event -> Prop :=
| InboxLockFailed e : InboxCalls [EvGetMailboxLock "INBOX" (Throw e)]
| InboxReleased l :
    InboxCalls [EvGetMailboxLock "INBOX" (Ok l); EvRelease l (Ok tt)].

Definition credentialsError : Js.Error :=
  Js.mkError
    "IMAP credentials missing (IMAP_USER/IMAP_PASS or SMTP_USER/SMTP_PASS)".

(** The runs of [findOrCreateSentBox]. *)
Inductive Run (cfg : Config) (msg : string)
  : list Event -> result ResolutionResult -> Prop :=
| RunNoCredentials : Run cfg msg [] (Throw credentialsError)
| RunConnectFailed e : Run cfg msg [EvConnect cfg (Throw e)] (Throw e)
| RunReleaseFailed l e r r' :
    Run cfg msg
      [EvConnect cfg (Ok tt); EvGetMailboxLock "INBOX" (Ok l);
       EvRelease l (Throw e); EvRelease l r; EvLogout r']
      (Throw e)
| RunSelect inboxCalls tr out :
    InboxCalls inboxCalls ->
    SelectRun msg tr out ->
    Run cfg msg (EvConnect cfg (Ok tt) :: inboxCalls ++ tr) out.

(* ================================================================= *)
(** ** scripts/imap-check.js: the discovery from the command line *)

(** What the script leaves: the exit code, and the labelled values it
    prints on success or on failure (the banners, the hints and the stack
    trace are left out). *)
Record CheckReport := {
  exitCode : Z;
  printed : list (string * string)
}.

Section ImapCheck.

Variable S : Type.
Variable client : Client S.

Definition imapCheck (env : Env) (utc : string) (s : St S)
  : CheckReport * Out S ResolutionResult :=
  let o := findOrCreateSentBox client env utc s in
  (match res o with
   | Ok result =>
       {| exitCode := 0;
          printed :=
            [("📁 Path final:", sentPath result);
             ("🔗 Delimitador:", delimiter result);
             ("🆕 Creada:", if created result then "SÍ" else "NO (ya existía)")] |}
   | Throw error =>
       {| exitCode := 1;
          printed := [("Mensaje:", Js.message error)] |}
   end, o).

End ImapCheck.

(* ================================================================= *)
(** ** The discipline of a session, read on a trace *)

(** Mailbox locks.  A lock is taken only when none is held; a release is
    called only on the lock held (or on the one whose release just
    failed); the session is not logged out while a lock is held and no
    release was tried. *)
Inductive LockState :=
| NoLock
| Holding (l : Lock)
| ReleaseFailed (l : Lock).

Definition sameLock (a b : Lock) : bool := lock_path a =? lock_path b.

Definition lockStep (q : LockState) (e : Event) : option LockState :=
  match e with
  | EvGetMailboxLock _ (Ok l) =>
      match q with
      | NoLock => Some (Holding l)
      | _ => None
      end
  | EvRelease l r =>
      match q with
      | Holding l' | ReleaseFailed l' =>
          if sameLock l l' then
            Some (match r with
                  | Ok _ => NoLock
                  | Throw _ => ReleaseFailed l'
                  end)
          else None
      | NoLock => None
      end
  | EvLogout _ =>
      match q with
      | Holding _ => None
      | _ => Some q
      end
  | _ => Some q
  end.

Fixpoint lockRun (q : LockState) (tr : list Event) : option LockState :=
  match tr with
  | [] => Some q
  | e :: rest =>
      match lockStep q e with
      | Some q' => lockRun q' rest
      | None => None
      end
  end.

Definition locksSettled (tr : list Event) : bool :=
  match lockRun NoLock tr with
  | Some NoLock | Some (ReleaseFailed _) => true
  | Some (Holding _) | None => false
  end.

(** The order of a session.  The first call is [connect], and it is made
    once; after a logout, and after a connection that failed, nothing is
    called but [logout]. *)
Inductive SessionState :=
| Fresh
| Connected
| ConnectFailed
| LoggedOut.

Definition sessionStep (q : SessionState) (e : Event) : option SessionState :=
  match q with
  | Fresh =>
      match e with
      | EvConnect _ (Ok _) => Some Connected
      | EvConnect _ (Throw _) => Some ConnectFailed
      | _ => None
      end
  | Connected =>
      match e with
      | EvConnect _ _ => None
      | EvLogout _ => Some LoggedOut
      | _ => Some Connected
      end
  | ConnectFailed | LoggedOut =>
      match e with
      | EvLogout _ => Some LoggedOut
      | _ => None
      end
  end.

Fixpoint sessionRun (q : SessionState) (tr : list Event)
  : option SessionState :=
  match tr with
  | [] => Some q
  | e :: rest =>
      match sessionStep q e with
      | Some q' => sessionRun q' rest
      | None => None
      end
  end.

Fixpoint listEqb {A} (eqb : A -> A -> bool) (a b : list A) : bool :=
  match a, b with
  | [], [] => true
  | x :: a', y :: b' => eqb x y && listEqb eqb a' b'
  | _, _ => false
  end.

(** What a call needs of the call made just before it.  A lock is taken
    on INBOX, or on the path of the append just accepted.  A search looks
    for the probe's subject, right after a lock was obtained.  Messages
    are flagged right after a search that found them, all of them and
    nothing else, and only as deleted.  An expunge comes right after the
    flagging succeeded. *)
Definition guardedStep (prev : option Event) (e : Event) : bool :=
  match e with
  | EvGetMailboxLock p _ =>
      (p =? "INBOX") ||
      match prev with
      | Some (EvAppend p' _ _ (Ok _)) => p' =? p
      | _ => false
      end
  | EvSearch subject _ =>
      (subject =? "IMAP Discovery Probe") &&
      match prev with
      | Some (EvGetMailboxLock _ (Ok _)) => true
      | _ => false
      end
  | EvMessageFlagsAdd uids fl _ =>
      match prev with
      | Some (EvSearch _ (Ok found)) =>
          listEqb N.eqb uids found &&
          negb (Nat.eqb (length found) 0) &&
          listEqb String.eqb fl ["\Deleted"]
      | _ => false
      end
  | EvExpunge _ =>
      match prev with
      | Some (EvMessageFlagsAdd _ _ (Ok _)) => true
      | _ => false
      end
  | _ => true
  end.

Fixpoint guarded (prev : option Event) (tr : list Event) : bool :=
  match tr with
  | [] => true
  | e :: rest => guardedStep prev e && guarded (Some e) rest
  end.

(** The calls of [appendToSent] after the connection, over the names it
    may lock: a name that does not lock is followed by the next one; the
    first lock obtained receives the message, with the flag \Seen, on the
    path the lock reports, and is released before the logout; when no name
    locks, the logout comes at once. *)
Inductive AfterConnect (content : string)
  : list string -> list Event -> Prop :=
| LockRefused p rest e tr :
    AfterConnect content rest tr ->
    AfterConnect content (p :: rest) (EvGetMailboxLock p (Throw e) :: tr)
| LockObtained p rest l ra rr rl :
    AfterConnect content (p :: rest)
      [EvGetMailboxLock p (Ok l);
       EvAppend (lock_path l) content ["\Seen"] ra;
       EvRelease l rr;
       EvLogout rl]
| NamesExhausted r : AfterConnect content [] [EvLogout r].

(** The last line of a log. *)
Definition endsWith (lg : list LogLine) (l : LogLine) : Prop :=
  exists before, lg = (before ++ [l])%list.

(** What a failed call of [appendToSent] must have left in the log. *)
Definition reportedIn (tr : list Event) (lg : list LogLine) (e : Event)
  : Prop :=
  match e with
  | EvConnect _ (Throw err) => In (LAppendError (Js.message err)) lg
  | EvGetMailboxLock p (Throw err) =>
      In (LMailboxFailed p (Js.message err)) lg \/
      In (LFallbackFailed p (Js.message err)) lg
  | EvAppend _ _ _ (Throw err) =>
      In (LAppendError (Js.message err)) lg \/
      exists l err', In (EvRelease l (Throw err')) tr
  | EvRelease _ (Throw err) => In (LAppendError (Js.message err)) lg
  | EvLogout (Throw err) => In (LLogoutError (Js.message err)) lg
  | _ => True
  end.

(* ================================================================= *)
(** ** Scripted servers, for concrete runs *)

Module Scripted.

(** What the server answers; listings may depend on the folders created so
    far, and an append on how many appends came before. *)
Record Script := {
  onConnect : result unit;
  onLock : string -> result Lock;
  onRelease : result unit;
  onListSpecialUse : result (list Mailbox);
  onList : list string -> result (list Mailbox);
  onCreate : string -> result unit;
  onAppend : nat -> string -> result unit;
  onSearch : result (list N);
  onFlagsAdd : result unit;
  onExpunge : result unit;
  onLogout : nat -> result unit
}.

Record State := {
  appendCount : nat;
  logoutCount : nat;
  createdPaths : list string
}.

Definition start : State :=
  {| appendCount := 0; logoutCount := 0; createdPaths := [] |}.

Definition client (sc : Script) : Client State :=
  {| connect := fun _ s => (onConnect sc, s);
     getMailboxLock := fun p s => (onLock sc p, s);
     release := fun _ s => (onRelease sc, s);
     listSpecialUse := fun s => (onListSpecialUse sc, s);
     listAll := fun s => (onList sc (createdPaths s), s);
     mailboxCreate := fun p _ s =>
       (onCreate sc p,
        match onCreate sc p with
        | Ok _ => {| appendCount := appendCount s;
                     logoutCount := logoutCount s;
                     createdPaths := (createdPaths s ++ [p])%list |}
        | Throw _ => s
        end);
     append := fun p _ _ s =>
       (onAppend sc (appendCount s) p,
        {| appendCount := Datatypes.S (appendCount s);
           logoutCount := logoutCount s;
           createdPaths := createdPaths s |});
     search := fun _ s => (onSearch sc, s);
     messageFlagsAdd := fun _ _ s => (onFlagsAdd sc, s);
     expunge := fun s => (onExpunge sc, s);
     logout := fun s =>
       (onLogout sc (logoutCount s),
        {| appendCount := appendCount s;
           logoutCount := Datatypes.S (logoutCount s);
           createdPaths := createdPaths s |}) |}.

(** Listing entries whose flags are arrays, as the code takes them. *)
Definition folder (p : string) : Mailbox :=
  {| path := p; flags := FlagsArray []; specialUse := None |}.

Definition sentFolder (p : string) : Mailbox :=
  {| path := p; flags := FlagsArray ["\HasNoChildren"; "\Sent"];
     specialUse := Some "\Sent" |}.

(** Listing entries as imapflow reports them: the flags are a [Set]. *)
Definition listed (p : string) : Mailbox :=
  {| path := p; flags := FlagsSet ["\HasNoChildren"]; specialUse := None |}.

Definition listedSent (p : string) : Mailbox :=
  {| path := p; flags := FlagsSet ["\HasNoChildren"; "\Sent"];
     specialUse := Some "\Sent" |}.

Definition lockOf (p : string) : result Lock := Ok {| lock_path := p |}.

Definition failure {A} (m : string) : result A := Throw (Js.mkError m).

(** A server on which every call succeeds: [special] is its special-use
    listing, and the full listing is [folders] followed by the folders
    created during the session. *)
Definition healthy (special folders : list Mailbox) : Script :=
  {| onConnect := Ok tt;
     onLock := lockOf;
     onRelease := Ok tt;
     onListSpecialUse := Ok special;
     onList := fun made => Ok (folders ++ map folder made)%list;
     onCreate := fun _ => Ok tt;
     onAppend := fun _ _ => Ok tt;
     onSearch := Ok [1%N];
     onFlagsAdd := Ok tt;
     onExpunge := Ok tt;
     onLogout := fun _ => Ok tt |}.

(** As [healthy], with the outcomes of append, create and logout given. *)
Definition custom (special folders : list Mailbox)
    (onAppend : nat -> string -> result unit)
    (onCreate : string -> result unit)
    (onLogout : nat -> result unit) : Script :=
  {| onConnect := Ok tt;
     onLock := lockOf;
     onRelease := Ok tt;
     onListSpecialUse := Ok special;
     onList := fun made => Ok (folders ++ map folder made)%list;
     onCreate := onCreate;
     onAppend := onAppend;
     onSearch := Ok [1%N];
     onFlagsAdd := Ok tt;
     onExpunge := Ok tt;
     onLogout := onLogout |}.

(** The first append is refused with a TRYCREATE hint, the next ones are
    accepted. *)
Definition tryCreateOnce (n : nat) (p : string) : result unit :=
  match n with
  | 0 => failure ("NO [TRYCREATE] Mailbox doesn't exist: " ++ p)
  | _ => Ok tt
  end.

Definition always {A B} (r : result unit) : A -> B -> result unit :=
  fun _ _ => r.

(** A server that marks Sent as its Sent folder, and refuses the first
    append to it with a TRYCREATE hint. *)
Definition designatedButAbsent : Script :=
  custom [sentFolder "Sent"] [folder "INBOX"; sentFolder "Sent"]
    tryCreateOnce (fun _ => Ok tt) (fun _ => Ok tt).

(** A server without special-use folders that lists Enviados, and refuses
    the first append to it with a TRYCREATE hint. *)
Definition namedButAbsent : Script :=
  custom [] [folder "INBOX"; folder "Enviados"]
    tryCreateOnce (fun _ => Ok tt) (fun _ => Ok tt).

(** A server whose Sent folder has a name of its own and is marked by
    special use, next to a folder that a candidate name matches. *)
Definition designatedElsewhere : Script :=
  healthy [sentFolder "Correo/Salida"]
    [folder "INBOX"; folder "Sent"; sentFolder "Correo/Salida"].

(** A server without special-use folders, with two folders whose names
    match candidates: SENT ITEMS matches the second candidate, Gesendet
    the eighth. *)
Definition namedOnly : Script :=
  healthy [] [folder "INBOX"; folder "Gesendet"; folder "SENT ITEMS"].

(** A server with nothing but INBOX: no special use, no name that
    matches. *)
Definition bare : Script := healthy [] [folder "INBOX"].

(** The same three kinds of server with the listings as imapflow gives
    them, the flags of every entry a [Set]: one that designates Sent by
    special use, one that only has a folder named Sent, one with nothing
    but INBOX. *)
Definition designatedAsSet : Script :=
  healthy [listedSent "Sent"] [listed "INBOX"; listedSent "Sent"].

Definition namedAsSet : Script := healthy [] [listed "INBOX"; listed "Sent"].

Definition bareAsSet : Script := healthy [] [listed "INBOX"].

(** As [bare], and every creation is refused. *)
Definition readOnly : Script :=
  custom [] [folder "INBOX"] (always (Ok tt))
    (fun _ => failure "NO [NOPERM] Permission denied") (fun _ => Ok tt).

(** As [bare], and the folders created never show in the listing. *)
Definition hidesCreated : Script :=
  {| onConnect := Ok tt;
     onLock := lockOf;
     onRelease := Ok tt;
     onListSpecialUse := Ok [];
     onList := fun _ => Ok [folder "INBOX"];
     onCreate := fun _ => Ok tt;
     onAppend := fun _ _ => Ok tt;
     onSearch := Ok [1%N];
     onFlagsAdd := Ok tt;
     onExpunge := Ok tt;
     onLogout := fun _ => Ok tt |}.

Definition failsFirst (n : nat) : result unit :=
  match n with
  | 0 => failure "Connection closed unexpectedly"
  | _ => Ok tt
  end.

(** As [designatedButAbsent], and the first logout fails. *)
Definition recoversThenDrops : Script :=
  custom [sentFolder "Sent"] [folder "INBOX"; sentFolder "Sent"]
    tryCreateOnce (fun _ => Ok tt) failsFirst.

(** A server that answers every append with TRYCREATE, and whose first
    logout fails. *)
Definition refusesThenDrops : Script :=
  custom [sentFolder "Sent"] [folder "INBOX"; sentFolder "Sent"]
    (always (failure "NO [TRYCREATE] Mailbox doesn't exist"))
    (fun _ => Ok tt) failsFirst.

(** A server that refuses every append for lack of room. *)
Definition overQuota : Script :=
  custom [sentFolder "Sent"] [folder "INBOX"; sentFolder "Sent"]
    (always (failure "NO [OVERQUOTA] Quota exceeded")) (fun _ => Ok tt)
    (fun _ => Ok tt).

(** A server on which all goes well until the logout, which fails the
    first time. *)
Definition dropsOnLogout : Script :=
  custom [sentFolder "Sent"] [folder "INBOX"; sentFolder "Sent"]
    (always (Ok tt)) (fun _ => Ok tt) failsFirst.

Definition env : Env :=
  {| SAVE_SENT_COPY := Some "true";
     IMAP_HOST := None;
     IMAP_PORT := None;
     IMAP_SECURE := None;
     IMAP_USER := Some "relay@example.com";
     IMAP_PASS := Some "secret";
     SMTP_USER := None;
     SMTP_PASS := None;
     IMAP_MAILBOX := None;
     FROM_EMAIL := Some "relay@example.com";
     NODE_ENV := None |}.

Definition utc : string := "Mon, 02 Nov 2026 00:00:00 GMT".

Definition initial : St State :=
  {| server := start;
     locals := {| lockVar := None; sentVar := None; createdVar := false |} |}.

(** A request body that is its own validated data, or an error text. *)
Definition validate (reqBody : SendData unit + string) : Validation string unit :=
  match reqBody with
  | inl data => Valid data
  | inr error => Invalid error
  end.

Definition request (text html : option string) : SendData unit + string :=
  inl {| data_to := Some (One "ana@example.com");
         data_subject := Some "Hola";
         data_text := text;
         data_html := html;
         data_attachments := None |}.

Definition delivered : SendInfo :=
  {| info_messageId := "<1@example.com>";
     accepted := ["ana@example.com"];
     rejected := [] |}.

Definition entropy : Entropy :=
  {| idNow := "1793577600000";
     idRandom := "0.4fzyo82mvyr";
     utcString := utc;
     boundaryNow := "1793577600001";
     boundaryRandom := "0.k2j8s9d1x" |}.

End Scripted.

(* ================================================================= *)
(** * Properties *)

(* ================================================================= *)
(** ** Strings *)

Lemma append_assoc (a b c : string) : (a ++ b) ++ c = a ++ (b ++ c).
Proof.
  induction a as [|x a IH]; simpl; [reflexivity | now rewrite IH].
Qed.

Lemma append_empty_r (a : string) : a ++ "" = a.
Proof.
  induction a as [|x a IH]; simpl; [reflexivity | now rewrite IH].
Qed.

Lemma startsWith_append (p rest : string) : Js.startsWith (p ++ rest) p = true.
Proof.
  induction p as [|x p IH]; simpl.
  - reflexivity.
  - now rewrite Ascii.eqb_refl, IH.
Qed.

Lemma includes_append (pre needle post : string) :
  Js.includes (pre ++ needle ++ post) needle = true.
Proof.
  induction pre as [|x pre IH]; simpl.
  - destruct needle as [|y needle]; simpl.
    + now destruct post.
    + now rewrite Ascii.eqb_refl, startsWith_append.
  - rewrite IH. apply orb_true_r.
Qed.

Example toLowerCase_latin1 :
  Js.toLowerCase "Éléments ENVOYÉS" = "éléments envoyés" /\
  Js.toLowerCase "INBOX.Sent Items" = "inbox.sent items".
Proof. split; reflexivity. Qed.

(** Outside Latin-1: the Kelvin sign becomes k, the dotted capital I
    becomes i followed by a combining dot, a capital sigma becomes the
    final sigma at the end of a word only, and a byte that belongs to no
    character is kept. *)
Example toLowerCase_unicode :
  Js.toLowerCase "NETWORK" = "network" /\
  Js.toLowerCase "İSTANBUL" = "i̇stanbul" /\
  Js.toLowerCase "ΟΔΟΣ ΣΑΣ" = "οδος σας" /\
  Js.toLowerCase "ЖУРНАЛ" = "журнал" /\
  Js.toLowerCase (String "255" "A") = String "255" "a".
Proof. repeat split; vm_compute; reflexivity. Qed.

(** A message that names the network with a Kelvin sign is a
    connectivity error, as it is for the code. *)
Example mapSmtpError_kelvin :
  status (mapSmtpError (Js.mkError "NETWORK unreachable")) = 502%Z.
Proof. vm_compute. reflexivity. Qed.

Example includes_examples :
  Js.includes "INBOX/Work" "/" = true /\
  Js.includes "INBOX" "/" = false /\
  Js.includes "connection timeout" "timeout" = true.
Proof. repeat split. Qed.

(* ================================================================= *)
(** ** The SMTP error taxonomy and the responses of POST /send *)

Lemma mapSmtpError_status (error : Js.Error) :
  status (mapSmtpError error) = classStatus (classOf error).
Proof.
  unfold mapSmtpError, classOf, mentions.
  cbn [List.find classKeywords existsb].
  rewrite !orb_false_r, <- !orb_assoc.
  set (m := Js.toLowerCase (Js.message error)).
  destruct (Js.includes m "authentication" || _); [reflexivity|].
  destruct (Js.includes m "connection" || _); [reflexivity|].
  destruct (Js.includes m "tls" || _); [reflexivity|].
  destruct (Js.includes m "recipient" || _); reflexivity.
Qed.

Section SendResponses.

Variables RequestBody Details Attachment : Type.
Variable validateSendEmail : RequestBody -> Validation Details Attachment.
Variable sendMail : MailOptions -> option (list Attachment) -> result SendInfo.
Variable S : Type.
Variable client : Client S.

(** The cascade of [mapSmtpError], as the handler applies it.  A failed
    validation gives 422.  A failed SMTP send gives the status of the first
    group of words, in the order authentication, connectivity,
    TLS/certificate, recipient rejection, one of whose words the lowercased
    message carries: 401, 502, 502 and 422, and 500 when it carries none.
    A send that succeeds gives status 200 with the body {messageId,
    accepted, rejected} of the transport's answer. *)
Lemma send_status_by_taxonomy (env : Env) (rnd : Entropy)
    (reqBody : RequestBody) (s : St S) :
  let response :=
    fst (postSend validateSendEmail sendMail client env rnd reqBody s) in
  (forall details, validateSendEmail reqBody = Invalid details ->
     code response = 422%Z) /\
  (forall data error,
     validateSendEmail reqBody = Valid data ->
     sendMail (mailOptionsOf env data) (data_attachments data) = Throw error ->
     code response = classStatus (classOf error) /\
     (mentions Authentication error = true -> code response = 401%Z) /\
     (classOf error = Connectivity -> code response = 502%Z) /\
     (classOf error = TlsCertificate -> code response = 502%Z) /\
     (classOf error = RecipientRejection -> code response = 422%Z) /\
     (classOf error = Unclassified -> code response = 500%Z)) /\
  (forall data info,
     validateSendEmail reqBody = Valid data ->
     sendMail (mailOptionsOf env data) (data_attachments data) = Ok info ->
     code response = 200%Z /\
     body response =
       BodySent (info_messageId info) (accepted info) (rejected info)).
Proof.
  unfold postSend. cbn zeta. split; [|split].
  - intros details H. now rewrite H.
  - intros data error H H0. rewrite H, H0. cbn [fst code].
    rewrite mapSmtpError_status. split; [reflexivity|].
    split; [|repeat split; intros Hc; now rewrite Hc].
    intros Hm. unfold classOf. cbn [List.find]. now rewrite Hm.
  - intros data info H H0. now rewrite H, H0.
Qed.

End SendResponses.

(** A rejected login is answered 401, an unknown host 502, a certificate
    that does not verify 502, a refused mailbox 422, anything else 500; a
    body that does not validate 422; a delivery 200. *)
Example send_status_by_taxonomy_example :
  let respond sendMail reqBody :=
    fst (postSend Scripted.validate sendMail
           (Scripted.client (Scripted.healthy [] []))
           Scripted.env Scripted.entropy reqBody Scripted.initial) in
  let failing m := fun (_ : MailOptions) (_ : option (list unit)) =>
    @Scripted.failure SendInfo m in
  let hello := Scripted.request (Some "hi") None in
  code (respond (failing "Invalid login: 535 Authentication credentials invalid") hello) = 401%Z /\
  code (respond (failing "getaddrinfo ENOTFOUND smtp.ionos.com") hello) = 502%Z /\
  code (respond (failing "self signed certificate") hello) = 502%Z /\
  code (respond (failing "550 Mailbox unavailable") hello) = 422%Z /\
  code (respond (failing "Message size exceeds limit") hello) = 500%Z /\
  code (respond (failing "unused") (inr "to: required")) = 422%Z /\
  respond (fun _ _ => Ok Scripted.delivered) hello =
    {| code := 200%Z;
       body := BodySent "<1@example.com>" ["ana@example.com"] [] |}.
Proof.
  intros respond failing hello.
  pose (T := fun sendMail reqBody =>
    send_status_by_taxonomy Scripted.validate sendMail
      (Scripted.client (Scripted.healthy [] []))
      Scripted.env Scripted.entropy reqBody Scripted.initial).
  repeat match goal with |- _ /\ _ => apply conj end.
  - destruct (T (failing "Invalid login: 535 Authentication credentials invalid") hello)
      as (_ & H & _).
    destruct (H _ _ eq_refl eq_refl) as (_ & Ha & _). apply Ha. reflexivity.
  - destruct (T (failing "getaddrinfo ENOTFOUND smtp.ionos.com") hello) as (_ & H & _).
    destruct (H _ _ eq_refl eq_refl) as (_ & _ & Ha & _). apply Ha. reflexivity.
  - destruct (T (failing "self signed certificate") hello) as (_ & H & _).
    destruct (H _ _ eq_refl eq_refl) as (_ & _ & _ & Ha & _). apply Ha. reflexivity.
  - destruct (T (failing "550 Mailbox unavailable") hello) as (_ & H & _).
    destruct (H _ _ eq_refl eq_refl) as (_ & _ & _ & _ & Ha & _). apply Ha. reflexivity.
  - destruct (T (failing "Message size exceeds limit") hello) as (_ & H & _).
    destruct (H _ _ eq_refl eq_refl) as (_ & _ & _ & _ & _ & Ha). apply Ha. reflexivity.
  - destruct (T (failing "unused") (inr "to: required")) as (H & _).
    apply (H "to: required"). reflexivity.
  - destruct (T (fun _ _ => Ok Scripted.delivered) hello) as (_ & _ & H).
    destruct (H _ _ eq_refl eq_refl) as (Hc & Hb).
    set (r := respond (fun _ _ => Ok Scripted.delivered) hello).
    transitivity {| code := code r; body := body r |}; [reflexivity|].
    exact (f_equal2 (@Build_Response string) Hc Hb).
Qed.

(** C8, where the code departs from it.  The class of an error is not
    known to the handler: it is guessed from the message by substring
    tests, in a fixed order, and the first test that succeeds decides.
    Whatever else a message says, the four letters auth in it give 401.
    So an error of one class that carries a word of an earlier test gets
    the status of the earlier class, and an error whose message carries
    none of the words gets 500: a recipient rejection that says not
    authorized is answered 401 and not 422, although it carries the words
    550 and recipient; a DNS failure for a host named auth.smtp... is
    answered 401 and not 502, although it carries the word ENOTFOUND; and
    the timeout that nodemailer reports as Greeting never received is
    answered 500 and not 502. *)
Theorem taxonomy_misclassifies :
  let respond sendMail :=
    fst (postSend Scripted.validate sendMail
           (Scripted.client (Scripted.healthy [] []))
           Scripted.env Scripted.entropy
           (Scripted.request (Some "hi") None) Scripted.initial) in
  let failing m := fun (_ : MailOptions) (_ : option (list unit)) =>
    @Scripted.failure SendInfo m in
  let rejected := "550 Recipient address rejected: not authorized" in
  let unresolved := "getaddrinfo ENOTFOUND auth.smtp.example.com" in
  let timedOut := "Greeting never received" in
  (forall error,
     Js.includes (Js.toLowerCase (Js.message error)) "auth" = true ->
     code (respond (fun _ _ => Throw error)) = 401%Z) /\
  (Js.includes (Js.toLowerCase rejected) "recipient" = true /\
   Js.includes (Js.toLowerCase rejected) "550" = true /\
   code (respond (failing rejected)) = 401%Z) /\
  (Js.includes (Js.toLowerCase unresolved) "enotfound" = true /\
   code (respond (failing unresolved)) = 401%Z) /\
  (Js.includes (Js.toLowerCase timedOut) "timeout" = false /\
   code (respond (failing timedOut)) = 500%Z).
Proof.
  intros respond failing rejected unresolved timedOut.
  split; [|repeat split; vm_compute; reflexivity].
  intros error Hauth. subst respond. unfold postSend. cbn.
  unfold mapSmtpError. rewrite Hauth, !orb_true_r. reflexivity.
Qed.

(* ================================================================= *)
(** ** The message composer *)

(** C9.  The message is the header lines followed by the body: with both
    [text] and [html] present (non-empty), a multipart/alternative body
    whose boundary is made of the clock and the random token, the
    text/plain part first and the text/html part second; with only [html],
    a single text/html part; with only [text], or neither, a single
    text/plain part, empty when there is neither.  Every part declares
    charset utf-8 and the 8bit transfer encoding. *)
Theorem buildRFC822Message_body_shape (mailOptions : MailOptions)
    (fromEmail : option string) (rnd : Entropy) :
  let raw := buildRFC822Message mailOptions fromEmail rnd in
  let headers := headerLines mailOptions fromEmail rnd in
  let part kind content :=
    "Content-Type: text/" ++ kind ++ "; charset=utf-8" ++ Js.CRLF ++
    "Content-Transfer-Encoding: 8bit" ++ Js.CRLF ++ Js.CRLF ++ content in
  let boundary := "boundary_" ++ boundaryNow rnd ++ "_" ++ boundaryRandom rnd in
  (forall t h,
     text mailOptions = Some t -> t <> "" ->
     html mailOptions = Some h -> h <> "" ->
     raw = headers ++
           "Content-Type: multipart/alternative; boundary=" ++
           Js.DQUOTE ++ boundary ++ Js.DQUOTE ++ Js.CRLF ++ Js.CRLF ++
           "--" ++ boundary ++ Js.CRLF ++
           part "plain" t ++ Js.CRLF ++ Js.CRLF ++
           "--" ++ boundary ++ Js.CRLF ++
           part "html" h ++ Js.CRLF ++ Js.CRLF ++
           "--" ++ boundary ++ "--" ++ Js.CRLF) /\
  (forall h,
     Js.truthy (text mailOptions) = false ->
     html mailOptions = Some h -> h <> "" ->
     raw = headers ++ part "html" h ++ Js.CRLF) /\
  (forall t,
     text mailOptions = Some t -> t <> "" ->
     Js.truthy (html mailOptions) = false ->
     raw = headers ++ part "plain" t ++ Js.CRLF) /\
  (Js.truthy (text mailOptions) = false ->
   Js.truthy (html mailOptions) = false ->
   raw = headers ++ part "plain" "" ++ Js.CRLF).
Proof.
  intros raw headers part boundary. subst raw headers.
  unfold buildRFC822Message, headerLines. cbv zeta.
  assert (Hne : forall s, s <> "" -> (s =? "") = false)
    by (intros s Hs; now apply String.eqb_neq).
  assert (Hfalsy : forall o, Js.truthy o = false -> Js.orDefault o "" = "").
  { intros [s|]; cbn; [|reflexivity].
    destruct (s =? "") eqn:E; [reflexivity | discriminate]. }
  repeat match goal with |- _ /\ _ => apply conj end.
  - intros t h Ht Hnt Hh Hnh. rewrite Ht, Hh.
    repeat (progress (rewrite ?(Hne _ Hnt), ?(Hne _ Hnh);
                      cbn [Js.truthy Js.orDefault render negb andb])).
    subst part boundary. cbv beta. now rewrite !append_assoc.
  - intros h Ht Hh Hnh. rewrite (Hfalsy _ Ht), Hh.
    repeat (progress (rewrite ?(Hne _ Hnh);
                      cbn [Js.truthy render negb andb String.eqb])).
    subst part. cbv beta. now rewrite !append_assoc.
  - intros t Ht Hnt Hh. rewrite Ht, Hh.
    repeat (progress (rewrite ?(Hne _ Hnt); cbn [Js.orDefault negb andb])).
    subst part. cbv beta. now rewrite !append_assoc.
  - intros Ht Hh. rewrite (Hfalsy _ Ht), Hh. cbn [andb]. subst part. cbv beta.
    now rewrite !append_assoc.
Qed.

(** The four shapes on the messages of the specification: text and html,
    html only, text only, neither. *)
Lemma buildRFC822Message_body_shape_witness :
  let options text html :=
    {| from := None; to := Some (One "ana@example.com"); cc := None;
       bcc := None; subject := Some "Hola"; text := text; html := html;
       messageId := None |} in
  let compose text html :=
    buildRFC822Message (options text html) (Some "relay@example.com")
      Scripted.entropy in
  let headers :=
    "Message-ID: <1793577600000.0.4fzyo82mvyr@piensaajedrez.com>" ++ Js.CRLF ++
    "Date: Mon, 02 Nov 2026 00:00:00 GMT" ++ Js.CRLF ++
    "From: relay@example.com" ++ Js.CRLF ++
    "To: ana@example.com" ++ Js.CRLF ++
    "Subject: Hola" ++ Js.CRLF ++
    "MIME-Version: 1.0" ++ Js.CRLF in
  let part kind content :=
    "Content-Type: text/" ++ kind ++ "; charset=utf-8" ++ Js.CRLF ++
    "Content-Transfer-Encoding: 8bit" ++ Js.CRLF ++ Js.CRLF ++ content in
  let boundary := "boundary_1793577600001_0.k2j8s9d1x" in
  compose (Some "hi") (Some "<b>hi</b>") =
    headers ++
    "Content-Type: multipart/alternative; boundary=" ++
    Js.DQUOTE ++ boundary ++ Js.DQUOTE ++ Js.CRLF ++ Js.CRLF ++
    "--" ++ boundary ++ Js.CRLF ++
    part "plain" "hi" ++ Js.CRLF ++ Js.CRLF ++
    "--" ++ boundary ++ Js.CRLF ++
    part "html" "<b>hi</b>" ++ Js.CRLF ++ Js.CRLF ++
    "--" ++ boundary ++ "--" ++ Js.CRLF /\
  compose None (Some "<b>hi</b>") =
    headers ++ part "html" "<b>hi</b>" ++ Js.CRLF /\
  compose (Some "hi") None = headers ++ part "plain" "hi" ++ Js.CRLF /\
  compose None None = headers ++ part "plain" "" ++ Js.CRLF.
Proof.
  intros options compose headers part boundary.
  pose (T := fun text html =>
    buildRFC822Message_body_shape (options text html)
      (Some "relay@example.com") Scripted.entropy).
  repeat match goal with |- _ /\ _ => apply conj end.
  - destruct (T (Some "hi") (Some "<b>hi</b>")) as (H & _).
    apply (H "hi" "<b>hi</b>");
      [reflexivity | discriminate | reflexivity | discriminate].
  - destruct (T None (Some "<b>hi</b>")) as (_ & H & _).
    apply (H "<b>hi</b>"); [reflexivity | reflexivity | discriminate].
  - destruct (T (Some "hi") None) as (_ & _ & H & _).
    apply (H "hi"); [reflexivity | discriminate | reflexivity].
  - destruct (T None None) as (_ & _ & _ & H).
    apply H; reflexivity.
Defined.

(* ================================================================= *)
(** ** Delimiter detection *)


Lemma detectDelimiter_default (all : list Mailbox) :
  (forall mb, In mb all ->
     Js.includes (path mb) "/" = false /\ Js.includes (path mb) "." = false) ->
  detectDelimiter all = "/".
Proof.
  induction all as [|mb rest IH]; intros H; cbn [detectDelimiter].
  - reflexivity.
  - destruct (H mb (or_introl eq_refl)) as [Hs Hd]. rewrite Hs, Hd.
    apply IH. intros mb' Hin. apply H. now right.
Qed.


(* ================================================================= *)
(** ** Traces *)

Lemma creations_app (a b : list Event) :
  creations (a ++ b) = (creations a ++ creations b)%list.
Proof. apply flat_map_app. Qed.

Lemma creationOutcomes_app (a b : list Event) :
  creationOutcomes (a ++ b) = (creationOutcomes a ++ creationOutcomes b)%list.
Proof. apply flat_map_app. Qed.

Lemma logouts_app (a b : list Event) :
  logouts (a ++ b) = (logouts a ++ logouts b)%list.
Proof. apply flat_map_app. Qed.

Lemma appends_app (a b : list Event) :
  appends (a ++ b) = (appends a ++ appends b)%list.
Proof. apply flat_map_app. Qed.

Lemma cleanup_calls_quiet (tr : list Event) :
  forallb isCleanupCall tr = true ->
  creations tr = [] /\ logouts tr = [] /\ appends tr = [] /\
  firstList tr = None.
Proof.
  induction tr as [|e tr IH]; cbn; intros H.
  - now repeat split.
  - apply andb_prop in H. destruct H as [He Ht].
    destruct (IH Ht) as (Hc & Hl & Ha & Hf).
    destruct e; cbn in He; try discriminate; cbn; now repeat split.
Qed.

(** What every run of the probe has: the first call is the append on the
    path; of [mailboxCreate] there is at most the one of the TRYCREATE
    recovery, on the same path; a run that ends well made no logout and had
    an append accepted, a run that throws logged out once and had none. *)
Lemma ProbeRun_facts (p msg : string) (tr : list Event) (out : result unit) :
  ProbeRun p msg tr out ->
  (exists r rest, tr = EvAppend p msg probeFlags r :: rest) /\
  firstList tr = None /\
  (creations tr = [] \/
   creations tr = [p] /\
   exists e, In (EvAppend p msg probeFlags (Throw e)) tr /\
             testTryCreate (Js.describe e) = true) /\
  match out with
  | Ok _ => logouts tr = [] /\ existsb succeeded (appends tr) = true
  | Throw _ =>
      (exists r, logouts tr = [r]) /\ existsb succeeded (appends tr) = false
  end.
Proof.
  intros H. destruct H as [cl Hcl | e r Ht | e Ht | e e2 r Ht | e e2 r Ht].
  1: destruct (cleanup_calls_quiet _ Hcl) as (Hc & Hl & Ha & Hf).
  all: cbn; rewrite ?Hf, ?Hl, ?Ha.
  all: split; [eauto|].
  all: split; [reflexivity|].
  all: split;
    [first [ left; first [assumption | reflexivity]
           | right; split; [reflexivity|]; exists e;
             split; [now left | assumption] ]|].
  all: repeat split; eauto.
Qed.

(** What every run has from the probe on. *)
Lemma ValidateRun_facts (mb : Mailbox) (d : string) (c : bool) (msg : string)
    (tr : list Event) (out : result ResolutionResult) :
  ValidateRun mb d c msg tr out ->
  (exists r rest, tr = EvAppend (path mb) msg probeFlags r :: rest) /\
  firstList tr = None /\
  (forall r, out = Ok r ->
     r = {| sentPath := path mb; delimiter := d; created := c |}) /\
  (creations tr = [] \/
   creations tr = [path mb] /\
   exists e, In (EvAppend (path mb) msg probeFlags (Throw e)) tr /\
             testTryCreate (Js.describe e) = true) /\
  (existsb succeeded (appends tr) = true ->
   forallb succeeded (logouts tr) = true ->
   out = Ok {| sentPath := path mb; delimiter := d; created := c |}).
Proof.
  intros H.
  destruct H as [tr Hp | tr e r Hp | tr e r Hp];
    destruct (ProbeRun_facts Hp) as ((r0 & rest & Htr) & Hf & Hc & Ho);
    cbn in Ho; destruct Ho as (Hl & Ha);
    rewrite creations_app, appends_app, logouts_app; cbn;
    rewrite ?app_nil_r.
  all: split; [subst tr; cbn; eauto|].
  all: split; [subst tr; cbn; clear -Hf; cbn in Hf;
               induction rest as [|x rest IH]; cbn in *;
               [reflexivity | destruct x; auto; discriminate]|].
  all: split; [intros r1 Hr; congruence|].
  all: split.
  all: try (destruct Hc as [Hc | (Hc & e0 & Hin & Ht)];
            [left; exact Hc
            |right; split; [exact Hc|]; exists e0; split;
             [apply in_or_app; now left | exact Ht]]).
  - reflexivity.
  - rewrite Hl. cbn. discriminate.
  - rewrite Ha. discriminate.
Qed.

(* ================================================================= *)
(** ** Runs of the discovery *)

(** One step of a run: the outcome of the next call decides. *)
Ltac next_call :=
  match goal with
  | |- context [match fst ?x with Ok _ => _ | Throw _ => _ end] =>
      let E := fresh "E" in destruct (fst x) eqn:E
  end.

Ltac next_branch :=
  match goal with
  | |- context [match Datatypes.length ?l with 0 => _ | Datatypes.S _ => _ end] =>
      destruct l
  end.

Ltac unit_values :=
  repeat match goal with u : unit |- _ => destruct u end.

Ltac run_all :=
  cbn; repeat (first [next_call | next_branch]; unit_values; cbn).

Ltac unfold_calls :=
  unfold doConnect, doAppend, doGetMailboxLock, doSearch, doMessageFlagsAdd,
    doExpunge, doRelease, doMailboxCreate, doLogout, doList,
    doListSpecialUse, bind, tryCatch, tryFinally, call, say, ret, throw,
    lift, getLock, setLock, getSent, setSent, getCreated, setCreated.

(** A step that reads the flags of a listing: it ends well or throws. *)
Ltac next_read :=
  match goal with
  | |- context [match findWith isSent ?l with Ok _ => _ | Throw _ => _ end] =>
      destruct (findWith isSent l) eqn:?
  | |- context [match forEach flagsText ?l with Ok _ => _ | Throw _ => _ end] =>
      destruct (forEach flagsText l) eqn:?
  end.

Section Runs.

Variable S : Type.
Variable client : Client S.

Lemma probe_run (user utc p : string) (s : St S) :
  let o := probe client user utc p s in
  ProbeRun p (testMessage user utc) (trace o) (res o) /\
  locals (state o) = locals s /\
  (existsb (fun e => isCleanupCall e && failed e) (trace o) = true ->
   exists m, In (LCleanupFailed m) (log o)).
Proof.
  unfold probe. cbv zeta. generalize (testMessage user utc). intros msg.
  unfold_calls. run_all.
  all: try (destruct (testTryCreate _) eqn:Ht; run_all).
  all: (split; [|split; [reflexivity|]]).
  all: try (constructor; auto; fail).
  all: try (intros H; discriminate H).
  all: intros _; eexists; cbn; eauto.
Qed.

Lemma createLoop_run (paths : list string) (s : St S) :
  sentVar (locals s) = None ->
  let o := createLoop client paths s in
  res o = Ok tt /\
  LoopShape paths (trace o) (sentVar (locals (state o))) /\
  createdVar (locals (state o)) =
    createdVar (locals s) || existsb succeeded (creationOutcomes (trace o)) /\
  lockVar (locals (state o)) = lockVar (locals s).
Proof.
  revert s. induction paths as [|p rest IH]; intros s Hs.
  - cbn. rewrite Hs, orb_false_r. repeat split. constructor.
  - cbn [createLoop]. unfold_calls. run_all.
    + destruct (Js.find _ a) as [mb|] eqn:Hf; cbn.
      * repeat split; [now constructor | now destruct (createdVar (locals s))].
      * match goal with
        | |- context [createLoop client rest ?s'] =>
            specialize (IH s' eq_refl);
            destruct (createLoop client rest s') as [r st tr lg]
        end.
        cbn in *. destruct IH as (Hr & Hl & Hc & Hk). subst r.
        cbn. repeat split; [now apply LoopNotListed | | exact Hk].
        rewrite Hc. now destruct (createdVar (locals s)).
    + rewrite Hs.
      match goal with
      | |- context [createLoop client rest ?s'] =>
          specialize (IH s' eq_refl);
          destruct (createLoop client rest s') as [r st tr lg]
      end.
      cbn in *. destruct IH as (Hr & Hl & Hc & Hk). subst r.
      cbn. repeat split; [now apply LoopRelistFailed | | exact Hk].
      rewrite Hc. now destruct (createdVar (locals s)).
    + rewrite Hs.
      match goal with
      | |- context [createLoop client rest ?s'] =>
          specialize (IH s' Hs);
          destruct (createLoop client rest s') as [r st tr lg]
      end.
      cbn in *. destruct IH as (Hr & Hl & Hc & Hk). subst r.
      cbn. repeat split; [now apply LoopCreateFailed | exact Hc | exact Hk].
Qed.

Lemma LoopShape_captured (paths : list string) (tr : list Event)
    (mb : Mailbox) :
  LoopShape paths tr (Some mb) ->
  existsb succeeded (creationOutcomes tr) = true.
Proof.
  intros H. remember (Some mb) as out eqn:Ho.
  induction H; try discriminate; cbn; auto.
Qed.

Arguments testMessage : simpl never.
Arguments probe : simpl never.
Arguments createLoop : simpl never.

Ltac probe_block :=
  match goal with
  | |- context [probe client ?u ?t ?p ?s'] =>
      let H := fresh "Hprobe" in
      let Hl := fresh "Hlocals" in
      destruct (probe_run u t p s') as (H & Hl & _);
      destruct (probe client u t p s') as [pr pst ptr plg];
      cbn in H, Hl; destruct pst as [psrv ploc]; cbn in Hl; subst ploc;
      destruct pr
  end.

Ltac loop_block :=
  match goal with
  | |- context [createLoop client ?ps ?s'] =>
      let H := fresh "Hloop" in
      destruct (createLoop_run ps s' eq_refl) as (? & H & ? & ?);
      destruct (createLoop client ps s') as [lr lst ltr llg];
      cbn in *; subst lr; destruct lst as [lsrv lloc];
      destruct lloc as [llock lsent lcreated]; cbn in *; subst
  end.

Lemma findOrCreateSentBox_run (env : Env) (utc : string) (s : St S) :
  let o := findOrCreateSentBox client env utc s in
  let user := render (Js.orElse (IMAP_USER env) (SMTP_USER env)) in
  let pass := render (Js.orElse (IMAP_PASS env) (SMTP_PASS env)) in
  Run (imapConfig env user pass) (testMessage user utc) (trace o) (res o).
Proof.
  unfold findOrCreateSentBox. cbv zeta.
  destruct (negb _ || negb _).
  - cbn. constructor.
  - generalize (imapConfig env (render (Js.orElse (IMAP_USER env) (SMTP_USER env)))
      (render (Js.orElse (IMAP_PASS env) (SMTP_PASS env)))).
    generalize (render (Js.orElse (IMAP_USER env) (SMTP_USER env))).
    intros user cfg.
    unfold discover, lockInbox, listSpecial, cleanup, pathOf. unfold_calls.
    run_all.
    all: repeat (first [ next_call | next_read | loop_block | probe_block
                       | match goal with
                         | |- context [match ?x with Some _ => _ | None => _ end] =>
                             destruct x eqn:?
                         end ]; unit_values; cbn).
    all: rewrite <- ?app_assoc; cbn.
    all: subst.
    all: try (constructor; fail).
    all: try match goal with
         | H : LoopShape _ _ (Some _) |- _ =>
             let Hc := fresh "Hc" in
             pose proof (LoopShape_captured H) as Hc;
             unfold creationOutcomes in Hc; rewrite Hc
         end.
    all: match goal with
         | |- Run _ _ (EvConnect ?c (Ok tt) :: EvGetMailboxLock ?p (Ok ?l)
                         :: EvRelease ?l (Ok tt) :: ?tr) ?out =>
             apply (@RunSelect c _
                      [EvGetMailboxLock p (Ok l); EvRelease l (Ok tt)] tr out);
             [constructor|]
         | |- Run _ _ (EvConnect ?c (Ok tt) :: EvGetMailboxLock ?p (Throw ?e)
                         :: ?tr) ?out =>
             apply (@RunSelect c _ [EvGetMailboxLock p (Throw e)] tr out);
             [constructor|]
         end.
    all: try (solve [eapply SelectSearchThrows; cbn; eassumption]).
    all: try (solve [eapply SelectListFailed; cbn;
                     first [eassumption | reflexivity]]).
    all: try (solve [eapply SelectLogThrows;
                     [cbn; first [eassumption | reflexivity] | eassumption]]).
    all: try (solve [eapply SelectSpecialUse;
                     [cbn; eassumption | eassumption |];
                     eauto using ValidateRun]).
    all: try (solve [eapply SelectByName;
                     [cbn; first [eassumption | reflexivity]
                     | eassumption | eassumption |];
                     eauto using ValidateRun]).
    all: try (solve [eapply SelectNotCreated;
                     [cbn; first [eassumption | reflexivity]
                     | eassumption | eassumption | eassumption]]).
    all: try (solve [eapply SelectCreated;
                     [cbn; first [eassumption | reflexivity]
                     | eassumption | eassumption | eassumption |];
                     eauto using ValidateRun]).
Qed.

End Runs.

(** The cases of a run, and of its part from the special-use listing
    on. *)
Ltac run_cases HR :=
  destruct HR as [ | ?e | ?l ?e ?r ?r' | ?inbox ?sel ?out Hi Hsel];
  [ | |
  | destruct Hi;
    destruct Hsel as [ ?rs ?e ?r Hd
                     | ?rs ?found ?e ?r Hd
                     | ?rs ?found ?all ?e ?r Hd Ht
                     | ?rs ?all ?texts ?mb ?vtr ?out Hd Ht Hv
                     | ?rs ?all ?texts ?mb ?vtr ?out Hd Ht Hm Hv
                     | ?rs ?all ?texts ?loopCalls ?r Hd Ht Hm Hl
                     | ?rs ?all ?texts ?loopCalls ?mb ?vtr ?out
                         Hd Ht Hm Hl Hv ] ].

(** A run that reached the special-use listing.  If the search of that
    listing throws, the run ends there.  Otherwise it goes on to the full
    listing; only the calls after that listing can create, append or log
    out; a full listing that fails, or whose flags cannot be read, ends the
    run; and what follows is decided by the two listings: the designated
    folder, else the folder matched by name, else the creation loop, and
    then the validation of the folder found. *)
Lemma Run_listed (cfg : Config) (msg : string) (tr : list Event)
    (out : result ResolutionResult) (rs : result (list Mailbox)) :
  Run cfg msg tr out ->
  specialListing tr = Some rs ->
  match designated rs with
  | Throw e =>
      out = Throw e /\ firstList tr = None /\
      creations tr = [] /\ appends tr = [] /\ exists r, logouts tr = [r]
  | Ok found =>
      exists rl,
        firstList tr = Some rl /\
        creations tr = creations (afterFirstList tr) /\
        appends tr = appends (afterFirstList tr) /\
        logouts tr = logouts (afterFirstList tr) /\
        match rl with
        | Throw e =>
            out = Throw e /\ exists r, afterFirstList tr = [EvLogout r]
        | Ok all =>
            match forEach flagsText all with
            | Throw e =>
                out = Throw e /\ exists r, afterFirstList tr = [EvLogout r]
            | Ok _ =>
                let d := detectDelimiter all in
                match found with
                | Some mb => ValidateRun mb d false msg (afterFirstList tr) out
                | None =>
                    match matchByName all d with
                    | Some mb =>
                        ValidateRun mb d false msg (afterFirstList tr) out
                    | None =>
                        exists loopCalls captured rest,
                          afterFirstList tr = (loopCalls ++ rest)%list /\
                          LoopShape (tryPaths d) loopCalls captured /\
                          match captured with
                          | Some mb => ValidateRun mb d true msg rest out
                          | None =>
                              out = Throw noSentFolderError /\
                              exists r, rest = [EvLogout r]
                          end
                    end
                end
            end
        end
  end.
Proof.
  intros HR Hs. run_cases HR; try discriminate.
  all: cbn in Hs; injection Hs as ->; rewrite Hd; cbn.
  1, 8: repeat (split; [reflexivity|]); eauto.
  all: eexists; split; [reflexivity|]; repeat (split; [reflexivity|]).
  all: cbv zeta; rewrite ?Ht, ?Hm; eauto.
  all: do 3 eexists; split; [reflexivity|]; split; [eassumption|]; cbn; eauto.
Qed.

Lemma In_afterFirstList (e : Event) (tr : list Event) :
  In e (afterFirstList tr) -> In e tr.
Proof.
  induction tr as [|x tr IH]; cbn; [easy|].
  destruct x; auto.
Qed.

(* ================================================================= *)
(** ** Matching by name *)

Lemma mapHas_byPathOf (all : list Mailbox) (k : string) :
  mapHas (byPathOf all) k = true <->
  exists mb, In mb all /\ Js.toLowerCase (path mb) = k.
Proof.
  unfold mapHas, byPathOf. rewrite existsb_exists. split.
  - intros ((k' & mb) & Hin & Hk). cbn in Hk. apply String.eqb_eq in Hk.
    apply in_map_iff in Hin. destruct Hin as (mb' & Heq & Hin).
    injection Heq as <- <-. eauto.
  - intros (mb & Hin & Hk). exists (k, mb). split.
    + apply in_map_iff. exists mb. now rewrite Hk.
    + cbn. apply String.eqb_refl.
Qed.

Lemma mapGet_byPathOf (all : list Mailbox) (k : string) (mb : Mailbox) :
  mapGet (byPathOf all) k = Some mb ->
  In mb all /\ Js.toLowerCase (path mb) = k.
Proof.
  unfold mapGet. destruct (List.find _ _) as [[k' mb']|] eqn:Hf; [|discriminate].
  cbn. intros [= ->]. apply find_some in Hf. destruct Hf as [Hin Hk].
  cbn in Hk. apply String.eqb_eq in Hk. subst k'.
  apply in_rev in Hin. unfold byPathOf in Hin.
  apply in_map_iff in Hin. destruct Hin as (mb' & Heq & Hin).
  injection Heq as Hp <-. now split.
Qed.

Lemma mapGet_of_mapHas (all : list Mailbox) (k : string) :
  mapHas (byPathOf all) k = true ->
  exists mb, mapGet (byPathOf all) k = Some mb.
Proof.
  intros H. unfold mapGet.
  destruct (List.find _ (rev (byPathOf all))) as [kv|] eqn:Hf.
  - now exists (snd kv).
  - exfalso. unfold mapHas in H. apply existsb_exists in H.
    destruct H as (kv & Hin & Hk).
    assert (Hk' : (fst kv =? k) = false)
      by (apply (find_none _ _ Hf kv); now apply in_rev in Hin).
    congruence.
Qed.

Lemma find_first {A} (p : A -> bool) (before after : list A) (x : A) :
  (forall y, In y before -> p y = false) ->
  p x = true ->
  List.find p (before ++ x :: after) = Some x.
Proof.
  intros Hb Hx. induction before as [|y before IH]; cbn.
  - now rewrite Hx.
  - rewrite (Hb y (or_introl eq_refl)). apply IH.
    intros z Hz. apply Hb. now right.
Qed.

(** The folder matched by name: when [c] is the first candidate, in the
    order of the list, whose lowercase form is the lowercase path of a
    listed folder, the folder selected is a listed folder with that
    lowercase path. *)
Lemma matchByName_first (all : list Mailbox) (d : string)
    (before after : list string) (c : string) (mb0 : Mailbox) :
  candidates d = (before ++ c :: after)%list ->
  (forall c' mb', In c' before -> In mb' all ->
     Js.toLowerCase (path mb') <> Js.toLowerCase c') ->
  In mb0 all ->
  Js.toLowerCase (path mb0) = Js.toLowerCase c ->
  exists mb,
    matchByName all d = Some mb /\
    In mb all /\ Js.toLowerCase (path mb) = Js.toLowerCase c.
Proof.
  intros Hc Hb Hin Hlow. unfold matchByName, Js.find. rewrite Hc.
  assert (Hhas : mapHas (byPathOf all) (Js.toLowerCase c) = true)
    by (apply mapHas_byPathOf; eauto).
  rewrite (find_first _ before after c).
  - destruct (mapGet_of_mapHas _ _ Hhas) as (mb & Hg).
    exists mb. split; [exact Hg|]. now apply mapGet_byPathOf.
  - intros c' Hc'.
    destruct (mapHas (byPathOf all) (Js.toLowerCase c')) eqn:Hh; [|reflexivity].
    apply mapHas_byPathOf in Hh. destruct Hh as (mb' & Hin' & Hl').
    now destruct (Hb c' mb' Hc' Hin').
  - exact Hhas.
Qed.

(* ================================================================= *)
(** ** Selection of the Sent folder *)

Section Selection.

Variable S : Type.
Variable client : Client S.
Variable env : Env.
Variable utc : string.

Let msg : string :=
  testMessage (render (Js.orElse (IMAP_USER env) (SMTP_USER env))) utc.

(** What holds of a run once [mb] is the folder that goes to validation
    with [created] still false. *)
Lemma selected_folder_validated (s : St S) (rs : result (list Mailbox))
    (mb : Mailbox) :
  let o := findOrCreateSentBox client env utc s in
  specialListing (trace o) = Some rs ->
  (forall all, firstList (trace o) = Some (Ok all) ->
     ValidateRun mb (detectDelimiter all) false msg
       (afterFirstList (trace o)) (res o)) ->
  (forall r, res o = Ok r -> sentPath r = path mb /\ created r = false) /\
  (forall all, firstList (trace o) = Some (Ok all) ->
     exists r rest,
       afterFirstList (trace o) = EvAppend (path mb) msg probeFlags r :: rest) /\
  (creations (trace o) = [] \/
   creations (trace o) = [path mb] /\
   exists e, In (EvAppend (path mb) msg probeFlags (Throw e)) (trace o) /\
             testTryCreate (Js.describe e) = true) /\
  (existsb succeeded (appends (trace o)) = true ->
   forallb succeeded (logouts (trace o)) = true ->
   exists all,
     firstList (trace o) = Some (Ok all) /\
     res o = Ok {| sentPath := path mb;
                   delimiter := detectDelimiter all;
                   created := false |}).
Proof.
  intros o. subst o. intros Hs Hv.
  pose proof (Run_listed (findOrCreateSentBox_run client env utc s) Hs) as HL.
  destruct (designated rs) as [found|e];
    [|destruct HL as (Hout & Hl & Hc & Ha & r & Hlo); rewrite Hc, Ha;
      split; [|split; [|split]];
      [ intros r0 Hr; congruence | intros all Hall; congruence
      | now left | intros H; discriminate ]].
  destruct HL as (rl & Hl & Hc & Ha & Hlo & Hrest).
  rewrite Hc, Ha, Hlo.
  destruct rl as [all | e].
  - specialize (Hv all Hl). clear Hrest.
    destruct (ValidateRun_facts Hv) as (Hfirst & _ & Hret & Hcr & Hpos).
    split; [|split; [|split]].
    + intros r Hr. rewrite (Hret r Hr). now split.
    + intros all' _. exact Hfirst.
    + destruct Hcr as [Hcr | (Hcr & e & Hin & Ht)]; [now left|].
      right. split; [exact Hcr|]. exists e. split; [|exact Ht].
      now apply In_afterFirstList.
    + intros H1 H2. exists all. split; [exact Hl|]. now apply Hpos.
  - destruct Hrest as (Hout & r & Hafter). rewrite Hafter. cbn.
    split; [|split; [|split]].
    + intros r0 Hr. congruence.
    + intros all Hall. congruence.
    + now left.
    + intros H. discriminate.
Qed.

(** Selection by special use, where the flags can be read.  When the
    search of the special-use listing finds a folder with the Sent
    designation, and the flags of the full listing are arrays or absent,
    the first such folder is the one selected: a run that returns gives
    its exact path with created=false, whether or not another folder
    matches a candidate name; the call that follows the full listing is
    the probe append on that path, so none of the creations of step 4 is
    attempted; the only [mailboxCreate] a run can make is the one of the
    TRYCREATE recovery of the probe, on that same path; and the run returns
    as soon as an append of the probe is accepted and no logout fails. *)
Lemma special_use_selected_when_readable (s : St S) (special : list Mailbox)
    (mb : Mailbox) :
  let o := findOrCreateSentBox client env utc s in
  specialListing (trace o) = Some (Ok special) ->
  findWith isSent special = Ok (Some mb) ->
  (forall all, firstList (trace o) = Some (Ok all) ->
     exists texts, forEach flagsText all = Ok texts) ->
  (forall r, res o = Ok r -> sentPath r = path mb /\ created r = false) /\
  (forall all, firstList (trace o) = Some (Ok all) ->
     exists r rest,
       afterFirstList (trace o) = EvAppend (path mb) msg probeFlags r :: rest) /\
  (creations (trace o) = [] \/
   creations (trace o) = [path mb] /\
   exists e, In (EvAppend (path mb) msg probeFlags (Throw e)) (trace o) /\
             testTryCreate (Js.describe e) = true) /\
  (existsb succeeded (appends (trace o)) = true ->
   forallb succeeded (logouts (trace o)) = true ->
   exists all,
     firstList (trace o) = Some (Ok all) /\
     res o = Ok {| sentPath := path mb;
                   delimiter := detectDelimiter all;
                   created := false |}).
Proof.
  intros o. subst o. intros Hs Hf Hread.
  apply (selected_folder_validated s Hs).
  intros all Hl.
  pose proof (Run_listed (findOrCreateSentBox_run client env utc s) Hs) as HL.
  cbn [designated] in HL. rewrite Hf in HL.
  destruct HL as (rl & Hl' & _ & _ & _ & Hrest).
  rewrite Hl in Hl'. injection Hl' as <-.
  destruct (Hread all Hl) as (texts & Ht). now rewrite Ht in Hrest.
Qed.

(** Selection by name, where the flags can be read.  When the
    special-use listing of a run designates no Sent folder (or fails), the
    flags of the full listing are arrays or absent, and [c] is the first
    candidate
    name, in the fixed order, whose lowercase form is the lowercase path
    of a folder of the full listing, a listed folder with that lowercase
    path is selected: a run that returns gives the path as the server
    listed it, with created=false; the call that follows the full listing
    is the probe append on that path, so none of the creations of step 4
    is attempted; the only [mailboxCreate] a run can make is the one of
    the TRYCREATE recovery of the probe, on that same path; and the run
    returns as soon as an append of the probe is accepted and no logout
    fails. *)
Lemma name_match_selected_when_readable (s : St S) (rs : result (list Mailbox))
    (all : list Mailbox) (texts : list string)
    (before after : list string) (c : string) (mb0 : Mailbox) :
  let o := findOrCreateSentBox client env utc s in
  specialListing (trace o) = Some rs ->
  designated rs = Ok None ->
  firstList (trace o) = Some (Ok all) ->
  forEach flagsText all = Ok texts ->
  candidates (detectDelimiter all) = (before ++ c :: after)%list ->
  (forall c' mb', In c' before -> In mb' all ->
     Js.toLowerCase (path mb') <> Js.toLowerCase c') ->
  In mb0 all ->
  Js.toLowerCase (path mb0) = Js.toLowerCase c ->
  exists mb,
    In mb all /\ Js.toLowerCase (path mb) = Js.toLowerCase c /\
    (forall r, res o = Ok r -> sentPath r = path mb /\ created r = false) /\
    (exists r rest,
       afterFirstList (trace o) = EvAppend (path mb) msg probeFlags r :: rest) /\
    (creations (trace o) = [] \/
     creations (trace o) = [path mb] /\
     exists e, In (EvAppend (path mb) msg probeFlags (Throw e)) (trace o) /\
               testTryCreate (Js.describe e) = true) /\
    (existsb succeeded (appends (trace o)) = true ->
     forallb succeeded (logouts (trace o)) = true ->
     res o = Ok {| sentPath := path mb;
                   delimiter := detectDelimiter all;
                   created := false |}).
Proof.
  intros o. subst o. intros Hs Hd Hl Ht Hc Hb Hin Hlow.
  destruct (@matchByName_first all _ before after c mb0 Hc Hb Hin Hlow)
    as (mb & Hm & Hmin & Hmlow).
  exists mb. split; [exact Hmin|]. split; [exact Hmlow|].
  assert (Hv : forall all',
            firstList (trace (findOrCreateSentBox client env utc s))
              = Some (Ok all') ->
            ValidateRun mb (detectDelimiter all') false msg
              (afterFirstList (trace (findOrCreateSentBox client env utc s)))
              (res (findOrCreateSentBox client env utc s))).
  { intros all' Hl'. rewrite Hl in Hl'. injection Hl' as <-.
    pose proof (Run_listed (findOrCreateSentBox_run client env utc s) Hs)
      as HL.
    rewrite Hd in HL. destruct HL as (rl & Hl'' & _ & _ & _ & Hrest).
    rewrite Hl in Hl''. injection Hl'' as <-.
    rewrite Ht in Hrest. cbn in Hrest. now rewrite Hm in Hrest. }
  destruct (selected_folder_validated s Hs Hv) as (H1 & H2 & H3 & H4).
  split; [exact H1|]. split; [exact (H2 all Hl)|]. split; [exact H3|].
  intros Ha Hlo. destruct (H4 Ha Hlo) as (all' & Hl' & Hr).
  rewrite Hl in Hl'. injection Hl' as <-. exact Hr.
Qed.

End Selection.

(* ================================================================= *)
(** ** Creation of the Sent folder *)

Lemma LoopShape_quiet (paths : list string) (tr : list Event)
    (captured : option Mailbox) :
  LoopShape paths tr captured -> appends tr = [] /\ logouts tr = [].
Proof.
  induction 1; cbn; auto.
Qed.

(** A loop none of whose creations succeeded tried every path, in order,
    and captured nothing. *)
Lemma LoopShape_all_failed (paths : list string) (tr : list Event)
    (captured : option Mailbox) :
  LoopShape paths tr captured ->
  existsb succeeded (creationOutcomes tr) = false ->
  captured = None /\ creations tr = paths.
Proof.
  induction 1 as [|p rest e tr out H IH| | |]; cbn; intros Hf;
    try discriminate.
  - now split.
  - destruct (IH Hf) as [-> Hc]. split; [reflexivity|].
    f_equal. exact Hc.
Qed.

Section Creation.

Variable S : Type.
Variable client : Client S.
Variable env : Env.
Variable utc : string.

Let msg : string :=
  testMessage (render (Js.orElse (IMAP_USER env) (SMTP_USER env))) utc.

(** The creation loop, where the flags can be read.  When the
    special-use listing designates no Sent folder, the flags of the full
    listing are arrays or absent, and no listed folder matches a candidate
    name, the calls after the full listing are those of the creation loop
    over
    INBOX<delim>Sent, INBOX<delim>Sent Items, Sent, in this order and each
    with the \Sent special use: a creation that fails moves on to the next
    path; a creation that succeeds is followed by a new listing; the loop
    stops at the first path that this listing has, whose entry is
    captured, and goes on when the listing fails or lacks the path.  The
    run then probes the captured folder and, if it returns, returns its
    path with created=true.  If nothing was captured, and so whenever all
    three creations failed, the run fails with the one error that stands
    for all the attempts. *)
Lemma creation_fallback_when_readable (s : St S)
    (rs : result (list Mailbox)) (all : list Mailbox) (texts : list string) :
  let o := findOrCreateSentBox client env utc s in
  let d := detectDelimiter all in
  specialListing (trace o) = Some rs ->
  designated rs = Ok None ->
  firstList (trace o) = Some (Ok all) ->
  forEach flagsText all = Ok texts ->
  matchByName all d = None ->
  exists loopCalls captured rest,
    afterFirstList (trace o) = (loopCalls ++ rest)%list /\
    LoopShape ["INBOX" ++ d ++ "Sent"; "INBOX" ++ d ++ "Sent Items"; "Sent"]
      loopCalls captured /\
    match captured with
    | Some mb =>
        (exists r rest',
           rest = EvAppend (path mb) msg probeFlags r :: rest') /\
        (forall r, res o = Ok r -> sentPath r = path mb /\ created r = true)
    | None =>
        res o = Throw noSentFolderError /\ exists r, rest = [EvLogout r]
    end /\
    (existsb succeeded (creationOutcomes loopCalls) = false ->
     creations loopCalls =
       ["INBOX" ++ d ++ "Sent"; "INBOX" ++ d ++ "Sent Items"; "Sent"] /\
     res o = Throw noSentFolderError).
Proof.
  intros o d. subst o d. intros Hs Hd Hl Ht Hm.
  pose proof (Run_listed (findOrCreateSentBox_run client env utc s) Hs) as HL.
  rewrite Hd in HL. destruct HL as (rl & Hl' & _ & _ & _ & Hrest).
  rewrite Hl in Hl'. injection Hl' as <-.
  rewrite Ht in Hrest. cbn in Hrest. rewrite Hm in Hrest.
  destruct Hrest as (loopCalls & captured & rest & Hafter & Hloop & Hcap).
  exists loopCalls, captured, rest.
  split; [exact Hafter|]. split; [exact Hloop|]. split.
  - destruct captured as [mb|].
    + destruct (ValidateRun_facts Hcap) as (Hfirst & _ & Hret & _).
      split; [exact Hfirst|].
      intros r Hr. rewrite (Hret r Hr). now split.
    + exact Hcap.
  - intros Hfail.
    destruct (LoopShape_all_failed Hloop Hfail) as [-> Hcr].
    split; [exact Hcr | apply Hcap].
Qed.

End Creation.

(* ================================================================= *)
(** ** Probe validation *)

(** From the probe on, a run is a run of the probe followed by the logout
    of the success path, or by the logout of the outer [catch]. *)
Lemma ValidateRun_split (mb : Mailbox) (d : string) (c : bool) (msg : string)
    (vtr : list Event) (out : result ResolutionResult) :
  ValidateRun mb d c msg vtr out ->
  exists tr pr post,
    vtr = (tr ++ post)%list /\
    ProbeRun (path mb) msg tr pr /\
    match pr with
    | Ok _ =>
        post = [EvLogout (Ok tt)] /\
        out = Ok {| sentPath := path mb; delimiter := d; created := c |} \/
        exists e r, post = [EvLogout (Throw e); EvLogout r] /\ out = Throw e
    | Throw e => out = Throw e /\ exists r, post = [EvLogout r]
    end.
Proof.
  intros [tr Hp | tr e r Hp | tr e r Hp].
  - exists tr, (Ok tt), [EvLogout (Ok tt)]. repeat split; auto.
  - exists tr, (Ok tt), [EvLogout (Throw e); EvLogout r].
    repeat split; eauto.
  - exists tr, (Throw e), [EvLogout r]. repeat split; eauto.
Qed.

Lemma Run_validation (cfg : Config) (msg : string) (tr : list Event)
    (out : result ResolutionResult) :
  Run cfg msg tr out ->
  (appends tr = [] /\ exists e, out = Throw e) \/
  exists pre p ptr pr post,
    tr = (pre ++ ptr ++ post)%list /\
    appends pre = [] /\
    ProbeRun p msg ptr pr /\
    match pr with
    | Ok _ =>
        post = [EvLogout (Ok tt)] /\
        (exists d c,
           out = Ok {| sentPath := p; delimiter := d; created := c |}) \/
        exists e r, post = [EvLogout (Throw e); EvLogout r] /\ out = Throw e
    | Throw e => out = Throw e /\ exists r, post = [EvLogout r]
    end.
Proof.
  intros HR.
  destruct HR as [ | e | l e r r' | inbox sel out Hi Hsel];
    try (left; split; [reflexivity | eauto]; fail).
  assert (Hinbox : appends (EvConnect cfg (Ok tt) :: inbox) = [])
    by (destruct Hi; reflexivity).
  destruct Hsel as [ rs e r Hd | rs found e r Hd | rs found all e r Hd Ht
                   | rs all texts mb vtr out Hd Ht Hv
                   | rs all texts mb vtr out Hd Ht Hm Hv
                   | rs all texts loopCalls r Hd Ht Hm Hl
                   | rs all texts loopCalls mb vtr out Hd Ht Hm Hl Hv].
  1-3: left; rewrite app_comm_cons, appends_app, Hinbox; eauto.
  - right. destruct (ValidateRun_split Hv) as (ptr & pr & post & -> & Hp & Hout).
    exists ((EvConnect cfg (Ok tt) :: inbox)
              ++ [EvListSpecialUse rs; EvList (Ok all)])%list,
      (path mb), ptr, pr, post.
    split; [now rewrite <- !app_assoc|].
    split; [now rewrite appends_app, Hinbox|].
    split; [exact Hp|].
    destruct pr; [destruct Hout as [(Hpost & Hout)|Hout]; [left|right]|]; eauto.
  - right. destruct (ValidateRun_split Hv) as (ptr & pr & post & -> & Hp & Hout).
    exists ((EvConnect cfg (Ok tt) :: inbox)
              ++ [EvListSpecialUse rs; EvList (Ok all)])%list,
      (path mb), ptr, pr, post.
    split; [now rewrite <- !app_assoc|].
    split; [now rewrite appends_app, Hinbox|].
    split; [exact Hp|].
    destruct pr; [destruct Hout as [(Hpost & Hout)|Hout]; [left|right]|]; eauto.
  - left. destruct (LoopShape_quiet Hl) as (Ha & _).
    rewrite app_comm_cons, appends_app, Hinbox.
    change (EvListSpecialUse rs :: EvList (Ok all) :: loopCalls ++ [EvLogout r])
      with ([EvListSpecialUse rs; EvList (Ok all)] ++ loopCalls ++ [EvLogout r])%list.
    rewrite !appends_app, Ha. eauto.
  - right. destruct (ValidateRun_split Hv) as (ptr & pr & post & -> & Hp & Hout).
    destruct (LoopShape_quiet Hl) as (Ha & _).
    exists ((EvConnect cfg (Ok tt) :: inbox)
              ++ [EvListSpecialUse rs; EvList (Ok all)] ++ loopCalls)%list,
      (path mb), ptr, pr, post.
    split; [now rewrite <- !app_assoc|].
    split; [now rewrite !appends_app, Hinbox, Ha|].
    split; [exact Hp|].
    destruct pr; [destruct Hout as [(Hpost & Hout)|Hout]; [left|right]|]; eauto.
Qed.

Section Validation.

Variable S : Type.
Variable client : Client S.

(** The probe, on any path and in any state of the server, runs in one
    of five ways ([ProbeRun]).  The append is accepted: the probe ends
    well whatever the cleanup calls do, and a cleanup call that fails
    leaves a line in the log.  The append is refused without a TRYCREATE
    hint: the session is logged out and the probe throws at once, with no
    other call.  The append is refused with a TRYCREATE hint: there is
    exactly one [mailboxCreate] on the path and, if it succeeds, exactly
    one more append; the probe ends well if both succeed, and otherwise
    throws an error that carries the message of the server's error,
    provided the logout before the [throw] succeeds.  In
    [findOrCreateSentBox] the appends are those of the probe: when the
    probe throws, the run throws the same error; when it ends well, the
    run returns the probed path, provided the closing logout succeeds. *)
Lemma probe_runs (env : Env) (utc : string) (s : St S) :
  (forall user p s',
     let o := probe client user utc p s' in
     ProbeRun p (testMessage user utc) (trace o) (res o) /\
     (existsb (fun e => isCleanupCall e && failed e) (trace o) = true ->
      exists m, In (LCleanupFailed m) (log o))) /\
  let o := findOrCreateSentBox client env utc s in
  let msg :=
    testMessage (render (Js.orElse (IMAP_USER env) (SMTP_USER env))) utc in
  (appends (trace o) = [] /\ exists e, res o = Throw e) \/
  exists pre p ptr pr post,
    trace o = (pre ++ ptr ++ post)%list /\
    appends pre = [] /\
    ProbeRun p msg ptr pr /\
    match pr with
    | Ok _ =>
        post = [EvLogout (Ok tt)] /\
        (exists d c,
           res o = Ok {| sentPath := p; delimiter := d; created := c |}) \/
        exists e r,
          post = [EvLogout (Throw e); EvLogout r] /\ res o = Throw e
    | Throw e => res o = Throw e /\ exists r, post = [EvLogout r]
    end.
Proof.
  split.
  - intros user p s'. destruct (probe_run client user utc p s') as (H & _ & Hl).
    now split.
  - exact (Run_validation (findOrCreateSentBox_run client env utc s)).
Qed.

End Validation.

(* ================================================================= *)
(** ** The delimiter of the result *)



Section SelectionExamples.

Import Scripted.

(** A server that marks Correo/Salida as its Sent folder and also has a
    folder named Sent, the flags of its listings being arrays: the
    designated folder is returned, and nothing is created. *)
Example special_use_selected_example :
  let o := findOrCreateSentBox (client designatedElsewhere) env utc initial in
  let mb := sentFolder "Correo/Salida" in
  let msg := testMessage "relay@example.com" utc in
  (forall r, res o = Ok r -> sentPath r = "Correo/Salida" /\ created r = false) /\
  (forall all, firstList (trace o) = Some (Ok all) ->
     exists r rest,
       afterFirstList (trace o) = EvAppend "Correo/Salida" msg probeFlags r :: rest) /\
  (creations (trace o) = [] \/
   creations (trace o) = ["Correo/Salida"] /\
   exists e, In (EvAppend "Correo/Salida" msg probeFlags (Throw e)) (trace o) /\
             testTryCreate (Js.describe e) = true) /\
  (existsb succeeded (appends (trace o)) = true ->
   forallb succeeded (logouts (trace o)) = true ->
   exists all,
     firstList (trace o) = Some (Ok all) /\
     res o = Ok {| sentPath := "Correo/Salida";
                   delimiter := detectDelimiter all;
                   created := false |}).
Proof.
  intros o mb msg.
  apply (@special_use_selected_when_readable State (client designatedElsewhere)
           env utc initial [mb] mb eq_refl eq_refl).
  intros all H. vm_compute in H. injection H as <-. eexists. reflexivity.
Qed.

(** On a server that designates Sent by special use and answers the first
    probe append with TRYCREATE, the run returns the designated path with
    created=false, and it has created a folder on the way. *)
Example special_use_sent_may_create :
  let o := findOrCreateSentBox (client designatedButAbsent) env utc initial in
  specialListing (trace o) = Some (Ok [sentFolder "Sent"]) /\
  findWith isSent [sentFolder "Sent"] = Ok (Some (sentFolder "Sent")) /\
  res o = Ok {| sentPath := "Sent"; delimiter := "/"; created := false |} /\
  creations (trace o) = ["Sent"] /\
  ~ (forall p su r, ~ In (EvMailboxCreate p su r) (trace o)).
Proof.
  cbv zeta. repeat (split; [reflexivity|]).
  intros H. apply (H "Sent" "\Sent" (Ok tt)). vm_compute. tauto.
Qed.

(** A server without special use that lists Gesendet and SENT ITEMS, with
    flags that are arrays: the first candidate with a match is the second
    one, Sent Items, and the path returned is the one the server listed. *)
Example name_match_selected_example :
  let o := findOrCreateSentBox (client namedOnly) env utc initial in
  let all := [folder "INBOX"; folder "Gesendet"; folder "SENT ITEMS"] in
  let msg := testMessage "relay@example.com" utc in
  exists mb,
    In mb all /\ Js.toLowerCase (path mb) = Js.toLowerCase "Sent Items" /\
    (forall r, res o = Ok r -> sentPath r = path mb /\ created r = false) /\
    (exists r rest,
       afterFirstList (trace o) = EvAppend (path mb) msg probeFlags r :: rest) /\
    (creations (trace o) = [] \/
     creations (trace o) = [path mb] /\
     exists e, In (EvAppend (path mb) msg probeFlags (Throw e)) (trace o) /\
               testTryCreate (Js.describe e) = true) /\
    (existsb succeeded (appends (trace o)) = true ->
     forallb succeeded (logouts (trace o)) = true ->
     res o = Ok {| sentPath := path mb;
                   delimiter := detectDelimiter all;
                   created := false |}).
Proof.
  intros o all msg.
  assert (Hb : forall c' mb', In c' ["Sent"] -> In mb' all ->
             Js.toLowerCase (path mb') <> Js.toLowerCase c').
  { intros c' mb' [<-|[]] Hin. cbn in Hin.
    destruct Hin as [<-|[<-|[<-|[]]]]; vm_compute; discriminate. }
  exact (@name_match_selected_when_readable State (client namedOnly) env utc
           initial (Ok []) all _ ["Sent"] _ "Sent Items" (folder "SENT ITEMS")
           eq_refl eq_refl eq_refl eq_refl eq_refl Hb
           (or_intror (or_intror (or_introl eq_refl))) eq_refl).
Qed.

(** In the same way the folder Enviados, found by name, is created by the
    TRYCREATE recovery before the run returns it with created=false. *)
Example name_match_may_create :
  let o := findOrCreateSentBox (client namedButAbsent) env utc initial in
  specialListing (trace o) = Some (Ok []) /\
  firstList (trace o) = Some (Ok [folder "INBOX"; folder "Enviados"]) /\
  res o = Ok {| sentPath := "Enviados"; delimiter := "/"; created := false |} /\
  creations (trace o) = ["Enviados"] /\
  ~ (forall p su r, ~ In (EvMailboxCreate p su r) (trace o)).
Proof.
  cbv zeta. repeat (split; [reflexivity|]).
  intros H. apply (H "Enviados" "\Sent" (Ok tt)). vm_compute. tauto.
Qed.

(** On a server with nothing but INBOX, listed with flags that are an
    array, the first path is created, listed and captured. *)
Example creation_fallback_example :
  let o := findOrCreateSentBox (client bare) env utc initial in
  let o' := findOrCreateSentBox (client readOnly) env utc initial in
  (creations (trace o) = ["INBOX/Sent"] /\
   res o = Ok {| sentPath := "INBOX/Sent"; delimiter := "/"; created := true |}) /\
  (creations (trace o') = ["INBOX/Sent"; "INBOX/Sent Items"; "Sent"] /\
   res o' = Throw noSentFolderError) /\
  exists loopCalls captured rest,
    afterFirstList (trace o) = (loopCalls ++ rest)%list /\
    LoopShape ["INBOX/Sent"; "INBOX/Sent Items"; "Sent"] loopCalls captured /\
    match captured with
    | Some mb =>
        (exists r rest',
           rest = EvAppend (path mb) (testMessage "relay@example.com" utc)
                    probeFlags r :: rest') /\
        (forall r, res o = Ok r -> sentPath r = path mb /\ created r = true)
    | None =>
        res o = Throw noSentFolderError /\ exists r, rest = [EvLogout r]
    end /\
    (existsb succeeded (creationOutcomes loopCalls) = false ->
     creations loopCalls = ["INBOX/Sent"; "INBOX/Sent Items"; "Sent"] /\
     res o = Throw noSentFolderError).
Proof.
  intros o o'.
  split; [split; reflexivity|]. split; [split; reflexivity|].
  exact (@creation_fallback_when_readable State (client bare) env utc initial
           (Ok []) [folder "INBOX"] _ eq_refl eq_refl eq_refl eq_refl eq_refl).
Qed.

(** The loop stops on a captured entry, not on a creation that succeeds:
    on a server whose listing never shows the folders created, the three
    folders are created, and the run fails although no creation attempt
    failed. *)
Example creation_goes_on_after_success :
  let o := findOrCreateSentBox (client hidesCreated) env utc initial in
  specialListing (trace o) = Some (Ok []) /\
  firstList (trace o) = Some (Ok [folder "INBOX"]) /\
  matchByName [folder "INBOX"] "/" = None /\
  creations (trace o) = ["INBOX/Sent"; "INBOX/Sent Items"; "Sent"] /\
  creationOutcomes (trace o) = [Ok tt; Ok tt; Ok tt] /\
  res o = Throw noSentFolderError.
Proof.
  cbv zeta. repeat split; vm_compute; reflexivity.
Qed.

End SelectionExamples.

(* ================================================================= *)
(** ** Listings as imapflow gives them *)

Lemma flagsText_throws (mb : Mailbox) (e : Js.Error) :
  flagsText mb = Throw e ->
  e = Js.mkError "mb.flags.join is not a function".
Proof.
  unfold flagsText. destruct (flags mb); congruence.
Qed.

(** The lines logged for a listing cannot be written as soon as one entry
    has flags that are a [Set]. *)
Lemma forEach_flagsText_set (all : list Mailbox) (mb : Mailbox)
    (names : list string) :
  In mb all -> flags mb = FlagsSet names ->
  forEach flagsText all = Throw (Js.mkError "mb.flags.join is not a function").
Proof.
  induction all as [|x all IH]; intros Hin Hf; [destruct Hin|].
  cbn [forEach]. destruct (flagsText x) as [t|e] eqn:Hx.
  - destruct Hin as [->|Hin].
    + unfold flagsText in Hx. rewrite Hf in Hx. discriminate.
    + now rewrite (IH Hin Hf).
  - now rewrite (flagsText_throws _ Hx).
Qed.

(** The search of a special-use listing throws as soon as its first entry
    has flags that are a [Set]. *)
Lemma findWith_isSent_set (mb : Mailbox) (rest : list Mailbox)
    (names : list string) :
  flags mb = FlagsSet names ->
  findWith isSent (mb :: rest) =
    Throw (Js.mkError "mb.flags.includes is not a function").
Proof.
  intros Hf. cbn [findWith]. unfold isSent. now rewrite Hf.
Qed.

(** A run whose search of the special-use listing throws ends there: the
    error is the one thrown, the folders are never listed, and nothing is
    created or appended. *)
Lemma Run_search_throws (cfg : Config) (msg : string) (tr : list Event)
    (out : result ResolutionResult) (special : list Mailbox) (e : Js.Error) :
  Run cfg msg tr out ->
  specialListing tr = Some (Ok special) ->
  findWith isSent special = Throw e ->
  out = Throw e /\ firstList tr = None /\
  creations tr = [] /\ appends tr = [] /\ exists r, logouts tr = [r].
Proof.
  intros HR Hs Hf. pose proof (Run_listed HR Hs) as HL.
  cbn [designated] in HL. now rewrite Hf in HL.
Qed.

(** A run whose full listing has flags that cannot be read ends right
    after that listing: the error is the one thrown, and nothing is
    created or appended. *)
Lemma Run_log_throws (cfg : Config) (msg : string) (tr : list Event)
    (out : result ResolutionResult) (all : list Mailbox) (e : Js.Error) :
  Run cfg msg tr out ->
  firstList tr = Some (Ok all) ->
  forEach flagsText all = Throw e ->
  out = Throw e /\ (exists r, afterFirstList tr = [EvLogout r]) /\
  creations tr = [] /\ appends tr = [].
Proof.
  intros HR Hfirst Hthrow. run_cases HR; try discriminate.
  all: cbn in Hfirst; injection Hfirst as <-; try congruence.
  all: rewrite Hthrow in Ht; injection Ht as <-; cbn; eauto.
Qed.

Section SetFlags.

Import Scripted.

(** C1, where the code departs from it.  imapflow lists every folder with
    flags that are a [Set], and the search of the special-use listing
    calls [includes] on the flags of its entries.  So on every server whose
    special-use listing has a first entry with such flags, whether or not
    it carries the Sent designation, the run throws the TypeError of that
    call right after the listing: the folders are never listed, no path is
    returned, nothing is created or appended.  On a server that designates
    Sent by special use the run is: connect, lock and release of INBOX,
    the special-use listing, logout. *)
Theorem special_use_search_throws :
  (forall S (client : Client S) env utc s mb rest names,
     let o := findOrCreateSentBox client env utc s in
     specialListing (trace o) = Some (Ok (mb :: rest)) ->
     flags mb = FlagsSet names ->
     res o = Throw (Js.mkError "mb.flags.includes is not a function") /\
     firstList (trace o) = None /\
     creations (trace o) = [] /\ appends (trace o) = [] /\
     exists r, logouts (trace o) = [r]) /\
  let o := findOrCreateSentBox (client designatedAsSet) env utc initial in
  specialListing (trace o) = Some (Ok [listedSent "Sent"]) /\
  specialUse (listedSent "Sent") = Some "\Sent" /\
  res o = Throw (Js.mkError "mb.flags.includes is not a function") /\
  trace o =
    [EvConnect (imapConfig env "relay@example.com" "secret") (Ok tt);
     EvGetMailboxLock "INBOX" (lockOf "INBOX");
     EvRelease {| lock_path := "INBOX" |} (Ok tt);
     EvListSpecialUse (Ok [listedSent "Sent"]);
     EvLogout (Ok tt)] /\
  log o = [LFatal "mb.flags.includes is not a function"].
Proof.
  split.
  - intros S client env utc s mb rest names o Hs Hf. subst o.
    exact (Run_search_throws (findOrCreateSentBox_run client env utc s) Hs
             (findWith_isSent_set mb rest Hf)).
  - cbv zeta. repeat split; vm_compute; reflexivity.
Qed.

(** C2, where the code departs from it.  After the full listing the code
    logs one line per folder and calls [join] on its flags.  So on every
    server whose full listing has an entry with flags that are a [Set],
    the run throws the TypeError of that call right after the listing,
    before any name is matched: no path is returned, also when a listed
    folder has the name of a candidate, and the only call left is the
    logout.  On a server without special-use folders that lists INBOX and
    Sent the run is: connect, lock and release of INBOX, the two listings,
    logout. *)
Theorem name_match_unreached :
  (forall S (client : Client S) env utc s all mb names mb0,
     let o := findOrCreateSentBox client env utc s in
     firstList (trace o) = Some (Ok all) ->
     In mb all -> flags mb = FlagsSet names ->
     matchByName all (detectDelimiter all) = Some mb0 ->
     res o = Throw (Js.mkError "mb.flags.join is not a function") /\
     (exists r, afterFirstList (trace o) = [EvLogout r]) /\
     appends (trace o) = []) /\
  let o := findOrCreateSentBox (client namedAsSet) env utc initial in
  let all := [listed "INBOX"; listed "Sent"] in
  matchByName all (detectDelimiter all) = Some (listed "Sent") /\
  res o = Throw (Js.mkError "mb.flags.join is not a function") /\
  trace o =
    [EvConnect (imapConfig env "relay@example.com" "secret") (Ok tt);
     EvGetMailboxLock "INBOX" (lockOf "INBOX");
     EvRelease {| lock_path := "INBOX" |} (Ok tt);
     EvListSpecialUse (Ok []);
     EvList (Ok all);
     EvLogout (Ok tt)] /\
  log o = [LFatal "mb.flags.join is not a function"].
Proof.
  split.
  - intros S client env utc s all mb names mb0 o Hl Hin Hf _. subst o.
    destruct (Run_log_throws (findOrCreateSentBox_run client env utc s) Hl
                (forEach_flagsText_set all mb Hin Hf))
      as (Hres & Hafter & _ & Ha).
    now repeat split.
  - cbv zeta. repeat split; vm_compute; reflexivity.
Qed.

(** C3, where the code departs from it.  The creation loop is not
    reached: after the full listing the code logs one line per folder and
    calls [join] on its flags, so on every server whose full listing has
    an entry with flags that are a [Set] and no folder with the name of a
    candidate, the run throws the TypeError of that call right after the
    listing and no creation is attempted.  On a server with nothing but
    INBOX the run is: connect, lock and release of INBOX, the two
    listings, logout. *)
Theorem creation_unreached :
  (forall S (client : Client S) env utc s all mb names,
     let o := findOrCreateSentBox client env utc s in
     firstList (trace o) = Some (Ok all) ->
     In mb all -> flags mb = FlagsSet names ->
     matchByName all (detectDelimiter all) = None ->
     res o = Throw (Js.mkError "mb.flags.join is not a function") /\
     creations (trace o) = [] /\
     exists r, afterFirstList (trace o) = [EvLogout r]) /\
  let o := findOrCreateSentBox (client bareAsSet) env utc initial in
  let all := [listed "INBOX"] in
  matchByName all (detectDelimiter all) = None /\
  res o = Throw (Js.mkError "mb.flags.join is not a function") /\
  creations (trace o) = [] /\
  trace o =
    [EvConnect (imapConfig env "relay@example.com" "secret") (Ok tt);
     EvGetMailboxLock "INBOX" (lockOf "INBOX");
     EvRelease {| lock_path := "INBOX" |} (Ok tt);
     EvListSpecialUse (Ok []);
     EvList (Ok all);
     EvLogout (Ok tt)].
Proof.
  split.
  - intros S client env utc s all mb names o Hl Hin Hf _. subst o.
    destruct (Run_log_throws (findOrCreateSentBox_run client env utc s) Hl
                (forEach_flagsText_set all mb Hin Hf))
      as (Hres & Hafter & Hc & _).
    now repeat split.
  - cbv zeta. repeat split; vm_compute; reflexivity.
Qed.

End SetFlags.

(* ================================================================= *)
(** ** The Sent-copy appender *)

Section AppenderProperties.

Variable S : Type.
Variable client : Client S.

(** The runs of [appendToSent]: it always ends well; either it makes no
    call at all, or it connects first and logs out last, exactly once. *)
Lemma appendToSent_run (env : Env) (raw : Js.value) (s : St S) :
  let o := appendToSent client env raw s in
  res o = Ok tt /\
  (trace o = [] /\ state o = s \/
   (exists cfg r rest, trace o = EvConnect cfg r :: rest) /\
   (exists r, logouts (trace o) = [r]) /\
   exists pre r, trace o = (pre ++ [EvLogout r])%list).
Proof.
  unfold appendToSent.
  destruct (negb (Js.strictEq _ _)); [cbn; auto|].
  destruct (negb _ || negb _); [cbn; auto|].
  destruct (negb _ || negb _); [cbn; auto|].
  unfold openMailbox, fallbackMailboxes. cbn [fallbackLoop].
  generalize (imapConfig env
    (render (Js.orElse (IMAP_USER env) (SMTP_USER env)))
    (render (Js.orElse (IMAP_PASS env) (SMTP_PASS env)))).
  intros cfg. unfold_calls. run_all.
  all: split; [reflexivity|right].
  all: split; [eauto|split; [eauto|]].
  all: match goal with
       | |- exists pre r, ?tr = _ =>
           exists (removelast tr), (match last tr (EvLogout (Ok tt)) with
                                    | EvLogout r => r
                                    | _ => Ok tt
                                    end); reflexivity
       end.
Qed.

(** C7.  [appendToSent] never throws: whatever the message, the
    environment and the outcome of the connection, of the mailbox locks,
    of the append, of the release and of the logout, it ends well.  With
    the flag off, the credentials missing or the message missing, it makes
    no call to the server.  The response of POST /send does not depend on
    the IMAP server: it is the same on any two servers in any two states,
    and the append launched in the background ends well. *)
Theorem appendToSent_never_throws (env : Env) (raw : Js.value) (s : St S) :
  let o := appendToSent client env raw s in
  res o = Ok tt /\
  (Js.strictEq (SAVE_SENT_COPY env) "true" = false \/
   Js.truthy (Js.orElse (IMAP_USER env) (SMTP_USER env)) = false \/
   Js.truthy (Js.orElse (IMAP_PASS env) (SMTP_PASS env)) = false \/
   Js.toBoolean raw = false ->
   trace o = [] /\ state o = s) /\
  (forall RequestBody Details Attachment
          (validateSendEmail : RequestBody -> Validation Details Attachment)
          (sendMail : MailOptions -> option (list Attachment) -> result SendInfo)
          (rnd : Entropy) (reqBody : RequestBody),
     let answer := postSend validateSendEmail sendMail client env rnd reqBody s in
     (forall S' (client' : Client S') (s' : St S'),
        fst answer =
        fst (postSend validateSendEmail sendMail client' env rnd reqBody s')) /\
     (forall background, snd answer = Some background ->
        res background = Ok tt)).
Proof.
  split; [apply appendToSent_run|]. split.
  - intros H. unfold appendToSent.
    destruct (Js.strictEq _ _); [|cbn; auto].
    destruct (Js.truthy (Js.orElse (IMAP_USER env) _)); [|cbn; auto].
    destruct (Js.truthy (Js.orElse (IMAP_PASS env) _)); [|cbn; auto].
    destruct (Js.toBoolean raw); [|cbn; auto].
    destruct H as [H|[H|[H|H]]]; discriminate.
  - intros RequestBody Details Attachment validateSendEmail sendMail rnd
      reqBody answer. subst answer. unfold postSend. split.
    + intros S' client' s'.
      destruct (validateSendEmail reqBody) as [data|error]; [|reflexivity].
      destruct (sendMail _ _); reflexivity.
    + intros background.
      destruct (validateSendEmail reqBody) as [data|error]; [|discriminate].
      destruct (sendMail _ _); [|discriminate].
      cbn [snd]. destruct (Js.strictEq _ _); [|discriminate].
      intros [= <-]. unfold tryCatch.
      destruct (appendToSent_run env
                  (Js.VString (buildRFC822Message (mailOptionsOf env data)
                                 (FROM_EMAIL env) rnd)) s) as (Hres & _).
      destruct (appendToSent client env _ s) as [r st tr lg].
      cbn in Hres. now subst r.
Qed.

(** C10.  With the flag on and the credentials present, a message that is
    not a string (a Buffer, an object, undefined, ...) makes
    [appendToSent] end well without creating a client: no call is made,
    the state is untouched, and the one line logged says the message is
    invalid. *)
Theorem appendToSent_rejects_non_string (env : Env) (raw : Js.value)
    (s : St S) :
  Js.strictEq (SAVE_SENT_COPY env) "true" = true ->
  Js.truthy (Js.orElse (IMAP_USER env) (SMTP_USER env)) = true ->
  Js.truthy (Js.orElse (IMAP_PASS env) (SMTP_PASS env)) = true ->
  Js.typeof raw <> "string" ->
  let o := appendToSent client env raw s in
  res o = Ok tt /\ trace o = [] /\ state o = s /\ log o = [LInvalidRaw].
Proof.
  intros Hflag Huser Hpass Htype. unfold appendToSent.
  rewrite Hflag, Huser, Hpass. cbn [negb orb].
  apply String.eqb_neq in Htype. rewrite Htype.
  rewrite orb_true_r. cbn. now repeat split.
Qed.

End AppenderProperties.

Section AppenderExamples.

Import Scripted.

(** A Buffer, a plain object and undefined are all turned away before any
    call to the server. *)
Lemma appendToSent_rejects_non_string_witness :
  let run raw := appendToSent (client (healthy [] [])) env raw initial in
  (Js.strictEq (SAVE_SENT_COPY env) "true" = true /\
   Js.truthy (Js.orElse (IMAP_USER env) (SMTP_USER env)) = true /\
   Js.truthy (Js.orElse (IMAP_PASS env) (SMTP_PASS env)) = true /\
   Js.typeof (Js.VBuffer ["S"%char; "u"%char]) <> "string" /\
   Js.typeof Js.VObject <> "string" /\
   Js.typeof Js.VUndefined <> "string") /\
  (res (run (Js.VBuffer ["S"%char; "u"%char])) = Ok tt /\
   trace (run (Js.VBuffer ["S"%char; "u"%char])) = [] /\
   state (run (Js.VBuffer ["S"%char; "u"%char])) = initial /\
   log (run (Js.VBuffer ["S"%char; "u"%char])) = [LInvalidRaw]) /\
  (res (run Js.VObject) = Ok tt /\ trace (run Js.VObject) = [] /\
   state (run Js.VObject) = initial /\ log (run Js.VObject) = [LInvalidRaw]) /\
  (res (run Js.VUndefined) = Ok tt /\ trace (run Js.VUndefined) = [] /\
   state (run Js.VUndefined) = initial /\
   log (run Js.VUndefined) = [LInvalidRaw]).
Proof.
  intros run.
  assert (Hb : Js.typeof (Js.VBuffer ["S"%char; "u"%char]) <> "string")
    by discriminate.
  assert (Ho : Js.typeof Js.VObject <> "string") by discriminate.
  assert (Hu : Js.typeof Js.VUndefined <> "string") by discriminate.
  split; [repeat split; assumption|].
  split; [|split].
  - exact (@appendToSent_rejects_non_string State (client (healthy [] []))
             env (Js.VBuffer ["S"%char; "u"%char]) initial eq_refl eq_refl eq_refl Hb).
  - exact (@appendToSent_rejects_non_string State (client (healthy [] []))
             env Js.VObject initial eq_refl eq_refl eq_refl Ho).
  - exact (@appendToSent_rejects_non_string State (client (healthy [] []))
             env Js.VUndefined initial eq_refl eq_refl eq_refl Hu).
Defined.

End AppenderExamples.

(* ================================================================= *)
(** ** Closing the session *)

(** From the probe on, a run that returns has logged out once, with
    success; a run that throws has logged out twice: once on the way to the
    [throw] (or on the success path, when that logout fails), and once more
    in the outer [catch]. *)
Lemma ValidateRun_logouts (mb : Mailbox) (d : string) (c : bool)
    (msg : string) (tr : list Event) (out : result ResolutionResult) :
  ValidateRun mb d c msg tr out ->
  match out with
  | Ok _ => logouts tr = [Ok tt]
  | Throw _ => exists r r', logouts tr = [r; r']
  end.
Proof.
  intros [ptr Hp | ptr e r Hp | ptr e r Hp];
    destruct (ProbeRun_facts Hp) as (_ & _ & _ & Hl); cbn in Hl;
    rewrite logouts_app.
  - destruct Hl as (-> & _). reflexivity.
  - destruct Hl as (-> & _). cbn. eauto.
  - destruct Hl as ((r0 & ->) & _). cbn. eauto.
Qed.

(** Every run of the discovery that connected logs out, once or twice. *)
Lemma Run_logouts (cfg : Config) (msg : string) (tr : list Event)
    (out : result ResolutionResult) :
  Run cfg msg tr out ->
  In (EvConnect cfg (Ok tt)) tr ->
  (exists r, logouts tr = [r]) \/ (exists r r', logouts tr = [r; r']).
Proof.
  intros HR Hin.
  destruct HR as [ | e | l e r r' | inbox sel out Hi Hsel].
  - destruct Hin.
  - destruct Hin as [[=]|[]].
  - left. cbn. eauto.
  - assert (Hinbox : logouts (EvConnect cfg (Ok tt) :: inbox) = [])
      by (destruct Hi; reflexivity).
    rewrite app_comm_cons, logouts_app, Hinbox. cbn [app].
    destruct Hsel as [ rs e r Hd | rs found e r Hd | rs found all e r Hd Ht
                     | rs all texts mb vtr out Hd Ht Hv
                     | rs all texts mb vtr out Hd Ht Hm Hv
                     | rs all texts loopCalls r Hd Ht Hm Hl
                     | rs all texts loopCalls mb vtr out Hd Ht Hm Hl Hv].
    1-3: left; cbn; eauto.
    + pose proof (ValidateRun_logouts Hv) as H. destruct out; cbn; eauto.
    + pose proof (ValidateRun_logouts Hv) as H. destruct out; cbn; eauto.
    + destruct (LoopShape_quiet Hl) as (_ & Hq).
      left. exists r.
      change (EvListSpecialUse rs :: EvList (Ok all) :: loopCalls ++ [EvLogout r])
        with ([EvListSpecialUse rs; EvList (Ok all)] ++ loopCalls ++ [EvLogout r])%list.
      now rewrite !logouts_app, Hq.
    + destruct (LoopShape_quiet Hl) as (_ & Hq).
      pose proof (ValidateRun_logouts Hv) as H.
      change (EvListSpecialUse rs :: EvList (Ok all) :: loopCalls ++ vtr)
        with ([EvListSpecialUse rs; EvList (Ok all)] ++ loopCalls ++ vtr)%list.
      rewrite !logouts_app, Hq. cbn [app logouts flat_map].
      destruct out; eauto.
Qed.

Section SessionExamples.

Import Scripted.

(** C6, where the code departs from it.  On a server that refuses the
    probe append for lack of room, [findOrCreateSentBox] logs out before it
    throws and again in its outer [catch]: two logouts for one session.  On
    a server where all goes well until the logout, the failure of that
    logout is not swallowed: the run throws it, after a second logout,
    although the folder was found and the probe accepted. *)
Theorem findOrCreateSentBox_logs_out_twice :
  let o := findOrCreateSentBox (client overQuota) env utc initial in
  let o' := findOrCreateSentBox (client dropsOnLogout) env utc initial in
  (res o = Throw (Js.mkError "APPEND falló: NO [OVERQUOTA] Quota exceeded") /\
   logouts (trace o) = [Ok tt; Ok tt]) /\
  (appends (trace o') = [Ok tt] /\
   res o' = Throw (Js.mkError "Connection closed unexpectedly") /\
   logouts (trace o') =
     [Throw (Js.mkError "Connection closed unexpectedly"); Ok tt]).
Proof.
  cbv zeta. repeat split; vm_compute; reflexivity.
Qed.

(** C4, where the code departs from it.  The probe does what the claim
    says on every server ([probe_runs]): one creation and one retry after
    a TRYCREATE refusal, success when the retry is accepted, failure
    otherwise, no propagation from the cleanup.  What is lost is the
    outcome, when a logout fails.  On a server that answers the first
    append with TRYCREATE and accepts the creation and the retry, the
    resolution still fails if the closing logout fails.  On a server that
    refuses the retry too, the error thrown is the one of the logout
    awaited before the [throw], when that logout fails, and not the one
    that carries the server's error. *)
Theorem probe_outcome_lost_on_logout :
  let o := findOrCreateSentBox (client recoversThenDrops) env utc initial in
  let o' := findOrCreateSentBox (client refusesThenDrops) env utc initial in
  (appends (trace o) =
     [failure "NO [TRYCREATE] Mailbox doesn't exist: Sent"; Ok tt] /\
   creations (trace o) = ["Sent"] /\
   res o = Throw (Js.mkError "Connection closed unexpectedly")) /\
  (appends (trace o') =
     [failure "NO [TRYCREATE] Mailbox doesn't exist";
      failure "NO [TRYCREATE] Mailbox doesn't exist"] /\
   creations (trace o') = ["Sent"] /\
   res o' = Throw (Js.mkError "Connection closed unexpectedly")).
Proof.
  cbv zeta. repeat split; vm_compute; reflexivity.
Qed.

(** The probe on a server that answers the first append with TRYCREATE
    and accepts the creation and the second append: the run returns.  On a
    server that refuses both appends, it fails. *)
Example trycreate_then_accepted :
  let o := findOrCreateSentBox (client designatedButAbsent) env utc initial in
  res o = Ok {| sentPath := "Sent"; delimiter := "/"; created := false |} /\
  appends (trace o) =
    [failure "NO [TRYCREATE] Mailbox doesn't exist: Sent"; Ok tt] /\
  creations (trace o) = ["Sent"] /\
  logouts (trace o) = [Ok tt].
Proof.
  cbv zeta. repeat split; vm_compute; reflexivity.
Qed.

Example trycreate_then_refused :
  let o := findOrCreateSentBox
             (client (custom [sentFolder "Sent"] [sentFolder "Sent"]
                        (always (failure "NO [TRYCREATE] no such mailbox"))
                        (fun _ => Ok tt) (fun _ => Ok tt)))
             env utc initial in
  res o = Throw (Js.mkError
    "APPEND falló incluso tras TRYCREATE: NO [TRYCREATE] no such mailbox") /\
  length (appends (trace o)) = 2 /\
  creations (trace o) = ["Sent"].
Proof.
  cbv zeta. repeat split; vm_compute; reflexivity.
Qed.

(** [appendToSent] on a server whose configured mailbox does not lock:
    the first fallback that locks receives the message. *)
Example appendToSent_falls_back :
  let sc :=
    {| onConnect := Ok tt;
       onLock := fun p => if p =? "Sent Items" then lockOf p
                          else failure "Mailbox doesn't exist";
       onRelease := Ok tt;
       onListSpecialUse := Ok [];
       onList := fun _ => Ok [];
       onCreate := fun _ => Ok tt;
       onAppend := fun _ _ => Ok tt;
       onSearch := Ok [];
       onFlagsAdd := Ok tt;
       onExpunge := Ok tt;
       onLogout := fun _ => Ok tt |} in
  let o := appendToSent (client sc) env (Js.VString "Subject: x") initial in
  res o = Ok tt /\
  trace o =
    [EvConnect (imapConfig env "relay@example.com" "secret") (Ok tt);
     EvGetMailboxLock "Sent" (failure "Mailbox doesn't exist");
     EvGetMailboxLock "Enviados" (failure "Mailbox doesn't exist");
     EvGetMailboxLock "Sent" (failure "Mailbox doesn't exist");
     EvGetMailboxLock "Sent Items" (lockOf "Sent Items");
     EvAppend "Sent Items" "Subject: x" ["\Seen"] (Ok tt);
     EvRelease {| lock_path := "Sent Items" |} (Ok tt);
     EvLogout (Ok tt)].
Proof.
  cbv zeta. split; vm_compute; reflexivity.
Qed.

End SessionExamples.

(* ================================================================= *)
(** ** The discipline of the discovery's session *)

Lemma lockRun_app (q : LockState) (a b : list Event) :
  lockRun q (a ++ b) =
  match lockRun q a with
  | Some q' => lockRun q' b
  | None => None
  end.
Proof.
  revert q. induction a as [|e a IH]; intros q; cbn; [reflexivity|].
  destruct (lockStep q e); [apply IH | reflexivity].
Qed.

Lemma sessionRun_app (q : SessionState) (a b : list Event) :
  sessionRun q (a ++ b) =
  match sessionRun q a with
  | Some q' => sessionRun q' b
  | None => None
  end.
Proof.
  revert q. induction a as [|e a IH]; intros q; cbn; [reflexivity|].
  destruct (sessionStep q e); [apply IH | reflexivity].
Qed.

Lemma guarded_app (prev : option Event) (a b : list Event) :
  guarded prev a = true ->
  (forall prev', guarded prev' b = true) ->
  guarded prev (a ++ b) = true.
Proof.
  revert prev. induction a as [|e a IH]; intros prev Ha Hb; cbn in *.
  - apply Hb.
  - apply andb_prop in Ha. destruct Ha as [He Ha]. rewrite He. cbn.
    now apply IH.
Qed.

Lemma sameLock_refl (l : Lock) : sameLock l l = true.
Proof. apply String.eqb_refl. Qed.

Lemma listEqb_N_refl (l : list N) : listEqb N.eqb l l = true.
Proof.
  induction l as [|n l IH]; cbn; [reflexivity|].
  now rewrite N.eqb_refl, IH.
Qed.

(** The creation loop takes no lock, ends no session, and makes none of
    the calls that need a call before them. *)
Lemma LoopShape_protocol (paths : list string) (tr : list Event)
    (captured : option Mailbox) :
  LoopShape paths tr captured ->
  (forall prev, guarded prev tr = true) /\
  (forall q, lockRun q tr = Some q) /\
  sessionRun Connected tr = Some Connected.
Proof.
  induction 1 as [ | p rest e tr out H (Hg & Hl & Hs)
                   | p rest e tr out H (Hg & Hl & Hs)
                   | p rest refreshed tr out Hf H (Hg & Hl & Hs)
                   | p rest refreshed mb Hf ]; cbn; auto.
Qed.

Section Protocol.

Variable S : Type.
Variable client : Client S.

Lemma probe_protocol (user utc p : string) (s : St S) :
  let o := probe client user utc p s in
  (forall prev, guarded prev (trace o) = true) /\
  (exists q, lockRun NoLock (trace o) = Some q /\
             forall l, q <> Holding l) /\
  sessionRun Connected (trace o) =
    Some (if succeeded (res o) then Connected else LoggedOut).
Proof.
  unfold probe. cbv zeta. generalize (testMessage user utc). intros msg.
  unfold_calls. run_all.
  all: try (destruct (testTryCreate _) eqn:Ht; run_all).
  all: split; [intros prev|split].
  all: cbn; rewrite ?String.eqb_refl, ?orb_true_r, ?N.eqb_refl,
         ?listEqb_N_refl, ?sameLock_refl; cbn;
       rewrite ?String.eqb_refl, ?orb_true_r, ?N.eqb_refl,
         ?listEqb_N_refl, ?sameLock_refl; cbn.
  all: try reflexivity.
  all: eexists; split; [reflexivity|]; discriminate.
Qed.

Arguments testMessage : simpl never.
Arguments probe : simpl never.
Arguments createLoop : simpl never.

Ltac probe_calls :=
  match goal with
  | |- context [probe client ?u ?t ?p ?s'] =>
      let Hg := fresh "Hpg" in
      let Hk := fresh "Hpk" in
      let Hs := fresh "Hps" in
      let Hl := fresh "Hlocals" in
      let q := fresh "q" in
      destruct (probe_run client u t p s') as (_ & Hl & _);
      destruct (probe_protocol u t p s') as (Hg & (q & Hk & ?) & Hs);
      destruct (probe client u t p s') as [pr pst ptr plg];
      cbn in Hg, Hk, Hs, Hl; destruct pst as [psrv ploc]; cbn in Hl;
      subst ploc; destruct pr; cbn in Hs
  end.

Ltac loop_calls :=
  match goal with
  | |- context [createLoop client ?ps ?s'] =>
      let H := fresh "Hloop" in
      let Hg := fresh "Hlg" in
      let Hk := fresh "Hlk" in
      let Hs := fresh "Hls" in
      destruct (createLoop_run client ps s' eq_refl) as (? & H & ? & ?);
      destruct (createLoop client ps s') as [lr lst ltr llg];
      cbn in *; subst lr; destruct lst as [lsrv lloc];
      destruct lloc as [llock lsent lcreated]; cbn in *; subst;
      destruct (LoopShape_protocol H) as (Hg & Hk & Hs); clear H
  end.

Lemma endsWith_one (l : LogLine) : endsWith [l] l.
Proof. now exists []. Qed.

Lemma endsWith_cons (x : LogLine) (lg : list LogLine) (l : LogLine) :
  endsWith lg l -> endsWith (x :: lg) l.
Proof. intros (b & ->). now exists (x :: b). Qed.

Lemma endsWith_app (a lg : list LogLine) (l : LogLine) :
  endsWith lg l -> endsWith (a ++ lg) l.
Proof. intros (b & ->). exists (a ++ b)%list. now rewrite app_assoc. Qed.

Lemma findOrCreateSentBox_protocol (env : Env) (utc : string) (s : St S) :
  let o := findOrCreateSentBox client env utc s in
  guarded None (trace o) = true /\
  locksSettled (trace o) = true /\
  match sessionRun Fresh (trace o) with
  | Some Fresh => trace o = []
  | Some ConnectFailed => exists cfg e, trace o = [EvConnect cfg (Throw e)]
  | Some LoggedOut => True
  | _ => False
  end /\
  match res o with
  | Ok _ => True
  | Throw e =>
      match trace o with
      | [] | [_] => log o = []
      | _ => endsWith (log o) (LFatal (Js.message e))
      end
  end /\
  match trace o with
  | _ :: EvGetMailboxLock _ (Throw e) :: _ =>
      In (LInboxLockFailed (Js.message e)) (log o)
  | _ => True
  end /\
  match specialListing (trace o) with
  | Some (Throw e) => In (LSpecialUseFailed (Js.message e)) (log o)
  | _ => True
  end.
Proof.
  unfold findOrCreateSentBox. cbv zeta.
  destruct (negb _ || negb _).
  - cbn. now repeat split.
  - generalize (imapConfig env (render (Js.orElse (IMAP_USER env) (SMTP_USER env)))
      (render (Js.orElse (IMAP_PASS env) (SMTP_PASS env)))).
    generalize (render (Js.orElse (IMAP_USER env) (SMTP_USER env))).
    intros user cfg.
    unfold discover, lockInbox, listSpecial, cleanup, pathOf. unfold_calls.
    run_all.
    all: repeat (first [ next_call | next_read | loop_calls | probe_calls
                       | match goal with
                         | |- context [match ?x with Some _ => _ | None => _ end] =>
                             match type of x with
                             | option Mailbox => destruct x eqn:?
                             end
                         end ]; unit_values; cbn).
    all: rewrite <- ?app_assoc; cbn.
    all: repeat match goal with |- _ /\ _ => split end.
    all: try (cbn; auto; fail).
    all: try (solve [repeat first [ apply endsWith_one | apply endsWith_cons
                                  | apply endsWith_app ]]).
    all: try (solve [repeat first [ reflexivity | solve [auto]
                                  | apply guarded_app; [|intros ?] ]]).
    all: try (solve [
      repeat match goal with
        | H : sessionRun Connected ?t = _
          |- context [sessionRun Connected (?t ++ _)] =>
            rewrite sessionRun_app, H
        end; cbn; eauto ]).
    all: unfold locksSettled; cbn [lockRun lockStep];
      rewrite ?sameLock_refl; cbn [lockRun lockStep];
      rewrite ?sameLock_refl; cbn [lockRun lockStep];
      repeat match goal with
        | H : forall q, lockRun q ?t = Some q
          |- context [lockRun _ (?t ++ _)] => rewrite lockRun_app, H
        | H : lockRun NoLock ?t = Some _
          |- context [lockRun NoLock (?t ++ _)] => rewrite lockRun_app, H
        end;
      try reflexivity.
    all: match goal with
         | H : forall l, ?q <> Holding l |- _ =>
             destruct q as [|l0|l0]; [reflexivity | now destruct (H l0)
                                     | reflexivity]
         end.
Qed.


(** The runs of [appendToSent] that pass its three guards. *)
Ltac append_runs env :=
  unfold openMailbox, fallbackMailboxes; cbn [fallbackLoop];
  generalize (imapConfig env
    (render (Js.orElse (IMAP_USER env) (SMTP_USER env)))
    (render (Js.orElse (IMAP_PASS env) (SMTP_PASS env))));
  generalize (Js.orDefault (IMAP_MAILBOX env) "Sent");
  intros ? ?; unfold_calls; run_all.

Lemma appendToSent_protocol (env : Env) (raw : Js.value) (s : St S) :
  let o := appendToSent client env raw s in
  locksSettled (trace o) = true /\
  match sessionRun Fresh (trace o) with
  | Some Fresh => trace o = []
  | Some LoggedOut => True
  | _ => False
  end.
Proof.
  unfold appendToSent.
  destruct (negb (Js.strictEq _ _)); [cbn; auto|].
  destruct (negb _ || negb _); [cbn; auto|].
  destruct (negb _ || negb _); [cbn; auto|].
  cbv zeta. generalize (match raw with Js.VString c => c | _ => "" end).
  intros content. append_runs env.
  all: unfold locksSettled; cbn; rewrite ?sameLock_refl; cbn; auto.
Qed.

Lemma appendToSent_shape (env : Env) (raw : Js.value) (s : St S) :
  let o := appendToSent client env raw s in
  let user := Js.orElse (IMAP_USER env) (SMTP_USER env) in
  let pass := Js.orElse (IMAP_PASS env) (SMTP_PASS env) in
  let cfg := imapConfig env (render user) (render pass) in
  let mailbox := Js.orDefault (IMAP_MAILBOX env) "Sent" in
  let enabled := Js.strictEq (SAVE_SENT_COPY env) "true" in
  let credentials := Js.truthy user && Js.truthy pass in
  trace o = [] /\ state o = s /\
  (enabled = false /\ log o = [LDisabled] \/
   enabled = true /\ credentials = false /\ log o = [LNoCredentials] \/
   enabled = true /\ credentials = true /\
   (Js.toBoolean raw = false \/ Js.typeof raw <> "string") /\
   log o = [LInvalidRaw]) \/
  enabled = true /\ credentials = true /\
  exists content,
    raw = Js.VString content /\ content <> "" /\
    ((exists e r, trace o = [EvConnect cfg (Throw e); EvLogout r]) \/
     exists rest,
       trace o = EvConnect cfg (Ok tt) :: rest /\
       AfterConnect content (mailbox :: fallbackMailboxes) rest).
Proof.
  unfold appendToSent. cbv zeta.
  destruct (Js.strictEq _ _); cbn [negb]; [|cbn; auto 8].
  rewrite <- negb_andb.
  destruct (Js.truthy _ && Js.truthy _); cbn [negb]; [|cbn; auto 8].
  destruct raw as [ | | b | z | content | bytes | ];
    try (cbn; rewrite ?orb_true_r; cbn;
         left; split; [reflexivity|]; split; [reflexivity|];
         right; right; repeat (split; [reflexivity|]);
         split; [|reflexivity];
         first [left; reflexivity | right; discriminate]).
  cbn [Js.toBoolean Js.typeof].
  destruct (content =? "") eqn:Hc; [cbn; auto 12|].
  apply String.eqb_neq in Hc. cbn [negb orb String.eqb Ascii.eqb Bool.eqb].
  right. split; [reflexivity|]. split; [reflexivity|].
  exists content. split; [reflexivity|]. split; [exact Hc|].
  clear Hc. append_runs env.
  all: first [ left; do 2 eexists; reflexivity
             | right; eexists; split; [reflexivity|]; repeat constructor ].
Qed.

(** X14.  [appendToSent] reports what it swallows.  Every call that
    failed left a line with the message of its error: a failed connection
    and a failed release as an append error, a failed lock as a mailbox
    or fallback failure with the name tried, a failed logout as a logout
    error, a failed append as an append error unless the release that
    followed failed too, whose error then takes its place.  And when the
    session was opened but no mailbox could be locked, the log has the
    line that names every mailbox tried. *)
Theorem appendToSent_reports_failures (env : Env) (raw : Js.value)
    (s : St S) :
  let o := appendToSent client env raw s in
  let mailbox := Js.orDefault (IMAP_MAILBOX env) "Sent" in
  Forall (reportedIn (trace o) (log o)) (trace o) /\
  ((exists cfg, In (EvConnect cfg (Ok tt)) (trace o)) ->
   (forall p l, ~ In (EvGetMailboxLock p (Ok l)) (trace o)) ->
   In (LAppendError
         ("No se pudo acceder a ningún buzón de enviados (" ++ mailbox
          ++ ", Enviados, Sent, Sent Items, INBOX.Sent)"))
      (log o)).
Proof.
  unfold appendToSent.
  destruct (negb (Js.strictEq _ _));
    [cbn; split; [constructor | now intros (c & [])]|].
  destruct (negb _ || negb _);
    [cbn; split; [constructor | now intros (c & [])]|].
  destruct (negb _ || negb _);
    [cbn; split; [constructor | now intros (c & [])]|].
  cbv zeta. generalize (match raw with Js.VString c => c | _ => "" end).
  intros content. append_runs env.
  all: split;
    [ repeat (apply Forall_cons;
              [cbn;
               try match goal with
                   | |- context [match fst ?x with Ok _ => _ | Throw _ => _ end] =>
                       destruct (fst x)
                   end; eauto 12|]); apply Forall_nil
    | intros (c0 & Hc) Hn;
      first [ solve [cbn; auto 12]
            | solve [exfalso; eapply Hn; cbn; eauto 12]
            | exfalso; cbn in Hc;
              repeat (destruct Hc as [Hc|Hc]; try discriminate Hc);
              exact Hc ] ].
Qed.

End Protocol.

(* ================================================================= *)
(** ** Matching by name, in full *)

(** X1.  The search by name finds nothing exactly when no listed folder
    has, letter case apart, the name of a candidate. *)
Theorem matchByName_none_iff (all : list Mailbox) (d : string) :
  matchByName all d = None <->
  forall c mb, In c (candidates d) -> In mb all ->
    Js.toLowerCase (path mb) <> Js.toLowerCase c.
Proof.
  unfold matchByName, Js.find. split.
  - destruct (List.find _ _) as [hit|] eqn:Hf.
    + apply find_some in Hf. destruct Hf as [_ Hh].
      destruct (mapGet_of_mapHas _ _ Hh) as (mb & ->). discriminate.
    + intros _ c mb Hc Hin Hlow.
      pose proof (find_none _ _ Hf c Hc) as Hn. cbn in Hn.
      assert (Hh : mapHas (byPathOf all) (Js.toLowerCase c) = true)
        by (apply mapHas_byPathOf; eauto).
      congruence.
  - intros H. destruct (List.find _ _) as [hit|] eqn:Hf; [|reflexivity].
    apply find_some in Hf. destruct Hf as [Hc Hh].
    apply mapHas_byPathOf in Hh. destruct Hh as (mb & Hin & Hlow).
    now destruct (H hit mb Hc Hin).
Qed.

(** X2.  When several listed folders have, letter case apart, the name
    of the first candidate that matches, the one listed last is selected:
    the map from lowercase paths keeps the entry set last. *)
Theorem matchByName_last_listed (all : list Mailbox) (d : string)
    (before after : list string) (c : string)
    (earlier later : list Mailbox) (mb : Mailbox) :
  candidates d = (before ++ c :: after)%list ->
  (forall c' mb', In c' before -> In mb' all ->
     Js.toLowerCase (path mb') <> Js.toLowerCase c') ->
  all = (earlier ++ mb :: later)%list ->
  Js.toLowerCase (path mb) = Js.toLowerCase c ->
  (forall mb', In mb' later ->
     Js.toLowerCase (path mb') <> Js.toLowerCase c) ->
  matchByName all d = Some mb.
Proof.
  intros Hc Hb Hall Hlow Hlater.
  assert (Hin : In mb all) by (subst all; apply in_or_app; right; now left).
  unfold matchByName, Js.find. rewrite Hc.
  rewrite (find_first _ before after c).
  - unfold mapGet, byPathOf. subst all.
    rewrite map_app, rev_app_distr. cbn [map rev]. rewrite <- app_assoc.
    cbn [app].
    rewrite (find_first _ (rev (map _ later)) _
               (Js.toLowerCase (path mb), mb)); [reflexivity| |].
    + intros kv Hkv. apply in_rev in Hkv. apply in_map_iff in Hkv.
      destruct Hkv as (mb' & <- & Hin'). cbn.
      apply String.eqb_neq. now apply Hlater.
    + cbn. rewrite Hlow. apply String.eqb_refl.
  - intros c' Hc'.
    destruct (mapHas (byPathOf all) (Js.toLowerCase c')) eqn:Hh; [|reflexivity].
    apply mapHas_byPathOf in Hh. destruct Hh as (mb' & Hin' & Hl').
    now destruct (Hb c' mb' Hc' Hin').
  - apply mapHas_byPathOf. eauto.
Qed.

Lemma matchByName_last_listed_witness :
  matchByName
    [Scripted.folder "INBOX"; Scripted.folder "sent"; Scripted.folder "SENT"]
    "/" = Some (Scripted.folder "SENT").
Proof.
  apply (@matchByName_last_listed _ "/" [] (tl (candidates "/")) "Sent"
           [Scripted.folder "INBOX"; Scripted.folder "sent"] []
           (Scripted.folder "SENT")).
  - reflexivity.
  - intros c' mb' [].
  - reflexivity.
  - reflexivity.
  - intros mb' [].
Defined.

(* ================================================================= *)
(** ** What the discovery creates and appends *)

Lemma LoopShape_events (paths : list string) (tr : list Event)
    (captured : option Mailbox) (ev : Event) :
  LoopShape paths tr captured -> In ev tr ->
  (exists p r, ev = EvMailboxCreate p "\Sent" r /\ In p paths) \/
  exists r, ev = EvList r.
Proof.
  induction 1 as [ | p rest e tr out H IH | p rest e tr out H IH
                   | p rest refreshed tr out Hf H IH
                   | p rest refreshed mb Hf ]; cbn; intros Hin.
  - destruct Hin.
  - destruct Hin as [<-|Hin]; [left; exists p; eauto|].
    destruct (IH Hin) as [(p' & r & -> & Hp)|(r & ->)]; [left|right]; eauto 6.
  - destruct Hin as [<-|[<-|Hin]]; [left; exists p; eauto | right; eauto|].
    destruct (IH Hin) as [(p' & r & -> & Hp)|(r & ->)]; [left|right]; eauto 6.
  - destruct Hin as [<-|[<-|Hin]]; [left; exists p; eauto | right; eauto|].
    destruct (IH Hin) as [(p' & r & -> & Hp)|(r & ->)]; [left|right]; eauto 6.
  - destruct Hin as [<-|[<-|[]]]; [left; exists p; eauto | right; eauto].
Qed.

(** The folder the loop captures was created by the loop, at one of its
    paths, and is an entry of a listing made after the creation. *)
Lemma LoopShape_capture (paths : list string) (tr : list Event)
    (mb : Mailbox) :
  LoopShape paths tr (Some mb) ->
  In (path mb) paths /\
  In (EvMailboxCreate (path mb) "\Sent" (Ok tt)) tr /\
  exists refreshed, In (EvList (Ok refreshed)) tr /\ In mb refreshed.
Proof.
  intros H. remember (Some mb) as out eqn:Ho.
  induction H as [ | p rest e tr out H IH | p rest e tr out H IH
                   | p rest refreshed tr out Hf H IH
                   | p rest refreshed mb' Hf ]; try discriminate.
  - destruct (IH Ho) as (Hp & Hc & l & Hl & Hm).
    split; [now right|]. split; [now right|]. exists l. split; [now right|auto].
  - destruct (IH Ho) as (Hp & Hc & l & Hl & Hm).
    split; [now right|]. split; [now do 2 right|].
    exists l. split; [now do 2 right|auto].
  - destruct (IH Ho) as (Hp & Hc & l & Hl & Hm).
    split; [now right|]. split; [now do 2 right|].
    exists l. split; [now do 2 right|auto].
  - injection Ho as ->. apply find_some in Hf. destruct Hf as [Hin Hp].
    apply String.eqb_eq in Hp. subst p.
    split; [now left|]. split; [now left|].
    exists refreshed. split; [right; now left | exact Hin].
Qed.

Lemma cleanup_call_kind (tr : list Event) (ev : Event) :
  forallb isCleanupCall tr = true -> In ev tr -> isCleanupCall ev = true.
Proof.
  intros H Hin. rewrite forallb_forall in H. now apply H.
Qed.

Lemma ProbeRun_appends (p msg : string) (tr : list Event) (out : result unit)
    (p' c : string) (fl : list string) (r : result unit) :
  ProbeRun p msg tr out -> In (EvAppend p' c fl r) tr ->
  p' = p /\ c = msg /\ fl = probeFlags.
Proof.
  intros H Hin.
  destruct H as [cl Hcl | e r0 Ht | e Ht | e e2 r0 Ht | e e2 r0 Ht];
    cbn in Hin.
  1: destruct Hin as [Hin|Hin];
       [injection Hin as <- <- <- _; auto
       |pose proof (@cleanup_call_kind _ _ Hcl Hin) as Hk; discriminate Hk].
  all: repeat (destruct Hin as [Hin|Hin];
               [first [discriminate Hin | injection Hin as <- <- <- _; auto]|]).
  all: destruct Hin.
Qed.

Lemma ProbeRun_creations (p msg : string) (tr : list Event)
    (out : result unit) (p' su : string) (r : result unit) :
  ProbeRun p msg tr out -> In (EvMailboxCreate p' su r) tr ->
  p' = p /\ su = "\Sent" /\
  exists e, In (EvAppend p msg probeFlags (Throw e)) tr /\
            testTryCreate (Js.describe e) = true.
Proof.
  intros H Hin.
  destruct H as [cl Hcl | e r0 Ht | e Ht | e e2 r0 Ht | e e2 r0 Ht];
    cbn in Hin.
  1: destruct Hin as [Hin|Hin];
       [discriminate Hin
       |pose proof (@cleanup_call_kind _ _ Hcl Hin) as Hk; discriminate Hk].
  all: repeat (destruct Hin as [Hin|Hin];
               [first [discriminate Hin
                      | injection Hin as <- <- _;
                        split; [reflexivity|]; split; [reflexivity|];
                        exists e; split; [now left | exact Ht]]|]).
  all: destruct Hin.
Qed.

Lemma ProbeRun_accepted (p msg : string) (tr : list Event) :
  ProbeRun p msg tr (Ok tt) -> In (EvAppend p msg probeFlags (Ok tt)) tr.
Proof.
  intros H. inversion H; subst; cbn; auto.
Qed.

(** From the probe on, the calls are those of the probe and then
    logouts. *)
Lemma ValidateRun_probe (mb : Mailbox) (d : string) (c : bool) (msg : string)
    (tr : list Event) (out : result ResolutionResult) (ev : Event) :
  ValidateRun mb d c msg tr out -> In ev tr ->
  (exists ptr pr, ProbeRun (path mb) msg ptr pr /\ In ev ptr /\
                  forall x, In x ptr -> In x tr) \/
  exists r, ev = EvLogout r.
Proof.
  intros [ptr Hp | ptr e r Hp | ptr e r Hp] Hin;
    apply in_app_or in Hin; destruct Hin as [Hin|Hin].
  all: try (left; do 2 eexists; split; [exact Hp|]; split; [exact Hin|];
            intros x Hx; apply in_or_app; now left).
  all: cbn in Hin; right;
    repeat (destruct Hin as [<-|Hin]; [eauto|]); destruct Hin.
Qed.

Lemma ValidateRun_returned (mb : Mailbox) (d : string) (c : bool)
    (msg : string) (tr : list Event) (r : ResolutionResult) :
  ValidateRun mb d c msg tr (Ok r) ->
  r = {| sentPath := path mb; delimiter := d; created := c |} /\
  In (EvAppend (path mb) msg probeFlags (Ok tt)) tr /\
  logouts tr = [Ok tt].
Proof.
  intros H. pose proof (ValidateRun_logouts H) as Hl. cbn in Hl.
  inversion H as [ptr Hp | | ]; subst.
  split; [reflexivity|]. split; [|exact Hl].
  apply in_or_app. left. now apply ProbeRun_accepted.
Qed.

Lemma findWith_some {A} (p : A -> result bool) (xs : list A) (x : A) :
  findWith p xs = Ok (Some x) -> In x xs /\ p x = Ok true.
Proof.
  induction xs as [|y xs IH]; cbn; [discriminate|].
  destruct (p y) as [[|]|e] eqn:Hy; [| |discriminate].
  - intros [= ->]. auto.
  - intros H. destruct (IH H). auto.
Qed.

Lemma designated_listed (rs : result (list Mailbox)) (mb : Mailbox) :
  designated rs = Ok (Some mb) ->
  exists special, rs = Ok special /\ In mb special /\ isSent mb = Ok true.
Proof.
  destruct rs as [special|e]; cbn; [|discriminate].
  intros H. apply findWith_some in H. destruct H. eauto.
Qed.

Lemma matchByName_listed (all : list Mailbox) (d : string) (mb : Mailbox) :
  matchByName all d = Some mb ->
  In mb all /\
  exists c, In c (candidates d) /\
            Js.toLowerCase (path mb) = Js.toLowerCase c.
Proof.
  unfold matchByName, Js.find.
  destruct (List.find _ _) as [hit|] eqn:Hf; [|discriminate].
  intros H. apply mapGet_byPathOf in H. destruct H as [Hin Hlow].
  apply find_some in Hf. destruct Hf as [Hc _]. eauto.
Qed.

Lemma tryPaths_candidates (d p : string) :
  In p (tryPaths d) -> In p (candidates d).
Proof.
  cbn. intros [<-|[<-|[<-|[]]]]; auto 10.
Qed.

(** The appends of a run are all on one path, with the probe message and
    the probe's flags. *)
Lemma Run_appends (cfg : Config) (msg : string) (tr : list Event)
    (out : result ResolutionResult) :
  Run cfg msg tr out ->
  exists p, forall p' c fl r,
    In (EvAppend p' c fl r) tr -> p' = p /\ c = msg /\ fl = probeFlags.
Proof.
  intros HR. run_cases HR.
  all: try (exists ""; intros p' c fl r0 Hin; cbn in Hin;
            repeat (destruct Hin as [Hin|Hin]; [discriminate Hin|]);
            try (apply in_app_or in Hin; destruct Hin as [Hin|Hin];
                 [destruct (@LoopShape_events _ _ _ _ Hl Hin)
                    as [(? & ? & [=] & _)|(? & [=])]
                 |cbn in Hin; destruct Hin as [Hin|Hin];
                  [discriminate Hin|]]);
            now destruct Hin).
  all: exists (path mb); intros p' c fl r0 Hin; cbn in Hin;
    repeat (destruct Hin as [Hin|Hin]; [discriminate Hin|]).
  all: try (apply in_app_or in Hin; destruct Hin as [Hin|Hin];
            [destruct (@LoopShape_events _ _ _ _ Hl Hin)
               as [(? & ? & [=] & _)|(? & [=])]|]).
  all: destruct (@ValidateRun_probe _ _ _ _ _ _ _ Hv Hin)
         as [(ptr & pr & Hp & Hin' & _)|(r1 & [=])];
    exact (@ProbeRun_appends _ _ _ _ _ _ _ _ Hp Hin').
Qed.

Ltac in_tail :=
  cbn; repeat (apply or_intror);
  first [ assumption
        | apply in_or_app; right; assumption
        | apply in_or_app; left; assumption ].

Lemma Run_creations (cfg : Config) (msg : string) (tr : list Event)
    (out : result ResolutionResult) (p su : string) (rc : result unit) :
  Run cfg msg tr out ->
  In (EvMailboxCreate p su rc) tr ->
  su = "\Sent" /\
  exists all,
    firstList tr = Some (Ok all) /\
    (In p (tryPaths (detectDelimiter all)) /\
     (forall mb, In mb all ->
        Js.toLowerCase (path mb) <> Js.toLowerCase p) \/
     exists e, In (EvAppend p msg probeFlags (Throw e)) tr /\
               testTryCreate (Js.describe e) = true).
Proof.
  intros HR Hin. run_cases HR.
  all: cbn in Hin;
    repeat (destruct Hin as [Hin|Hin]; [discriminate Hin|]);
    try (now destruct Hin).
  all: try (apply in_app_or in Hin; destruct Hin as [Hin|Hin]).
  all: try (cbn in Hin; destruct Hin as [Hin|[]]; discriminate Hin).
  all: try (destruct (@LoopShape_events _ _ _ _ Hl Hin)
              as [(p0 & r0 & [= -> -> ->] & Hp)|(r0 & [=])];
            split; [reflexivity|]; exists all; split; [reflexivity|]; left;
            split; [exact Hp|];
            intros mb0 Hmb;
            exact (proj1 (matchByName_none_iff all (detectDelimiter all)) Hm
                     p0 mb0 (@tryPaths_candidates _ _ Hp) Hmb)).
  all: destruct (@ValidateRun_probe _ _ _ _ _ _ _ Hv Hin)
         as [(ptr & pr & Hprobe & Hin' & Hsub)|(r1 & [=])];
    destruct (@ProbeRun_creations _ _ _ _ _ _ _ Hprobe Hin')
      as (-> & -> & e0 & He & Htry);
    split; [reflexivity|]; exists all; split; [reflexivity|]; right;
    exists e0; (split; [|exact Htry]); apply Hsub in He; in_tail.
Qed.

Lemma ProbeRun_appends_count (p msg : string) (tr : list Event)
    (out : result unit) :
  ProbeRun p msg tr out -> (length (appends tr) <= 2)%nat.
Proof.
  intros [cl Hcl | e r Ht | e Ht | e e2 r Ht | e e2 r Ht]; cbn; auto.
  destruct (@cleanup_calls_quiet _ Hcl) as (_ & _ & Ha & _).
  unfold appends in Ha. rewrite Ha. cbn. auto.
Qed.

Lemma Run_appends_count (cfg : Config) (msg : string) (tr : list Event)
    (out : result ResolutionResult) :
  Run cfg msg tr out -> (length (appends tr) <= 2)%nat.
Proof.
  intros HR. destruct (Run_validation HR) as [(-> & _)|H]; [cbn; auto|].
  destruct H as (pre & p & ptr & pr & post & -> & Hpre & Hp & Hpost).
  rewrite !appends_app, Hpre. cbn [app].
  assert (Hq : appends post = []).
  { destruct pr; [destruct Hpost as [(-> & _)|(e & r & -> & _)]
                 |destruct Hpost as (_ & r & ->)]; reflexivity. }
  rewrite Hq, app_nil_r. exact (ProbeRun_appends_count Hp).
Qed.

(** What a run that returns rests on. *)
Lemma Run_grounded (cfg : Config) (msg : string) (tr : list Event)
    (got : ResolutionResult) :
  Run cfg msg tr (Ok got) ->
  In (EvAppend (sentPath got) msg probeFlags (Ok tt)) tr /\
  logouts tr = [Ok tt] /\
  exists rs all,
    specialListing tr = Some rs /\ firstList tr = Some (Ok all) /\
    delimiter got = detectDelimiter all /\
    if created got then
      designated rs = Ok None /\
      matchByName all (detectDelimiter all) = None /\
      In (sentPath got) (tryPaths (delimiter got)) /\
      In (EvMailboxCreate (sentPath got) "\Sent" (Ok tt)) (afterFirstList tr) /\
      exists refreshed mb,
        In (EvList (Ok refreshed)) (afterFirstList tr) /\
        In mb refreshed /\ path mb = sentPath got
    else
      (exists mb,
         path mb = sentPath got /\
         (designated rs = Ok (Some mb) \/
          designated rs = Ok None /\
          matchByName all (detectDelimiter all) = Some mb)) /\
      (creations tr = [] \/
       creations tr = [sentPath got] /\
       exists e, In (EvAppend (sentPath got) msg probeFlags (Throw e)) tr /\
                 testTryCreate (Js.describe e) = true).
Proof.
  intros HR. remember (Ok got) as out eqn:Ho. run_cases HR; try discriminate.
  all: subst out.
  all: destruct (ValidateRun_facts Hv) as (_ & _ & _ & Hcr & _).
  all: destruct (ValidateRun_returned Hv) as (-> & Ha & Hlo).
  all: try (destruct (LoopShape_quiet Hl) as (_ & Hlq);
            destruct (LoopShape_capture Hl) as (Hp & Hc & refreshed & Hr & Hmb)).
  all: split; [in_tail|].
  all: split;
    [cbn; rewrite ?logouts_app, ?Hlq; cbn; exact Hlo|].
  all: exists rs, all; split; [reflexivity|]; split; [reflexivity|];
    split; [reflexivity|]; cbn.
  all: try (split; [exists mb; split; [reflexivity|]; auto|];
            unfold creations in *; cbn;
            destruct Hcr as [Hcr|(Hcr & e0 & Hin0 & Htry)];
            [left; exact Hcr|right; split; [exact Hcr|]];
            exists e0; split; [in_tail|exact Htry]).
  all: repeat (split; [first [assumption | in_tail]|]).
  all: exists refreshed, mb; split; [in_tail|]; split; [assumption|reflexivity].
Qed.

Lemma specialListing_In (tr : list Event) (rs : result (list Mailbox)) :
  specialListing tr = Some rs -> In (EvListSpecialUse rs) tr.
Proof.
  induction tr as [|e tr IH]; cbn; [discriminate|].
  destruct e; auto. intros [= ->]. now left.
Qed.

Lemma firstList_In (tr : list Event) (rl : result (list Mailbox)) :
  firstList tr = Some rl -> In (EvList rl) tr.
Proof.
  induction tr as [|e tr IH]; cbn; [discriminate|].
  destruct e; auto. intros [= ->]. now left.
Qed.

Section Discovery.

Variable S : Type.
Variable client : Client S.
Variable env : Env.
Variable utc : string.

Let user : string := render (Js.orElse (IMAP_USER env) (SMTP_USER env)).
Let pass : string := render (Js.orElse (IMAP_PASS env) (SMTP_PASS env)).
Let msg : string := testMessage user utc.
Let cfg : Config := imapConfig env user pass.

(** X3.  Mailbox locks in both IMAP routines.  A lock is taken only when
    none is held; [release] is called only on the lock held, or again on
    the one whose release just failed; no session is logged out while a
    lock is held and its release was not tried; and when the run ends no
    lock is left without a release call. *)
Theorem locks_always_released (raw : Js.value) (s s' : St S) :
  locksSettled (trace (findOrCreateSentBox client env utc s)) = true /\
  locksSettled (trace (appendToSent client env raw s')) = true.
Proof.
  split.
  - apply findOrCreateSentBox_protocol.
  - apply appendToSent_protocol.
Qed.

(** X4.  The order of a session in both IMAP routines.  Nothing is
    called before [connect], which is called once; after a logout, and
    after a connection that failed, nothing is called but [logout].  A
    discovery either makes no call, or stops at the failed connection
    without a logout, or ends logged out; [appendToSent] either makes no
    call or ends logged out, also when the connection failed. *)
Theorem session_order (raw : Js.value) (s s' : St S) :
  let o := findOrCreateSentBox client env utc s in
  let o' := appendToSent client env raw s' in
  match sessionRun Fresh (trace o) with
  | Some Fresh => trace o = []
  | Some ConnectFailed => exists c e, trace o = [EvConnect c (Throw e)]
  | Some LoggedOut => True
  | Some Connected | None => False
  end /\
  match sessionRun Fresh (trace o') with
  | Some Fresh => trace o' = []
  | Some LoggedOut => True
  | Some Connected | Some ConnectFailed | None => False
  end.
Proof.
  split.
  - apply findOrCreateSentBox_protocol.
  - apply appendToSent_protocol.
Qed.

(** X5.  In a discovery every call that changes or searches a mailbox
    rests on the call just before it: a lock is taken on INBOX or on the
    path of the append just accepted; the search looks for the subject of
    the probe, right after a lock was obtained; messages are flagged right
    after the search that found them, exactly those, and only as
    \Deleted; the expunge comes right after the flagging succeeded. *)
Theorem discovery_calls_guarded (s : St S) :
  guarded None (trace (findOrCreateSentBox client env utc s)) = true.
Proof.
  apply findOrCreateSentBox_protocol.
Qed.

(** X6.  Step 1 of the discovery.  After the connection the first call
    is the lock on INBOX.  If the lock fails, the failure is logged and
    the run goes on to the special-use listing.  If it is obtained, it is
    released at once; a release that fails ends the run with that error,
    after one more release and the logout, without any listing. *)
Theorem inbox_step (s : St S) :
  let o := findOrCreateSentBox client env utc s in
  match trace o with
  | EvConnect _ (Ok _) :: rest =>
      exists r rest',
        rest = EvGetMailboxLock "INBOX" r :: rest' /\
        match r with
        | Throw e =>
            In (LInboxLockFailed (Js.message e)) (log o) /\
            exists rs rest'', rest' = EvListSpecialUse rs :: rest''
        | Ok l =>
            exists rr rest'',
              rest' = EvRelease l rr :: rest'' /\
              match rr with
              | Ok _ => exists rs rest3, rest'' = EvListSpecialUse rs :: rest3
              | Throw e =>
                  res o = Throw e /\
                  exists r2 r3, rest'' = [EvRelease l r2; EvLogout r3]
              end
        end
  | _ => True
  end.
Proof.
  intros o. subst o.
  pose proof (findOrCreateSentBox_run client env utc s) as HR.
  destruct (findOrCreateSentBox_protocol client env utc s)
    as (_ & _ & _ & _ & Hlog & _).
  cbv zeta in HR.
  destruct (findOrCreateSentBox client env utc s) as [out st tr lg].
  cbn [trace res log] in *. run_cases HR; cbn in Hlog |- *; auto.
  all: do 2 eexists; (split; [reflexivity|]); cbn.
  all: try (split; [exact Hlog|]; do 2 eexists; reflexivity).
  all: do 2 eexists; (split; [reflexivity|]); cbn.
  all: first [ do 2 eexists; reflexivity
             | split; [reflexivity|]; do 2 eexists; reflexivity ].
Qed.

(** X7.  The two listings of the discovery.  A special-use listing that
    fails is logged and the run goes on to the full listing.  One that
    succeeds is searched for the Sent designation: the run goes on to the
    full listing unless reading the flags of an entry throws, and then it
    ends with that error, without a full listing, with nothing created or
    appended and one logout.  A full listing that fails, or whose flags
    cannot be read for the lines logged, ends the run with that error:
    nothing is created, nothing is appended, and the only call left is the
    logout. *)
Theorem listing_failures (s : St S) :
  let o := findOrCreateSentBox client env utc s in
  match specialListing (trace o) with
  | Some rs =>
      match rs with
      | Throw e =>
          In (LSpecialUseFailed (Js.message e)) (log o) /\
          exists rl, firstList (trace o) = Some rl
      | Ok special =>
          match findWith isSent special with
          | Ok _ => exists rl, firstList (trace o) = Some rl
          | Throw e =>
              res o = Throw e /\ firstList (trace o) = None /\
              creations (trace o) = [] /\ appends (trace o) = [] /\
              exists r, logouts (trace o) = [r]
          end
      end /\
      match firstList (trace o) with
      | Some (Throw e) =>
          res o = Throw e /\
          creations (trace o) = [] /\ appends (trace o) = [] /\
          exists r, afterFirstList (trace o) = [EvLogout r]
      | Some (Ok all) =>
          match forEach flagsText all with
          | Throw e =>
              res o = Throw e /\
              creations (trace o) = [] /\ appends (trace o) = [] /\
              exists r, afterFirstList (trace o) = [EvLogout r]
          | Ok _ => True
          end
      | None => True
      end
  | None => firstList (trace o) = None
  end.
Proof.
  intros o. subst o.
  pose proof (findOrCreateSentBox_run client env utc s) as HR.
  destruct (findOrCreateSentBox_protocol client env utc s)
    as (_ & _ & _ & _ & _ & Hlog).
  cbv zeta in HR.
  destruct (findOrCreateSentBox client env utc s) as [out st tr lg].
  cbn [trace res log] in *. run_cases HR; cbn in Hlog |- *; auto.
  all: rewrite ?Ht.
  all: (split; [|cbn; eauto 8]).
  all: destruct rs as [special|e1]; cbn [designated] in Hd;
    [rewrite Hd; cbn; eauto 8 | first [discriminate Hd | cbn; eauto]].
Qed.

(** The error a discovery throws, and the log it leaves. *)
Lemma thrown_error_logged (s : St S) :
  let o := findOrCreateSentBox client env utc s in
  match res o with
  | Ok _ => True
  | Throw e =>
      (trace o = [] /\ log o = [] /\ e = credentialsError) \/
      (trace o = [EvConnect cfg (Throw e)] /\ log o = []) \/
      (exists rest, trace o = EvConnect cfg (Ok tt) :: rest) /\
      endsWith (log o) (LFatal (Js.message e))
  end.
Proof.
  intros o. subst o.
  pose proof (findOrCreateSentBox_run client env utc s) as HR.
  destruct (findOrCreateSentBox_protocol client env utc s)
    as (_ & _ & _ & Hlog & _).
  cbv zeta in HR. fold user pass cfg in HR.
  destruct (findOrCreateSentBox client env utc s) as [out st tr lg].
  cbn [trace res log] in *. destruct out as [got|err]; [exact I|].
  remember (Throw err) as out eqn:Ho.
  run_cases HR; cbn in Hlog; try injection Ho as <-; auto.
  all: right; right; split; [eexists; reflexivity|].
  all: subst; exact Hlog.
Qed.

(** X8.  A discovery that fails says why.  With the credentials missing
    it throws before any call, and with the connection refused it throws
    the error of the connection; in both cases nothing is logged.  Every
    other failure passes through the outer handler: the last line of the
    log is the fatal one, with the message of the error thrown. *)
Theorem discovery_failure_logged (s : St S) :
  let o := findOrCreateSentBox client env utc s in
  match res o with
  | Ok _ => True
  | Throw e =>
      (trace o = [] /\ log o = [] /\ e = credentialsError) \/
      (trace o = [EvConnect cfg (Throw e)] /\ log o = []) \/
      (exists rest, trace o = EvConnect cfg (Ok tt) :: rest) /\
      endsWith (log o) (LFatal (Js.message e))
  end.
Proof.
  exact (thrown_error_logged s).
Qed.

(** X9.  What a discovery creates.  Every [mailboxCreate] asks for the
    \Sent special use.  It is made either by the creation loop, on one of
    its three paths, and then no folder of the first full listing has
    that name, letter case apart; or by the TRYCREATE recovery, on the
    path whose probe append was just refused with that hint. *)
Theorem discovery_creations (s : St S) (p su : string) (rc : result unit) :
  let o := findOrCreateSentBox client env utc s in
  In (EvMailboxCreate p su rc) (trace o) ->
  su = "\Sent" /\
  exists all,
    firstList (trace o) = Some (Ok all) /\
    (In p (tryPaths (detectDelimiter all)) /\
     (forall mb, In mb all ->
        Js.toLowerCase (path mb) <> Js.toLowerCase p) \/
     exists e, In (EvAppend p msg probeFlags (Throw e)) (trace o) /\
               testTryCreate (Js.describe e) = true).
Proof.
  intros o. subst o.
  exact (@Run_creations _ _ _ _ p su rc
           (findOrCreateSentBox_run client env utc s)).
Qed.

(** X10.  What a discovery appends.  Nothing but the probe message,
    flagged \Seen and \Deleted; all the appends of a run go to one path;
    and there are two at most. *)
Theorem discovery_appends (s : St S) (p c : string) (fl : list string)
    (ra : result unit) :
  let o := findOrCreateSentBox client env utc s in
  In (EvAppend p c fl ra) (trace o) ->
  c = msg /\ fl = ["\Seen"; "\Deleted"] /\
  (forall p' c' fl' ra', In (EvAppend p' c' fl' ra') (trace o) -> p' = p) /\
  (length (appends (trace o)) <= 2)%nat.
Proof.
  intros o. subst o. intros Hin.
  pose proof (findOrCreateSentBox_run client env utc s) as HR. cbv zeta in HR.
  destruct (Run_appends HR) as (p0 & Hp0).
  destruct (Hp0 _ _ _ _ Hin) as (-> & -> & ->).
  split; [reflexivity|]. split; [reflexivity|]. split.
  - intros p' c' fl' ra' Hin'. now destruct (Hp0 _ _ _ _ Hin').
  - exact (Run_appends_count HR).
Qed.

(** X11.  What a result rests on.  The path returned is the path of an
    entry of a listing the server gave during the run; an append of the
    probe on that very path was accepted; and the session was closed by
    one logout, which succeeded. *)
Theorem discovery_result_grounded (s : St S) (got : ResolutionResult) :
  let o := findOrCreateSentBox client env utc s in
  res o = Ok got ->
  In (EvAppend (sentPath got) msg ["\Seen"; "\Deleted"] (Ok tt)) (trace o) /\
  logouts (trace o) = [Ok tt] /\
  exists listing mb,
    (In (EvListSpecialUse (Ok listing)) (trace o) \/
     In (EvList (Ok listing)) (trace o)) /\
    In mb listing /\ path mb = sentPath got.
Proof.
  intros o. subst o. intros Hres.
  pose proof (findOrCreateSentBox_run client env utc s) as HR. cbv zeta in HR.
  rewrite Hres in HR.
  destruct (Run_grounded HR)
    as (Ha & Hlo & rs & all & Hs & Hl & _ & Hc).
  split; [exact Ha|]. split; [exact Hlo|].
  apply specialListing_In in Hs. pose proof (firstList_In _ Hl) as Hl'.
  destruct (created got).
  - destruct Hc as (_ & _ & _ & _ & refreshed & mb & Hr & Hmb & Hp).
    exists refreshed, mb. split; [right; now apply In_afterFirstList|].
    now split.
  - destruct Hc as ((mb & Hp & [Hd|(_ & Hm)]) & _).
    + destruct (designated_listed _ Hd) as (special & -> & Hin & _).
      exists special, mb. auto.
    + destruct (matchByName_listed _ _ Hm) as (Hin & _).
      exists all, mb. auto.
Qed.

(** X12.  What [created] tells.  A result with created=true names a
    path of the creation loop, built with the delimiter returned, that
    this run created with success after the first full listing, and that
    no folder of that listing had, letter case apart; the search of the
    special-use listing had found nothing.  A result with created=false
    names a folder that the server listed before the run created
    anything: one that the search of the special-use listing found or,
    failing that, one that the first full listing had under a candidate
    name.  It does not say that the folder existed, nor that the run
    created nothing: the one creation such a run can make is the TRYCREATE
    recovery of the probe, on that very path, after the server refused
    the probe append with that hint. *)
Theorem created_flag (s : St S) (got : ResolutionResult) :
  let o := findOrCreateSentBox client env utc s in
  res o = Ok got ->
  exists rs all,
    specialListing (trace o) = Some rs /\
    firstList (trace o) = Some (Ok all) /\
    creations (trace o) = creations (afterFirstList (trace o)) /\
    if created got then
      designated rs = Ok None /\
      (forall mb, In mb all ->
         Js.toLowerCase (path mb) <> Js.toLowerCase (sentPath got)) /\
      In (sentPath got) (tryPaths (delimiter got)) /\
      In (EvMailboxCreate (sentPath got) "\Sent" (Ok tt))
         (afterFirstList (trace o))
    else
      (exists mb,
         path mb = sentPath got /\
         (designated rs = Ok (Some mb) \/
          designated rs = Ok None /\ In mb all /\
          exists c, In c (candidates (delimiter got)) /\
                    Js.toLowerCase (path mb) = Js.toLowerCase c)) /\
      (creations (trace o) = [] \/
       creations (trace o) = [sentPath got] /\
       exists e,
         In (EvAppend (sentPath got) msg probeFlags (Throw e)) (trace o) /\
         testTryCreate (Js.describe e) = true).
Proof.
  intros o. subst o. intros Hres.
  pose proof (findOrCreateSentBox_run client env utc s) as HR. cbv zeta in HR.
  rewrite Hres in HR.
  destruct (Run_grounded HR)
    as (_ & _ & rs & all & Hs & Hl & Hd & Hc).
  pose proof (Run_listed HR Hs) as HL.
  assert (Hcr : creations (trace (findOrCreateSentBox client env utc s)) =
                creations (afterFirstList
                  (trace (findOrCreateSentBox client env utc s)))).
  { destruct (designated rs) as [found|e].
    - now destruct HL as (_ & _ & Hcr & _).
    - destruct HL as (_ & Hn & _). congruence. }
  exists rs, all. split; [exact Hs|]. split; [exact Hl|].
  split; [exact Hcr|].
  destruct (created got).
  - destruct Hc as (Hdes & Hm & Hp & Hcre & _).
    split; [exact Hdes|]. split; [|now split].
    intros mb Hmb.
    apply (proj1 (matchByName_none_iff all (detectDelimiter all)) Hm);
      [|exact Hmb].
    apply tryPaths_candidates. now rewrite <- Hd.
  - destruct Hc as ((mb & Hp & [Hdes|(Hdes & Hm)]) & Hcreated).
    + split; [|exact Hcreated]. exists mb. auto.
    + destruct (matchByName_listed _ _ Hm) as (Hin & c & Hc & Hlow).
      split; [|exact Hcreated].
      exists mb. split; [exact Hp|]. right. split; [exact Hdes|].
      split; [exact Hin|]. exists c. now rewrite Hd.
Qed.

End Discovery.

Section DiscoveryExamples.

Import Scripted.

(** On a server with nothing but INBOX the loop creates INBOX/Sent, a
    name the listing did not have. *)
Lemma discovery_creations_witness :
  let o := findOrCreateSentBox (client bare) env utc initial in
  In (EvMailboxCreate "INBOX/Sent" "\Sent" (Ok tt)) (trace o) /\
  "\Sent" = "\Sent" /\
  exists all,
    firstList (trace o) = Some (Ok all) /\
    (In "INBOX/Sent" (tryPaths (detectDelimiter all)) /\
     (forall mb, In mb all ->
        Js.toLowerCase (path mb) <> Js.toLowerCase "INBOX/Sent") \/
     exists e,
       In (EvAppend "INBOX/Sent" (testMessage "relay@example.com" utc)
             probeFlags (Throw e)) (trace o) /\
       testTryCreate (Js.describe e) = true).
Proof.
  intros o.
  assert (Hin : In (EvMailboxCreate "INBOX/Sent" "\Sent" (Ok tt)) (trace o))
    by (vm_compute; tauto).
  split; [exact Hin|].
  exact (@discovery_creations State (client bare) env utc initial
           "INBOX/Sent" "\Sent" (Ok tt) Hin).
Defined.

(** On a server that designates Sent and answers the first append with
    TRYCREATE, both appends are the probe on Sent. *)
Lemma discovery_appends_witness :
  let o := findOrCreateSentBox (client designatedButAbsent) env utc initial in
  let msg := testMessage "relay@example.com" utc in
  In (EvAppend "Sent" msg probeFlags (Ok tt)) (trace o) /\
  msg = msg /\ probeFlags = ["\Seen"; "\Deleted"] /\
  (forall p' c' fl' ra',
     In (EvAppend p' c' fl' ra') (trace o) -> p' = "Sent") /\
  (length (appends (trace o)) <= 2)%nat.
Proof.
  intros o msg.
  assert (Hin : In (EvAppend "Sent" msg probeFlags (Ok tt)) (trace o))
    by (vm_compute; tauto).
  split; [exact Hin|].
  exact (@discovery_appends State (client designatedButAbsent) env utc initial
           "Sent" msg probeFlags (Ok tt) Hin).
Defined.

(** On a server without special use that lists SENT ITEMS, that path is
    returned: it is an entry of the full listing, and the probe on it was
    accepted. *)
Lemma discovery_result_grounded_witness :
  let o := findOrCreateSentBox (client namedOnly) env utc initial in
  let got := {| sentPath := "SENT ITEMS"; delimiter := "/"; created := false |} in
  res o = Ok got /\
  In (EvAppend "SENT ITEMS" (testMessage "relay@example.com" utc)
        ["\Seen"; "\Deleted"] (Ok tt)) (trace o) /\
  logouts (trace o) = [Ok tt] /\
  exists listing mb,
    (In (EvListSpecialUse (Ok listing)) (trace o) \/
     In (EvList (Ok listing)) (trace o)) /\
    In mb listing /\ path mb = "SENT ITEMS".
Proof.
  intros o got. split; [reflexivity|].
  exact (@discovery_result_grounded State (client namedOnly) env utc initial
           got eq_refl).
Defined.

(** On a server with nothing but INBOX the result has created=true for
    INBOX/Sent; on one that lists SENT ITEMS it has created=false and
    nothing was created; on one that designates Sent and answers the first
    probe append with TRYCREATE it has created=false although the run
    created Sent. *)
Lemma created_flag_witness :
  let o := findOrCreateSentBox (client bare) env utc initial in
  let o' := findOrCreateSentBox (client namedOnly) env utc initial in
  let o'' := findOrCreateSentBox (client designatedButAbsent) env utc initial in
  let msg := testMessage "relay@example.com" utc in
  let got := {| sentPath := "INBOX/Sent"; delimiter := "/"; created := true |} in
  let got' := {| sentPath := "SENT ITEMS"; delimiter := "/"; created := false |} in
  let got'' := {| sentPath := "Sent"; delimiter := "/"; created := false |} in
  (res o = Ok got /\ res o' = Ok got' /\ res o'' = Ok got'' /\
   creations (trace o') = [] /\ creations (trace o'') = ["Sent"]) /\
  (exists rs all,
     specialListing (trace o) = Some rs /\
     firstList (trace o) = Some (Ok all) /\
     creations (trace o) = creations (afterFirstList (trace o)) /\
     designated rs = Ok None /\
     (forall mb, In mb all ->
        Js.toLowerCase (path mb) <> Js.toLowerCase "INBOX/Sent") /\
     In "INBOX/Sent" (tryPaths "/") /\
     In (EvMailboxCreate "INBOX/Sent" "\Sent" (Ok tt))
        (afterFirstList (trace o))) /\
  (exists rs all,
     specialListing (trace o') = Some rs /\
     firstList (trace o') = Some (Ok all) /\
     creations (trace o') = creations (afterFirstList (trace o')) /\
     (exists mb,
        path mb = "SENT ITEMS" /\
        (designated rs = Ok (Some mb) \/
         designated rs = Ok None /\ In mb all /\
         exists c, In c (candidates "/") /\
                   Js.toLowerCase (path mb) = Js.toLowerCase c)) /\
     (creations (trace o') = [] \/
      creations (trace o') = ["SENT ITEMS"] /\
      exists e,
        In (EvAppend "SENT ITEMS" msg probeFlags (Throw e)) (trace o') /\
        testTryCreate (Js.describe e) = true)) /\
  (exists rs all,
     specialListing (trace o'') = Some rs /\
     firstList (trace o'') = Some (Ok all) /\
     creations (trace o'') = creations (afterFirstList (trace o'')) /\
     (exists mb,
        path mb = "Sent" /\
        (designated rs = Ok (Some mb) \/
         designated rs = Ok None /\ In mb all /\
         exists c, In c (candidates "/") /\
                   Js.toLowerCase (path mb) = Js.toLowerCase c)) /\
     (creations (trace o'') = [] \/
      creations (trace o'') = ["Sent"] /\
      exists e,
        In (EvAppend "Sent" msg probeFlags (Throw e)) (trace o'') /\
        testTryCreate (Js.describe e) = true)).
Proof.
  intros o o' o'' msg got got' got''.
  split; [repeat match goal with |- _ /\ _ => apply conj end; reflexivity|].
  split; [|split].
  - exact (@created_flag State (client bare) env utc initial got eq_refl).
  - exact (@created_flag State (client namedOnly) env utc initial got' eq_refl).
  - exact (@created_flag State (client designatedButAbsent) env utc initial
             got'' eq_refl).
Defined.

End DiscoveryExamples.

(* ================================================================= *)
(** ** The calls and the log of the appender *)

Section AppenderCalls.

Variable S : Type.
Variable client : Client S.

(** X13.  The runs of [appendToSent].  The three guards come in order:
    the flag, then the credentials, then the message; a run stopped by a
    guard makes no call, leaves the state as it was and logs the one line
    of that guard.  A run that passes them connects with the configured
    account.  If the connection fails the only other call is the logout.
    Otherwise the configured mailbox and then Enviados, Sent, Sent Items
    and INBOX.Sent are locked in this order until one lock is obtained;
    the message goes, unchanged and flagged \Seen, to the path that lock
    reports, in a single append; the lock is released whatever the append
    gave; and the logout comes last.  When no name locks, nothing is
    appended. *)
Theorem appendToSent_calls (env : Env) (raw : Js.value) (s : St S) :
  let o := appendToSent client env raw s in
  let user := Js.orElse (IMAP_USER env) (SMTP_USER env) in
  let pass := Js.orElse (IMAP_PASS env) (SMTP_PASS env) in
  let cfg := imapConfig env (render user) (render pass) in
  let mailbox := Js.orDefault (IMAP_MAILBOX env) "Sent" in
  let enabled := Js.strictEq (SAVE_SENT_COPY env) "true" in
  let credentials := Js.truthy user && Js.truthy pass in
  trace o = [] /\ state o = s /\
  (enabled = false /\ log o = [LDisabled] \/
   enabled = true /\ credentials = false /\ log o = [LNoCredentials] \/
   enabled = true /\ credentials = true /\
   (Js.toBoolean raw = false \/ Js.typeof raw <> "string") /\
   log o = [LInvalidRaw]) \/
  enabled = true /\ credentials = true /\
  exists content,
    raw = Js.VString content /\ content <> "" /\
    ((exists e r, trace o = [EvConnect cfg (Throw e); EvLogout r]) \/
     exists rest,
       trace o = EvConnect cfg (Ok tt) :: rest /\
       AfterConnect content (mailbox :: fallbackMailboxes) rest).
Proof.
  apply appendToSent_shape.
Qed.

End AppenderCalls.

(* ================================================================= *)
(** ** The Sent copy of POST /send *)

(** A composed message is never empty: it opens with the Message-ID
    header. *)
Lemma buildRFC822Message_opening (mailOptions : MailOptions)
    (fromEmail : option string) (rnd : Entropy) :
  exists rest,
    buildRFC822Message mailOptions fromEmail rnd = "Message-ID: " ++ rest.
Proof.
  unfold buildRFC822Message. cbv zeta.
  destruct (recipientsTruthy (cc mailOptions));
    destruct (recipientsTruthy (bcc mailOptions));
    destruct (Js.truthy (html mailOptions) && _);
    try destruct (Js.truthy (html mailOptions));
    rewrite ?append_assoc; cbn [append]; eexists; reflexivity.
Qed.

Lemma tryCatch_ok {S A} (m : M S A) (h : Js.Error -> M S A) (s : St S)
    (a : A) :
  res (m s) = Ok a -> tryCatch m h s = m s.
Proof.
  unfold tryCatch. destruct (m s) as [r st tr lg]. cbn. now intros ->.
Qed.

Section SentCopy.

Variables RequestBody Details Attachment : Type.
Variable validateSendEmail : RequestBody -> Validation Details Attachment.
Variable sendMail : MailOptions -> option (list Attachment) -> result SendInfo.
Variable S : Type.
Variable client : Client S.

(** X16.  The Sent copy.  An append is launched exactly when the send
    succeeded and SAVE_SENT_COPY is "true".  What is launched is
    [appendToSent] on the message composed from the validated fields and
    FROM_EMAIL, and its [catch] never fires.  The composed message always
    passes the guard on the message, so the append is skipped only for
    lack of credentials; otherwise the session is opened and the calls
    are those of [appendToSent], with the composed message as the content
    appended. *)
Theorem sent_copy (env : Env) (rnd : Entropy) (reqBody : RequestBody)
    (s : St S) :
  let answer := postSend validateSendEmail sendMail client env rnd reqBody s in
  let user := Js.orElse (IMAP_USER env) (SMTP_USER env) in
  let pass := Js.orElse (IMAP_PASS env) (SMTP_PASS env) in
  let cfg := imapConfig env (render user) (render pass) in
  let mailbox := Js.orDefault (IMAP_MAILBOX env) "Sent" in
  match snd answer with
  | None =>
      code (fst answer) <> 200%Z \/
      Js.strictEq (SAVE_SENT_COPY env) "true" = false
  | Some background =>
      code (fst answer) = 200%Z /\
      Js.strictEq (SAVE_SENT_COPY env) "true" = true /\
      exists data,
        validateSendEmail reqBody = Valid data /\
        let raw :=
          buildRFC822Message (mailOptionsOf env data) (FROM_EMAIL env) rnd in
        background = appendToSent client env (Js.VString raw) s /\
        (Js.truthy user && Js.truthy pass = false /\
         trace background = [] /\ log background = [LNoCredentials] \/
         Js.truthy user && Js.truthy pass = true /\
         ((exists e r,
             trace background = [EvConnect cfg (Throw e); EvLogout r]) \/
          exists rest,
            trace background = EvConnect cfg (Ok tt) :: rest /\
            AfterConnect raw (mailbox :: fallbackMailboxes) rest))
  end.
Proof.
  unfold postSend. cbv zeta.
  destruct (validateSendEmail reqBody) as [data|details] eqn:Hv;
    [|left; discriminate].
  destruct (sendMail _ _) as [info|error].
  - cbn [fst snd code].
    destruct (Js.strictEq (SAVE_SENT_COPY env) "true") eqn:Hflag;
      [|now right].
    split; [reflexivity|]. split; [reflexivity|].
    exists data. split; [reflexivity|].
    set (raw := buildRFC822Message (mailOptionsOf env data) (FROM_EMAIL env) rnd).
    destruct (appendToSent_run client env (Js.VString raw) s) as (Hres & _).
    rewrite (tryCatch_ok _ _ _ Hres). split; [reflexivity|].
    destruct (appendToSent_shape client env (Js.VString raw) s)
      as [(Htr & _ & H)|(_ & Hc & content & Hraw & _ & H)].
    + rewrite Hflag in H.
      destruct H as [(H & _)|[(_ & Hc & Hl)
                             |(_ & _ & [Hb|Ht] & _)]].
      * discriminate H.
      * left. auto.
      * exfalso. destruct (buildRFC822Message_opening (mailOptionsOf env data)
                             (FROM_EMAIL env) rnd) as (rest & Hr).
        fold raw in Hr. cbn in Hb. rewrite Hr in Hb. discriminate Hb.
      * now destruct Ht.
    + right. split; [exact Hc|]. injection Hraw as <-. exact H.
  - left. cbn [fst code]. rewrite mapSmtpError_status.
    destruct (classOf error); discriminate.
Qed.

End SentCopy.

(* ================================================================= *)
(** ** The check from the command line *)

Section ImapCheckReport.

Variable S : Type.
Variable client : Client S.
Variable env : Env.
Variable utc : string.

Let msg : string :=
  testMessage (render (Js.orElse (IMAP_USER env) (SMTP_USER env))) utc.

(** X17.  scripts/imap-check.js.  The script exits with 0 exactly when
    the discovery returns, and then the path it prints was validated in
    this run (an append of the probe on it was accepted) and the session
    was closed by one successful logout.  It exits with 1 when the
    discovery throws, and then prints the message of the error thrown,
    which is also the one of the last line logged, the fatal one, unless
    the run stopped before or at the connection with an empty log. *)
Theorem imapCheck_report (s : St S) :
  let report := fst (imapCheck client env utc s) in
  let o := findOrCreateSentBox client env utc s in
  snd (imapCheck client env utc s) = o /\
  match res o with
  | Ok got =>
      exitCode report = 0%Z /\
      printed report =
        [("📁 Path final:", sentPath got);
         ("🔗 Delimitador:", delimiter got);
         ("🆕 Creada:", if created got then "SÍ" else "NO (ya existía)")] /\
      In (EvAppend (sentPath got) msg probeFlags (Ok tt)) (trace o) /\
      logouts (trace o) = [Ok tt]
  | Throw e =>
      exitCode report = 1%Z /\
      printed report = [("Mensaje:", Js.message e)] /\
      (log o = [] \/ endsWith (log o) (LFatal (Js.message e)))
  end.
Proof.
  intros report o. subst report. unfold imapCheck. cbv zeta. fold o.
  split; [reflexivity|]. cbn [fst].
  pose proof (findOrCreateSentBox_run client env utc s) as HR.
  pose proof (thrown_error_logged client env utc s) as Hlog.
  cbv zeta in HR, Hlog. fold o in HR, Hlog.
  destruct (res o) as [got|e].
  - split; [reflexivity|]. split; [reflexivity|].
    destruct (Run_grounded HR) as (Ha & Hlo & _). now split.
  - split; [reflexivity|]. split; [reflexivity|].
    destruct Hlog as [(_ & Hl & _)|[(_ & Hl)|(_ & Hl)]]; auto.
Qed.

End ImapCheckReport.

(* ================================================================= *)
(** ** The checks on traces tell runs apart *)

(** A session logged out with a lock still held, a call before the
    connection, an expunge that no flagging precedes, and a flagging of
    messages other than the ones found are all refused. *)
Example trace_checks_refuse :
  let l := {| lock_path := "Sent" |} in
  locksSettled [EvGetMailboxLock "Sent" (Ok l); EvLogout (Ok tt)] = false /\
  locksSettled [EvGetMailboxLock "Sent" (Ok l)] = false /\
  locksSettled [EvRelease l (Ok tt)] = false /\
  sessionRun Fresh [EvLogout (Ok tt)] = None /\
  sessionRun Fresh
    [EvConnect (imapConfig Scripted.env "u" "p") (Ok tt); EvLogout (Ok tt);
     EvExpunge (Ok tt)] = None /\
  guarded None [EvExpunge (Ok tt)] = false /\
  guarded None
    [EvGetMailboxLock "INBOX" (Ok l); EvSearch "IMAP Discovery Probe" (Ok [1%N]);
     EvMessageFlagsAdd [1%N; 2%N] ["\Deleted"] (Ok tt)] = false /\
  guarded None [EvGetMailboxLock "Sent" (Ok l)] = false.
Proof.
  cbv zeta. repeat split; reflexivity.
Qed.

(* ================================================================= *)
(** ** The headers of the Sent copy *)

Lemma orDefault_orElse_same (x : option string) (d : string) :
  Js.orDefault (Js.orElse x x) d = Js.orDefault x d.
Proof.
  unfold Js.orElse. now destruct (Js.truthy x).
Qed.

Section SentCopyHeaders.

Variable Attachment : Type.

(** X18.  The headers of the Sent copy that POST /send composes.  They
    are six, in this order: a Message-ID generated for the copy from the
    clock and a random token (the one the SMTP transport assigned is not
    used), Date, From (FROM_EMAIL, or the fixed default address when it
    is unset or empty), To (the recipients joined by a comma and a space),
    Subject and MIME-Version.  There is never a Cc or a Bcc header, and
    the Content-Type of the body follows at once. *)
Theorem sent_copy_headers (env : Env) (data : SendData Attachment)
    (rnd : Entropy) :
  exists body,
    buildRFC822Message (mailOptionsOf env data) (FROM_EMAIL env) rnd =
      "Message-ID: <" ++ idNow rnd ++ "." ++ idRandom rnd
        ++ "@piensaajedrez.com>" ++ Js.CRLF ++
      "Date: " ++ utcString rnd ++ Js.CRLF ++
      "From: " ++ Js.orDefault (FROM_EMAIL env) "noreply@piensaajedrez.com"
        ++ Js.CRLF ++
      "To: " ++ render (option_map joinRecipients (data_to data)) ++ Js.CRLF ++
      "Subject: " ++ Js.orDefault (data_subject data) "" ++ Js.CRLF ++
      "MIME-Version: 1.0" ++ Js.CRLF ++
      body /\
    Js.startsWith body "Content-Type: " = true.
Proof.
  unfold buildRFC822Message, mailOptionsOf.
  cbn [from to cc bcc subject text html messageId recipientsTruthy Js.orDefault].
  cbv zeta. rewrite orDefault_orElse_same.
  destruct (Js.truthy (data_html data) && _);
    [|destruct (Js.truthy (data_html data))];
    rewrite ?append_assoc; cbn [append];
    rewrite ?append_assoc; cbn [append];
    eexists; (split; [reflexivity|]); reflexivity.
Qed.

End SentCopyHeaders.
